(** * Closest-In-Path-Vehicle selection (modules/perception/camera/app/cipv_camera.cc)

    A shallow embedding of [apollo::perception::Cipv] and the properties of
    its lane synthesis, closest-edge geometry, lane containment, CIPV
    selection and trajectory bookkeeping.

    Numbers.  The C++ [float] and [double] values are modelled by exact
    rationals [Q]: rounding, overflow, infinities and NaN are outside the
    model, and a [static_cast<float>] is the identity.  Equality of such
    values is [Qeq] ([==]).  Integers are [Z]; where the source converts
    between integer types the wrap-around is written out. *)

From Stdlib Require Import ZArith QArith Qabs List Bool Lia Lqa.
From stdpp Require Import gmap sorting.
Import ListNotations.
Local Open Scope Q_scope.

(** ** Scalars *)

(** [a < b] and [a <= b] on floating values, as booleans. *)
Definition Qltb (a b : Q) : bool := negb (Qle_bool b a).
Definition Qleb (a b : Q) : bool := Qle_bool a b.

(** [fabs]. *)
Definition fabs (a : Q) : Q := Qabs a.

(** [static_cast<int32_t>] of a non-negative size. *)
Definition to_int32 (z : Z) : Z := ((z + 2 ^ 31) mod 2 ^ 32 - 2 ^ 31)%Z.

(** Arithmetic on [std::size_t] is modulo [2^64]. *)
Definition to_size_t (z : Z) : Z := (z mod 2 ^ 64)%Z.

(** [std::numeric_limits<double>::min()], the smallest positive normal
    double, [2^-1022]. *)
Definition DBL_MIN : Q := 1 # (2 ^ 1022).

(** ** Undefined behaviour

    An access outside a [std::vector] or a C array has no defined result.
    Functions that can perform one return an [outcome]. *)

Inductive outcome (A : Type) : Type :=
| Ok (a : A)
| Undefined.
Arguments Ok {A} a.
Arguments Undefined {A}.

#[global] Instance outcome_ret : MRet outcome := fun A a => Ok a.

#[global] Instance outcome_bind : MBind outcome := fun A B k x =>
  match x with
  | Ok a => k a
  | Undefined => Undefined
  end.

(** [v[i]] for a vector and a signed index. *)
Definition at_index {A : Type} (v : list A) (i : Z) : outcome A :=
  if ((i <? 0) || (Z.of_nat (length v) <=? i))%Z then Undefined
  else match nth_error v (Z.to_nat i) with
       | Some a => Ok a
       | None => Undefined
       end.

(** ** Constants of the header

    [cipv_camera.h] and [lane_object.h] are not among the sources verified here;
    the constants they define are taken as parameters. *)

Record Constants : Type := {
  AVERAGE_FRATE_RATE : Q;
  B_FLT_EPSILON : Q;
  EPSILON : Q;
  MAX_FLOAT : Q;
  EGO_CAR_HALF_VIRTUAL_LANE : Q;
  MAX_DIST_OBJECT_TO_LANE_METER : Q;
  MAX_VEHICLE_WIDTH_METER : Q;
  MIN_LANE_LINE_LENGTH_FOR_CIPV_DETERMINATION : Z;
  DROPS_HISTORY_SIZE : Z;
  MAX_ALLOWED_SKIP_OBJECT : Z
}.

(** The functions of [<cmath>] the source calls, and [M_PI_2]. *)
Record Libm : Type := {
  cos : Q -> Q;
  sin : Q -> Q;
  atan2 : Q -> Q -> Q;
  sqrt : Q -> Q;
  M_PI_2 : Q
}.

(** ** Linear algebra (Eigen) *)

Definition Vector3d : Type := (Q * Q * Q)%type.

Record Matrix3d : Type := {
  m00 : Q; m01 : Q; m02 : Q;
  m10 : Q; m11 : Q; m12 : Q;
  m20 : Q; m21 : Q; m22 : Q
}.

Definition coeff (m : Matrix3d) (i j : nat) : Q :=
  match (i mod 3)%nat, (j mod 3)%nat with
  | 0%nat, 0%nat => m00 m | 0%nat, 1%nat => m01 m | 0%nat, _ => m02 m
  | 1%nat, 0%nat => m10 m | 1%nat, 1%nat => m11 m | 1%nat, _ => m12 m
  | _, 0%nat => m20 m | _, 1%nat => m21 m | _, _ => m22 m
  end.

(** [matrix * vector]. *)
Definition mat_vec (m : Matrix3d) (v : Vector3d) : Vector3d :=
  let '(a, b, c) := v in
  (m00 m * a + m01 m * b + m02 m * c,
   m10 m * a + m11 m * b + m12 m * c,
   m20 m * a + m21 m * b + m22 m * c).

(** Eigen inverts a fixed 3x3 matrix by cofactors: [cofactor_3x3<i,j>]. *)
Definition cofactor_3x3 (m : Matrix3d) (i j : nat) : Q :=
  coeff m (i + 1) (j + 1) * coeff m (i + 2) (j + 2)
  - coeff m (i + 1) (j + 2) * coeff m (i + 2) (j + 1).

Definition determinant (m : Matrix3d) : Q :=
  cofactor_3x3 m 0 0 * coeff m 0 0
  + cofactor_3x3 m 1 0 * coeff m 1 0
  + cofactor_3x3 m 2 0 * coeff m 2 0.

(** [Matrix3d::inverse()]: the transposed cofactors times [1 / det].  No
    test of the determinant is made; in [Q] the quotient by zero is zero,
    where the doubles of the source become infinite or NaN. *)
Definition inverse (m : Matrix3d) : Matrix3d :=
  let invdet := 1 / determinant m in
  {| m00 := cofactor_3x3 m 0 0 * invdet;
     m01 := cofactor_3x3 m 1 0 * invdet;
     m02 := cofactor_3x3 m 2 0 * invdet;
     m10 := cofactor_3x3 m 0 1 * invdet;
     m11 := cofactor_3x3 m 1 1 * invdet;
     m12 := cofactor_3x3 m 2 1 * invdet;
     m20 := cofactor_3x3 m 0 2 * invdet;
     m21 := cofactor_3x3 m 1 2 * invdet;
     m22 := cofactor_3x3 m 2 2 * invdet |}.



Definition identity3 : Matrix3d :=
  {| m00 := 1; m01 := 0; m02 := 0;
     m10 := 0; m11 := 1; m12 := 0;
     m20 := 0; m21 := 0; m22 := 1 |}.

Definition zero3 : Matrix3d :=
  {| m00 := 0; m01 := 0; m02 := 0;
     m10 := 0; m11 := 0; m12 := 0;
     m20 := 0; m21 := 0; m22 := 0 |}.

(** ** Geometry and scene types *)

Definition Point2Df : Type := (Q * Q)%type.

Record LineSegment2Df : Type := {
  start_point : Point2Df;
  end_point : Point2Df
}.

(** [LaneLineSimple]: its [line_point] vector. *)
Definition LaneLineSimple : Type := list Point2Df.

Record EgoLane : Type := {
  left_line : LaneLineSimple;
  right_line : LaneLineSimple
}.

Inductive LaneLinePositionType : Type :=
| EGO_LEFT
| EGO_RIGHT
| OTHER_POSITION.

Record LaneLine : Type := {
  pos_type : LaneLinePositionType;
  curve_image_point_set : list Point2Df;
  curve_car_coord_point_set : list Vector3d
}.

(** [base::RectF], as built from the bounding box. *)
Record RectF : Type := {
  rect_x : Q; rect_y : Q; rect_width : Q; rect_height : Q
}.

Record CameraObjectSupplement : Type := {
  box : RectF;
  local_center : Vector3d;
  alpha : Q
}.

Record Object : Type := {
  track_id : Z;
  size : Vector3d;
  center : Vector3d;
  direction : Vector3d;
  camera_supplement : CameraObjectSupplement;
  b_cipv : bool
}.

Definition set_b_cipv (o : Object) (b : bool) : Object :=
  {| track_id := track_id o; size := size o; center := center o;
     direction := direction o; camera_supplement := camera_supplement o;
     b_cipv := b |}.

Record CipvOptions : Type := {
  velocity : Q;
  yaw_rate : Q
}.

(** [boost::circular_buffer<std::pair<float, float>>]: a capacity and the
    stored points, oldest first. *)
Record circular_buffer : Type := {
  capacity : Z;
  items : list (Q * Q)
}.

Definition cb_empty : circular_buffer := {| capacity := 0; items := [] |}.

Definition cb_size (b : circular_buffer) : Z := Z.of_nat (length (items b)).

(** [set_capacity]: a smaller capacity keeps the oldest elements. *)
Definition cb_set_capacity (n : Z) (b : circular_buffer) : circular_buffer :=
  {| capacity := n; items := firstn (Z.to_nat n) (items b) |}.

(** [push_back]: nothing with capacity zero; a full buffer drops its
    oldest element. *)
Definition cb_push_back (p : Q * Q) (b : circular_buffer) : circular_buffer :=
  if (capacity b <=? 0)%Z then b
  else if (cb_size b <? capacity b)%Z
       then {| capacity := capacity b; items := items b ++ [p] |}
       else {| capacity := capacity b; items := tl (items b) ++ [p] |}.

(** [Eigen::Matrix4f] by rows, and the 4-vectors it multiplies. *)
Definition Vector4f : Type := (Q * Q * Q * Q)%type.
Definition Matrix4f : Type := (Vector4f * Vector4f * Vector4f * Vector4f)%type.

Definition dot4 (r v : Vector4f) : Q :=
  let '(r0, r1, r2, r3) := r in
  let '(v0, v1, v2, v3) := v in
  r0 * v0 + r1 * v1 + r2 * v2 + r3 * v3.

Definition mat4_vec (m : Matrix4f) (v : Vector4f) : Vector4f :=
  let '(r0, r1, r2, r3) := m in (dot4 r0 v, dot4 r1 v, dot4 r2 v, dot4 r3 v).

(** An element of the motion buffer. *)
Record VehicleStatus : Type := {
  motion : Matrix4f
}.

(** One pass of the reprojection loop of [CollectDrops]: the index given to
    the motion buffer, the history point read, and what [TranformPoint]
    produced ([Undefined] when the index is outside the buffer). *)
Record DropRead : Type := {
  motion_index : Z;
  history_point : outcome (Q * Q);
  transformed_pt : outcome (option Vector3d)
}.

(** ** The engine state

    The members of [Cipv] the source uses, and the function-local
    [static int32_t old_cipv_index] of [DetermineCipv], which lives as long
    as the process and starts at [-2]. *)

Record Cipv : Type := {
  b_image_based_cipv_ : bool;
  debug_level_ : Z;
  time_unit_ : Q;
  homography_im2car_ : Matrix3d;
  homography_car2im_ : Matrix3d;
  object_trackjectories_ : gmap Z circular_buffer;
  object_id_skip_count_ : gmap Z Z;
  old_cipv_index : Z
}.

Definition set_old_cipv_index (self : Cipv) (i : Z) : Cipv :=
  {| b_image_based_cipv_ := b_image_based_cipv_ self;
     debug_level_ := debug_level_ self;
     time_unit_ := time_unit_ self;
     homography_im2car_ := homography_im2car_ self;
     homography_car2im_ := homography_car2im_ self;
     object_trackjectories_ := object_trackjectories_ self;
     object_id_skip_count_ := object_id_skip_count_ self;
     old_cipv_index := i |}.

Definition set_histories (self : Cipv)
    (t : gmap Z circular_buffer) (s : gmap Z Z) : Cipv :=
  {| b_image_based_cipv_ := b_image_based_cipv_ self;
     debug_level_ := debug_level_ self;
     time_unit_ := time_unit_ self;
     homography_im2car_ := homography_im2car_ self;
     homography_car2im_ := homography_car2im_ self;
     object_trackjectories_ := t;
     object_id_skip_count_ := s;
     old_cipv_index := old_cipv_index self |}.

(** A freshly constructed engine, before [Init]. *)
Definition fresh_engine : Cipv :=
  {| b_image_based_cipv_ := false;
     debug_level_ := 0;
     time_unit_ := 0;
     homography_im2car_ := zero3;
     homography_car2im_ := zero3;
     object_trackjectories_ := ∅;
     object_id_skip_count_ := ∅;
     old_cipv_index := -2 |}.

Section Engine.

Variable K : Constants.
Variable M : Libm.

(** ** [Cipv::Init] *)

Definition Init (self : Cipv) (homography_im2car : Matrix3d) : bool * Cipv :=
  (true,
   {| b_image_based_cipv_ := false;
      debug_level_ := 0;
      time_unit_ := AVERAGE_FRATE_RATE K;
      homography_im2car_ := homography_im2car;
      homography_car2im_ := inverse homography_im2car;
      object_trackjectories_ := object_trackjectories_ self;
      object_id_skip_count_ := object_id_skip_count_ self;
      old_cipv_index := old_cipv_index self |}).

(** ** [Cipv::image2ground], [Cipv::ground2image]

    [Some p] when the function returns [true] having written [p] to its
    out-parameters; [None] when it returns [false], the out-parameters
    untouched. *)

(** The source narrows the two quotients to [float]; the model keeps them
    exact.  A quotient beyond the range of [float], which the source stores
    as an infinity, is outside the model: nothing is concluded here about
    a later conversion of such a point. *)
Definition project (h : Matrix3d) (x y : Q) : option Point2Df :=
  let '(p0, p1, p2) := mat_vec h (x, y, 1) in
  if Qltb DBL_MIN (fabs p2) then Some (p0 / p2, p1 / p2) else None.

Definition image2ground (self : Cipv) (image_x image_y : Q) : option Point2Df :=
  project (homography_im2car_ self) image_x image_y.


(** ** [Cipv::GetEgoLane] *)

(** The copy loop over [j]: the image point [j] and the ground point [j]
    are appended together; the ground vector is read at the indices of the
    image vector. *)
Fixpoint append_lane_points (img : list Point2Df) (car : list Vector3d)
    (line_image line_ground : LaneLineSimple)
    : outcome (LaneLineSimple * LaneLineSimple) :=
  match img with
  | [] => Ok (line_image, line_ground)
  | image_point :: img' =>
      match car with
      | [] => Undefined
      | (x, y, _) :: car' =>
          append_lane_points img' car'
            (line_image ++ [image_point]) (line_ground ++ [(x, y)])
      end
  end.

(** What [GetEgoLane] writes through its four out-parameters. *)
Record EgoLanes : Type := {
  egolane_image : EgoLane;
  egolane_ground : EgoLane;
  b_left_valid : bool;
  b_right_valid : bool
}.

Definition GetEgoLane_step (acc : EgoLanes) (lane : LaneLine) : outcome EgoLanes :=
  let n := Z.of_nat (length (curve_image_point_set lane)) in
  match pos_type lane with
  | EGO_LEFT =>
      if (n <? MIN_LANE_LINE_LENGTH_FOR_CIPV_DETERMINATION K)%Z
      then Ok {| egolane_image := egolane_image acc;
                 egolane_ground := egolane_ground acc;
                 b_left_valid := false;
                 b_right_valid := b_right_valid acc |}
      else
        '(li, lg) ← append_lane_points (curve_image_point_set lane)
                      (curve_car_coord_point_set lane)
                      (left_line (egolane_image acc))
                      (left_line (egolane_ground acc));
        Ok {| egolane_image :=
                {| left_line := li;
                   right_line := right_line (egolane_image acc) |};
              egolane_ground :=
                {| left_line := lg;
                   right_line := right_line (egolane_ground acc) |};
              b_left_valid := true;
              b_right_valid := b_right_valid acc |}
  | EGO_RIGHT =>
      if (n <? MIN_LANE_LINE_LENGTH_FOR_CIPV_DETERMINATION K)%Z
      then Ok {| egolane_image := egolane_image acc;
                 egolane_ground := egolane_ground acc;
                 b_left_valid := b_left_valid acc;
                 b_right_valid := false |}
      else
        '(ri, rg) ← append_lane_points (curve_image_point_set lane)
                      (curve_car_coord_point_set lane)
                      (right_line (egolane_image acc))
                      (right_line (egolane_ground acc));
        Ok {| egolane_image :=
                {| left_line := left_line (egolane_image acc);
                   right_line := ri |};
              egolane_ground :=
                {| left_line := left_line (egolane_ground acc);
                   right_line := rg |};
              b_left_valid := b_left_valid acc;
              b_right_valid := true |}
  | OTHER_POSITION => Ok acc
  end.

Fixpoint GetEgoLane_loop (lane_objects : list LaneLine) (acc : EgoLanes)
    : outcome EgoLanes :=
  match lane_objects with
  | [] => Ok acc
  | lane :: rest => acc' ← GetEgoLane_step acc lane; GetEgoLane_loop rest acc'
  end.

Definition GetEgoLane (lane_objects : list LaneLine) (acc : EgoLanes)
    : outcome (bool * EgoLanes) :=
  acc' ← GetEgoLane_loop lane_objects acc; Ok (true, acc').

(** ** Virtual lanes *)

Definition MakeVirtualLane (self : Cipv) (ref_lane_line : LaneLineSimple)
    (yaw_rate offset_distance : Q) : bool * LaneLineSimple :=
  (true,
   if b_image_based_cipv_ self then []
   else map (fun pt : Point2Df => (fst pt, snd pt + offset_distance))
            ref_lane_line).

(** The [bool] result is returned as a [float]; [x] and [y] are the
    out-parameters. *)
Definition VehicleDynamics (tick : Z) (yaw_rate velocity time_unit : Q)
    : Q * (Q * Q) :=
  (1, (time_unit * velocity, 0)).

(** The values of [i] in [for (i = start; i < stop; i += step)]. *)
Fixpoint loop_indices (fuel : nat) (i stop step : Z) : list Z :=
  match fuel with
  | O => []
  | S fuel' =>
      if (i <? stop)%Z then i :: loop_indices fuel' (i + step)%Z stop step
      else []
  end.

Definition MakeVirtualEgoLaneFromYawRate (self : Cipv)
    (yaw_rate velocity offset_distance : Q)
    : bool * (LaneLineSimple * LaneLineSimple) :=
  (true,
   if b_image_based_cipv_ self then ([], [])
   else
     fold_left
       (fun (acc : LaneLineSimple * LaneLineSimple) (i : Z) =>
          let '(_, (x, y)) :=
            VehicleDynamics i yaw_rate velocity (time_unit_ self) in
          (fst acc ++ [(x, y + offset_distance)],
           snd acc ++ [(x, y - offset_distance)]))
       (loop_indices 120 0 120 5) ([], [])).

(** ** [Cipv::ElongateEgoLane]

    Only the ground lane is written; the result is the flag and the ground
    lane after the call. *)
Definition ElongateEgoLane (self : Cipv) (lane_objects : list LaneLine)
    (b_left_valid b_right_valid : bool) (yaw_rate velocity : Q)
    (egolane_image egolane_ground : EgoLane) : outcome (bool * EgoLane) :=
  let offset_distance := EGO_CAR_HALF_VIRTUAL_LANE K in
  if b_left_valid && b_right_valid then Ok (true, egolane_ground)
  else if negb b_left_valid && b_right_valid then
    p0 ← at_index (right_line egolane_ground) 0;
    let offset_distance :=
      - (fabs (snd p0) + EGO_CAR_HALF_VIRTUAL_LANE K) in
    let '(_, l) :=
      MakeVirtualLane self (right_line egolane_ground) yaw_rate
        offset_distance in
    Ok (true, {| left_line := l; right_line := right_line egolane_ground |})
  else if b_left_valid && negb b_right_valid then
    p0 ← at_index (left_line egolane_ground) 0;
    let offset_distance :=
      fabs (snd p0) + EGO_CAR_HALF_VIRTUAL_LANE K in
    let '(_, r) :=
      MakeVirtualLane self (left_line egolane_ground) yaw_rate
        offset_distance in
    Ok (true, {| left_line := left_line egolane_ground; right_line := r |})
  else
    let '(_, (l, r)) :=
      MakeVirtualEgoLaneFromYawRate self yaw_rate velocity offset_distance in
    Ok (true, {| left_line := l; right_line := r |}).

(** ** [Cipv::FindClosestEdgeOfObjectGround] *)

(** The scan for the two corners of smallest [x]. *)
Record ClosestScan : Type := {
  closest_x : Q;
  second_closest_x : Q;
  closest_index : Z;
  second_closest_index : Z
}.

Definition closest_scan_init : ClosestScan :=
  {| closest_x := MAX_FLOAT K;
     second_closest_x := MAX_FLOAT K - 1;
     closest_index := -1;
     second_closest_index := -1 |}.

Definition closest_scan_step (s : ClosestScan) (i : Z) (pi : Point2Df)
    : ClosestScan :=
  if Qleb (fst pi) (closest_x s) then
    {| closest_x := fst pi;
       second_closest_x := closest_x s;
       closest_index := i;
       second_closest_index := closest_index s |}
  else if Qleb (fst pi) (second_closest_x s) then
    {| closest_x := closest_x s;
       second_closest_x := fst pi;
       closest_index := closest_index s;
       second_closest_index := i |}
  else s.

Fixpoint closest_scan_loop (p : list Point2Df) (i : Z) (s : ClosestScan)
    : ClosestScan :=
  match p with
  | [] => s
  | pi :: rest => closest_scan_loop rest (i + 1)%Z (closest_scan_step s i pi)
  end.

Definition closest_scan (p : list Point2Df) : ClosestScan :=
  closest_scan_loop p 0 closest_scan_init.

(** The object passes the size test unless all three extents are below
    one centimetre. *)
Definition degenerate_size (object : Object) : bool :=
  let '(size_x, size_y, size_z) := size object in
  Qltb size_x (1 # 100) && Qltb size_y (1 # 100) && Qltb size_z (1 # 100).

(** The four corners [p[0..3]] of the rotated footprint.  When
    [image2ground] reports failure its result is ignored and [center_x],
    [center_y] are read uninitialised: no defined result. *)
Definition footprint_corners (self : Cipv) (object : Object)
    : outcome (list Point2Df) :=
  let '(size_x, size_y, size_z) := size object in
  let rect := box (camera_supplement object) in
  let footprint_x := rect_x rect + rect_width rect * (1 # 2) in
  let footprint_y := rect_y rect + rect_height rect in
  match image2ground self footprint_x footprint_y with
  | None => Undefined
  | Some (center_x, center_y) =>
      let '(pos0, pos1, pos2) := local_center (camera_supplement object) in
      let theta_ray := atan2 M pos0 pos2 in
      let theta := alpha (camera_supplement object) + theta_ray in
      let theta :=
        if Qltb (M_PI_2 M) theta then theta - M_PI_2 M else theta in
      let x1 := size_x * (1 # 2) in
      let x2 := - x1 in
      let y1 := size_y * (1 # 2) in
      let y2 := - y1 in
      let cos_theta := cos M theta in
      let sin_theta := sin M theta in
      Ok [ (x2 * cos_theta + y1 * sin_theta + center_x,
            y1 * cos_theta - x2 * sin_theta + center_y);
           (x2 * cos_theta + y2 * sin_theta + center_x,
            y2 * cos_theta - x2 * sin_theta + center_y);
           (x1 * cos_theta + y1 * sin_theta + center_x,
            y1 * cos_theta - x1 * sin_theta + center_y);
           (x1 * cos_theta + y2 * sin_theta + center_x,
            y2 * cos_theta - x1 * sin_theta + center_y) ]
  end.

(** The edge written from the two chosen corners: the one of larger [y]
    is the start. *)
Definition near_face (pc ps : Point2Df) : LineSegment2Df :=
  if Qleb (snd ps) (snd pc)
  then {| start_point := pc; end_point := ps |}
  else {| start_point := ps; end_point := pc |}.

(** The result is the returned flag and the value of
    [*closted_object_edge] at the return; [edge0] is its value at the
    call. *)
Definition FindClosestEdgeOfObjectGround (self : Cipv) (object : Object)
    (egolane_ground : EgoLane) (edge0 : LineSegment2Df)
    : outcome (bool * LineSegment2Df) :=
  if degenerate_size object then Ok (false, edge0)
  else
    p ← footprint_corners self object;
    let s := closest_scan p in
    pc ← at_index p (closest_index s);
    ps ← at_index p (second_closest_index s);
    let edge := near_face pc ps in
    if Qltb (fst pc) 0 then Ok (false, edge) else Ok (true, edge).

(** ** Distances and sides *)

(** Modelled from the spec: [common::math::LineSegment2d] is declared in
    [modules/common/math/line_segment2d.h], which is not among the sources.
    The spec describes the distance from a point to a segment as the
    perpendicular distance clamped to the end points. *)
Definition hypot (x y : Q) : Q := sqrt M (x * x + y * y).

Definition segment_length_sqr (s e : Point2Df) : Q :=
  let len := hypot (fst e - fst s) (snd e - snd s) in len * len.

Definition segment_DistanceTo (s e p : Point2Df) : Q :=
  let len := hypot (fst e - fst s) (snd e - snd s) in
  let ux := (fst e - fst s) / len in
  let uy := (snd e - snd s) / len in
  let x0 := fst p - fst s in
  let y0 := snd p - snd s in
  let proj := x0 * ux + y0 * uy in
  if Qleb proj 0 then hypot x0 y0
  else if Qleb len proj then hypot (fst p - fst e) (snd p - snd e)
  else fabs (x0 * uy - y0 * ux).

(** [Some d] when [true] is returned with [*distance = d]. *)
Definition DistanceFromPointToLineSegment (point line_seg_start_point
    line_seg_end_point : Point2Df) : option Q :=
  if Qleb (segment_length_sqr line_seg_start_point line_seg_end_point)
          (B_FLT_EPSILON K)
  then None
  else Some (segment_DistanceTo line_seg_start_point line_seg_end_point point).

Definition AreDistancesSane
    (distance_start_point_to_right_lane distance_start_point_to_left_lane
     distance_end_point_to_right_lane distance_end_point_to_left_lane : Q)
    : bool :=
  if Qltb (MAX_DIST_OBJECT_TO_LANE_METER K) distance_start_point_to_right_lane
  then false
  else if Qltb (MAX_DIST_OBJECT_TO_LANE_METER K)
               distance_start_point_to_left_lane
  then false
  else if Qltb (MAX_DIST_OBJECT_TO_LANE_METER K)
               distance_end_point_to_right_lane
  then false
  else if Qltb (MAX_DIST_OBJECT_TO_LANE_METER K)
               distance_end_point_to_left_lane
  then false
  else if Qltb (MAX_VEHICLE_WIDTH_METER K)
               (fabs (distance_start_point_to_right_lane
                      - distance_end_point_to_right_lane))
  then false
  else if Qltb (MAX_VEHICLE_WIDTH_METER K)
               (fabs (distance_end_point_to_left_lane
                      - distance_start_point_to_left_lane))
  then false
  else true.

Definition IsPointLeftOfLine (point line_seg_start_point line_seg_end_point
    : Point2Df) : bool :=
  let cross_product :=
    (fst line_seg_end_point - fst line_seg_start_point)
    * (snd point - snd line_seg_start_point)
    - (snd line_seg_end_point - snd line_seg_start_point)
      * (fst point - fst line_seg_start_point) in
  Qltb 0 cross_product.

(** The search for the segment [i], [i + 1] of a lane line closest to a
    point: [closest_index] and [shortest_distance] after the loop. *)
Fixpoint closest_segment_loop (point : Point2Df) (line : list Point2Df)
    (i : Z) (closest_index : Z) (shortest_distance : Q) : Z * Q :=
  match line with
  | a :: ((b :: _) as rest) =>
      match DistanceFromPointToLineSegment point a b with
      | Some distance =>
          if Qltb distance shortest_distance
          then closest_segment_loop point rest (i + 1)%Z i distance
          else closest_segment_loop point rest (i + 1)%Z closest_index
                 shortest_distance
      | None =>
          closest_segment_loop point rest (i + 1)%Z closest_index
            shortest_distance
      end
  | _ => (closest_index, shortest_distance)
  end.

Definition closest_segment (point : Point2Df) (line : list Point2Df) : Z * Q :=
  closest_segment_loop point line 0 (-1) (MAX_FLOAT K).

(** The value of the uninitialised local [closted_object_edge]; it is
    overwritten before it is read. *)
Definition unset_edge : LineSegment2Df :=
  {| start_point := (0, 0); end_point := (0, 0) |}.

(** ** [Cipv::IsObjectInTheLaneGround] *)
Definition IsObjectInTheLaneGround (self : Cipv) (object : Object)
    (egolane_ground : EgoLane) : outcome bool :=
  let shortest_distance_start_point_to_right_lane := 0 in
  let shortest_distance_start_point_to_left_lane := 0 in
  let shortest_distance_end_point_to_right_lane := 0 in
  let shortest_distance_end_point_to_left_lane := 0 in
  '(b_valid_object, closted_object_edge) ←
    FindClosestEdgeOfObjectGround self object egolane_ground unset_edge;
  if negb b_valid_object then Ok false
  else if (Z.of_nat (length (left_line egolane_ground)) <=? 1)%Z then Ok false
  else
    let '(closest_index, _) :=
      closest_segment (end_point closted_object_edge)
        (left_line egolane_ground) in
    b_left_lane_clear ←
      (if (0 <=? closest_index)%Z then
         a ← at_index (left_line egolane_ground) closest_index;
         b ← at_index (left_line egolane_ground) (closest_index + 1);
         Ok (negb (IsPointLeftOfLine (end_point closted_object_edge) a b))
       else Ok false);
    if (Z.of_nat (length (right_line egolane_ground)) <=? 1)%Z then Ok false
    else
      let '(closest_index, _) :=
        closest_segment (start_point closted_object_edge)
          (right_line egolane_ground) in
      b_right_lane_clear ←
        (if (0 <=? closest_index)%Z then
           a ← at_index (right_line egolane_ground) closest_index;
           b ← at_index (right_line egolane_ground) (closest_index + 1);
           Ok (IsPointLeftOfLine (start_point closted_object_edge) a b)
         else Ok false);
      if AreDistancesSane shortest_distance_start_point_to_right_lane
           shortest_distance_start_point_to_left_lane
           shortest_distance_end_point_to_right_lane
           shortest_distance_end_point_to_left_lane
      then Ok (b_left_lane_clear && b_right_lane_clear)
      else Ok false.

Definition IsObjectInTheLaneImage (object : Object) (egolane_image : EgoLane)
    : bool := true.

Definition IsObjectInTheLane (self : Cipv) (object : Object)
    (egolane_image egolane_ground : EgoLane) : outcome bool :=
  if b_image_based_cipv_ self
  then Ok (IsObjectInTheLaneImage object egolane_image)
  else IsObjectInTheLaneGround self object egolane_ground.

(** ** [Cipv::DetermineCipv] *)

(** [center[0]], the forward coordinate of the ground centre. *)
Definition center_0 (o : Object) : Q := fst (fst (center o)).

(** One pass of the selection loop; the accumulator is
    [(cipv_index, cipv_track_id)]. *)
Definition DetermineCipv_step (self : Cipv) (egolane_image egolane_ground
    : EgoLane) (objects : list Object) (acc : Z * Z) (i : Z)
    : outcome (Z * Z) :=
  let '(cipv_index, cipv_track_id) := acc in
  obj ← at_index objects i;
  in_lane ← IsObjectInTheLane self obj egolane_image egolane_ground;
  if (in_lane : bool) then
    if (cipv_index <? 0)%Z then Ok (i, track_id obj)
    else
      cur ← at_index objects cipv_index;
      if Qltb (center_0 obj) (center_0 cur) then Ok (i, track_id obj)
      else Ok acc
  else Ok acc.

Fixpoint DetermineCipv_loop (self : Cipv) (egolane_image egolane_ground
    : EgoLane) (objects : list Object) (indices : list Z) (acc : Z * Z)
    : outcome (Z * Z) :=
  match indices with
  | [] => Ok acc
  | i :: rest =>
      acc' ← DetermineCipv_step self egolane_image egolane_ground objects
               acc i;
      DetermineCipv_loop self egolane_image egolane_ground objects rest acc'
  end.

(** The assignment [objects[i]->b_cipv = b]. *)
Definition assign_b_cipv (objects : list Object) (i : Z) (b : bool)
    : outcome (list Object) :=
  o ← at_index objects i;
  Ok (<[Z.to_nat i := set_b_cipv o b]> objects).

Definition no_ego_lanes : EgoLanes :=
  {| egolane_image := {| left_line := []; right_line := [] |};
     egolane_ground := {| left_line := []; right_line := [] |};
     b_left_valid := false;
     b_right_valid := false |}.

(** The result is the flag, the engine (its static [old_cipv_index]
    updated) and the object list after the call. *)
Definition DetermineCipv (self : Cipv) (lane_objects : list LaneLine)
    (options : CipvOptions) (objects : list Object)
    : outcome (bool * Cipv * list Object) :=
  '(_, lanes) ← GetEgoLane lane_objects no_ego_lanes;
  '(_, ground) ←
    ElongateEgoLane self lane_objects (b_left_valid lanes)
      (b_right_valid lanes) (yaw_rate options) (velocity options)
      (egolane_image lanes) (egolane_ground lanes);
  let n := to_int32 (Z.of_nat (length objects)) in
  '(cipv_index, cipv_track_id) ←
    DetermineCipv_loop self (egolane_image lanes) ground objects
      (map Z.of_nat (seq 0 (Z.to_nat n))) ((-1)%Z, (-1)%Z);
  objects' ←
    (if (0 <=? cipv_index)%Z then
       cleared ←
         (if (0 <=? old_cipv_index self)%Z
             && negb (old_cipv_index self =? cipv_index)%Z
          then assign_b_cipv objects (old_cipv_index self) false
          else Ok objects);
       assign_b_cipv cleared cipv_index true
     else Ok objects);
  Ok (true, set_old_cipv_index self cipv_index, objects').

(** ** [Cipv::TranformPoint]

    [Some out] when [true] is returned. *)
Definition TranformPoint (p : Vector4f) (motion_matrix : Matrix4f)
    : option Vector3d :=
  let '(t0, t1, t2, t3) := mat4_vec motion_matrix p in
  if Qltb (fabs t3) (EPSILON K) then None
  else Some (t0 / t3, t1 / t3, t2 / t3).

(** ** [Cipv::CollectDrops] *)

(** The reprojection loop
    [for (it = size - 1, count = 0; it > 0; it--, count++)] over one
    history.  [it] and [count] are [std::size_t], and so is the index
    [motion_size - count - 1].  The transformed point is not stored by the
    source; the loop is modelled by the list of its reads.  The loop makes
    fewer passes than the history has points, which bounds [fuel]. *)
Fixpoint drops_loop (fuel : nat) (history : list (Q * Q))
    (motion_buffer : list VehicleStatus) (motion_size : Z) (it count : Z)
    : list DropRead :=
  match fuel with
  | O => []
  | S fuel' =>
      if (0 <? it)%Z then
        if (DROPS_HISTORY_SIZE K <=? count)%Z
           || (Z.of_nat (length motion_buffer) <? count)%Z
        then []
        else
          let pt := at_index history it in
          let idx := to_size_t (motion_size - count - 1) in
          {| motion_index := idx;
             history_point := pt;
             transformed_pt :=
               '(px, py) ← pt;
               status ← at_index motion_buffer idx;
               Ok (TranformPoint (px, py, 0, 1) (motion status)) |}
          :: drops_loop fuel' history motion_buffer motion_size
               (to_size_t (it - 1)) (to_size_t (count + 1))
      else []
  end.

(** The body of the loop over the objects of the frame.  [operator[]] on
    the history map creates an empty buffer for a new id. *)
Definition CollectDrops_object (motion_buffer : list VehicleStatus)
    (motion_size : Z)
    (acc : gmap Z circular_buffer * gmap Z Z * list DropRead) (obj : Object)
    : gmap Z circular_buffer * gmap Z Z * list DropRead :=
  let '(trajectories, skip_count, reads) := acc in
  let cur_id := track_id obj in
  let buffer := default cb_empty (trajectories !! cur_id) in
  let buffer :=
    if (cb_size buffer =? 0)%Z
    then cb_set_capacity (DROPS_HISTORY_SIZE K) buffer else buffer in
  let skip_count := <[cur_id := 0%Z]> skip_count in
  let buffer :=
    cb_push_back (fst (fst (center obj)), snd (fst (center obj))) buffer in
  let trajectories := <[cur_id := buffer]> trajectories in
  (trajectories, skip_count,
   reads ++ drops_loop (S (length (items buffer))) (items buffer)
              motion_buffer motion_size (to_size_t (cb_size buffer - 1)) 0).

(** A pass of the reprojection loop whose reads are inside the history
    and inside the motion buffer; [operator[]] outside the buffer has no
    defined behaviour. *)
Definition read_defined (r : DropRead) : bool :=
  match transformed_pt r with
  | Ok _ => true
  | Undefined => false
  end.

(** The body of the range-for over the history map.  The map is modified
    nowhere but at [erase]: [operator[]] is applied to the key the iterator
    stands on, and the increment of the counter touches the other map.
    [erase(obj_id)] removes the element the iterator stands on, and the
    range-for then increments that iterator, which [std::map::erase] has
    invalidated: the call has no defined result from there. *)
Definition CollectDrops_evict (objects : list Object)
    (acc : gmap Z circular_buffer * gmap Z Z) (obj_id : Z)
    : outcome (gmap Z circular_buffer * gmap Z Z) :=
  let '(trajectories, skip_count) := acc in
  let b_found_id := existsb (fun obj => (obj_id =? track_id obj)%Z) objects in
  if negb b_found_id
     && (0 <? cb_size (default cb_empty (trajectories !! obj_id)))%Z
  then
    let n := to_size_t (default 0%Z (skip_count !! obj_id) + 1) in
    let skip_count := <[obj_id := n]> skip_count in
    if (MAX_ALLOWED_SKIP_OBJECT K <=? n)%Z
    then Undefined
    else Ok (trajectories, skip_count)
  else Ok acc.

Fixpoint CollectDrops_evict_loop (objects : list Object) (ids : list Z)
    (acc : gmap Z circular_buffer * gmap Z Z)
    : outcome (gmap Z circular_buffer * gmap Z Z) :=
  match ids with
  | [] => Ok acc
  | obj_id :: rest =>
      acc' ← CollectDrops_evict objects acc obj_id;
      CollectDrops_evict_loop objects rest acc'
  end.

(** The ids a range-for over the [std::map] visits when no element is
    erased under it: the keys at the entry of the loop, in increasing
    order, each once. *)
Definition tracked_ids (trajectories : gmap Z circular_buffer) : list Z :=
  merge_sort Z.le (elements (dom trajectories)).

(** The result is the outcome of the call, which is the flag and the
    engine after it, and the passes of the reprojection loops in the order
    the source makes them.  The call has no defined result when a pass
    reads outside the motion buffer or when the second loop erases. *)
Definition CollectDrops (self : Cipv) (motion_buffer : list VehicleStatus)
    (objects : list Object) : outcome (bool * Cipv) * list DropRead :=
  let motion_size := to_int32 (Z.of_nat (length motion_buffer)) in
  if (motion_size <=? 0)%Z then (Ok (false, self), [])
  else
    let '(trajectories, skip_count, reads) :=
      fold_left (CollectDrops_object motion_buffer motion_size) objects
        (object_trackjectories_ self, object_id_skip_count_ self, []) in
    (if forallb read_defined reads then
       '(trajectories, skip_count) ←
         CollectDrops_evict_loop objects (tracked_ids trajectories)
           (trajectories, skip_count);
       Ok (true, set_histories self trajectories skip_count)
     else Undefined,
     reads).

(** [CollectDrops] over successive frames, each a motion buffer and an
    object list; the engine after the last one. *)
Fixpoint run_CollectDrops (self : Cipv)
    (frames : list (list VehicleStatus * list Object)) : outcome Cipv :=
  match frames with
  | [] => Ok self
  | frame :: rest =>
      '(_, engine) ← fst (CollectDrops self (fst frame) (snd frame));
      run_CollectDrops engine rest
  end.

(** The ego lanes [DetermineCipv] builds for a frame, in image and in
    ground coordinates. *)
Definition frame_ego_lanes (self : Cipv) (lane_objects : list LaneLine)
    (options : CipvOptions) : outcome (EgoLane * EgoLane) :=
  '(_, lanes) ← GetEgoLane lane_objects no_ego_lanes;
  '(_, ground) ←
    ElongateEgoLane self lane_objects (b_left_valid lanes)
      (b_right_valid lanes) (yaw_rate options) (velocity options)
      (egolane_image lanes) (egolane_ground lanes);
  Ok (egolane_image lanes, ground).

(** An object qualifies in a frame when the lane test accepts it. *)
Definition qualifies (self : Cipv) (lane_objects : list LaneLine)
    (options : CipvOptions) (o : Object) : Prop :=
  exists image ground,
    frame_ego_lanes self lane_objects options = Ok (image, ground)
    /\ IsObjectInTheLane self o image ground = Ok true.

End Engine.

(** A motion buffer that is not empty and whose size fits the [int] it is
    cast to. *)
Definition nonempty_motion_buffer (motion_buffer : list VehicleStatus) : Prop :=
  (0 < Z.of_nat (length motion_buffer) < 2 ^ 31)%Z.

(** The track ids of the objects of a frame. *)
Definition track_ids (objects : list Object) : list Z := map track_id objects.

(** A track is live when it has a non-empty history and has been absent
    [c] frames. *)
Definition live_track (id : Z) (c : Z)
    (trajectories : gmap Z circular_buffer) (skip_count : gmap Z Z) : Prop :=
  (exists h, trajectories !! id = Some h /\ (0 < cb_size h)%Z)
  /\ skip_count !! id = Some c.

(** The object at position [j] of the list has its CIPV flag set. *)
Definition flagged (objects : list Object) (j : nat) : Prop :=
  exists o, objects !! j = Some o /\ b_cipv o = true.

Definition at_most_one_cipv (objects : list Object) : Prop :=
  forall i j, flagged objects i -> flagged objects j -> i = j.

(** Two object lists that differ at most in the CIPV flags. *)
Definition same_but_flags (objects objects' : list Object) : Prop :=
  Forall2 (fun o o' => o' = set_b_cipv o (b_cipv o')) objects objects'.

(** ** Lane lines as the lane detector delivers them *)

(** Every lane line has a ground point for each of its image points. *)
Definition aligned_lane_lines (lane_objects : list LaneLine) : Prop :=
  Forall (fun lane => (length (curve_image_point_set lane)
                       <= length (curve_car_coord_point_set lane))%nat)
    lane_objects.

Definition is_ego_left (lane : LaneLine) : bool :=
  match pos_type lane with EGO_LEFT => true | _ => false end.

Definition is_ego_right (lane : LaneLine) : bool :=
  match pos_type lane with EGO_RIGHT => true | _ => false end.

(** A lane line long enough to be accepted. *)
Definition long_enough (K : Constants) (lane : LaneLine) : bool :=
  negb (Z.of_nat (length (curve_image_point_set lane))
        <? MIN_LANE_LINE_LENGTH_FOR_CIPV_DETERMINATION K)%Z.

(** What the scan of the lane lines keeps true. *)
Definition ego_lanes_sound (K : Constants) (acc : EgoLanes) : Prop :=
  length (left_line (egolane_image acc))
  = length (left_line (egolane_ground acc))
  /\ length (right_line (egolane_image acc))
     = length (right_line (egolane_ground acc))
  /\ (b_left_valid acc = true ->
      (MIN_LANE_LINE_LENGTH_FOR_CIPV_DETERMINATION K
       <= Z.of_nat (length (left_line (egolane_ground acc))))%Z)
  /\ (b_right_valid acc = true ->
      (MIN_LANE_LINE_LENGTH_FOR_CIPV_DETERMINATION K
       <= Z.of_nat (length (right_line (egolane_ground acc))))%Z).

(** A lane line of the ego lane that is copied and has fewer ground points
    than image points. *)
Definition misaligned (K : Constants) (lane : LaneLine) : Prop :=
  is_ego_left lane || is_ego_right lane = true
  /\ long_enough K lane = true
  /\ (length (curve_car_coord_point_set lane)
      < length (curve_image_point_set lane))%nat.

(** A boundary that runs forward at the ordinate [y]: along it the
    abscissa increases and the ordinate is [y]. *)
Definition straight_boundary (line : LaneLineSimple) (y : Q) : Prop :=
  forall k a b,
    line !! k = Some a -> line !! S k = Some b ->
    snd a == y /\ snd b == y /\ fst a < fst b.

(** ** Invariants of the trajectory tracker *)

(** Every history has the capacity of the header and holds at least one
    point and at most that many. *)
Definition bounded_histories (K : Constants)
    (trajectories : gmap Z circular_buffer) : Prop :=
  forall id h,
    trajectories !! id = Some h ->
    capacity h = DROPS_HISTORY_SIZE K
    /\ (0 < cb_size h <= DROPS_HISTORY_SIZE K)%Z.

(** The history map and the counter map hold the same ids, and every
    counter is below the number of frames a track may be absent. *)
Definition maps_in_step (K : Constants)
    (trajectories : gmap Z circular_buffer) (skip_count : gmap Z Z) : Prop :=
  (forall id, is_Some (trajectories !! id) <-> is_Some (skip_count !! id))
  /\ (forall id c, skip_count !! id = Some c ->
                   (0 <= c < MAX_ALLOWED_SKIP_OBJECT K)%Z).

(** A read of the reprojection loop that stays inside the history and
    inside the motion buffer. *)
Definition read_in_range (motion_buffer : list VehicleStatus) (r : DropRead)
    : Prop :=
  (0 <= motion_index r < Z.of_nat (length motion_buffer))%Z
  /\ (exists pt, history_point r = Ok pt)
  /\ (exists out, transformed_pt r = Ok out).

(** ** [Cipv::FindClosestEdgeOfObjectImage]

    The function has no caller in the file.  [FOURTY_FIVE_DEGREE] is a
    constant of the header, a parameter here. *)

(** The heading angle [atan2(direction(1), direction(0))] the function
    tests. *)
Definition heading (M : Libm) (object : Object) : Q :=
  let '(direction_x, direction_y, _) := direction object in
  atan2 M direction_y direction_x.

(** The point the function writes for the offsets [x], [y] from the
    centre: [x * cos_theta + y * sin_theta + center_x] and
    [y * cos_theta - x * sin_theta + center_y]. *)
Definition image_corner (M : Libm) (object : Object) (x y : Q) : Point2Df :=
  let '(center_x, center_y, _) := local_center (camera_supplement object) in
  let '(direction_x, direction_y, _) := direction object in
  let len := sqrt M (direction_x * direction_x + direction_y * direction_y) in
  let cos_theta := direction_x / len in
  let sin_theta := - direction_y / len in
  (x * cos_theta + y * sin_theta + center_x,
   y * cos_theta - x * sin_theta + center_y).

(** The result is the returned flag and the value of
    [*closted_object_edge] at the return; [edge0] is its value at the
    call. *)
Definition FindClosestEdgeOfObjectImage (M : Libm) (FOURTY_FIVE_DEGREE : Q)
    (object : Object) (egolane_image : EgoLane) (edge0 : LineSegment2Df)
    : bool * LineSegment2Df :=
  let '(size_x, size_y, size_z) := size object in
  if Qltb size_x (1 # 100) && Qltb size_y (1 # 100) && Qltb size_z (1 # 100)
  then (false, edge0)
  else
    let x1 := size_x / 2 in
    let x2 := 0 - x1 in
    let y1 := size_y / 2 in
    let y2 := 0 - y1 in
    if Qleb (fabs (heading M object)) FOURTY_FIVE_DEGREE then
      (true, {| start_point := image_corner M object x2 y1;
                end_point := image_corner M object x2 y2 |})
    else if Qltb FOURTY_FIVE_DEGREE (heading M object) then
      (true, {| start_point := image_corner M object x2 y1;
                end_point := image_corner M object x2 y1 |})
    else if Qltb (heading M object) (- FOURTY_FIVE_DEGREE) then
      (true, {| start_point := image_corner M object x1 y2;
                end_point := image_corner M object x2 y2 |})
    else
      (true, {| start_point := image_corner M object x1 y1;
                end_point := image_corner M object x1 y2 |}).

(** The square of the length of a segment. *)
Definition edge_length_sqr (edge : LineSegment2Df) : Q :=
  (fst (start_point edge) - fst (end_point edge))
  * (fst (start_point edge) - fst (end_point edge))
  + (snd (start_point edge) - snd (end_point edge))
    * (snd (start_point edge) - snd (end_point edge)).

(** ** Sample data

    Concrete constants, a [<cmath>] and inputs on which the engine is run
    in the examples of the second part. *)

Definition sample_constants : Constants :=
  {| AVERAGE_FRATE_RATE := 5 # 100;
     B_FLT_EPSILON := 1 # 1000000;
     EPSILON := 1 # 1000000;
     MAX_FLOAT := inject_Z (2 ^ 128 - 2 ^ 104);
     EGO_CAR_HALF_VIRTUAL_LANE := 106 # 100;
     MAX_DIST_OBJECT_TO_LANE_METER := 70;
     MAX_VEHICLE_WIDTH_METER := 5;
     MIN_LANE_LINE_LENGTH_FOR_CIPV_DETERMINATION := 2;
     DROPS_HISTORY_SIZE := 20;
     MAX_ALLOWED_SKIP_OBJECT := 10 |}.

(** A square root that is exact on the squares of rationals; elsewhere it
    is below the root by less than one unit of the denominator. *)
Definition exact_sqrt (q : Q) : Q :=
  Z.sqrt (Qnum q * Zpos (Qden q)) # Qden q.

(** A [<cmath>] for the examples, in all of which the heading [theta] is
    zero: [cos], [sin] and [atan2] have the values they take at the angle
    zero and at [atan2(0, 1)]. *)
Definition axis_libm : Libm :=
  {| cos := fun _ => 1;
     sin := fun _ => 0;
     atan2 := fun _ _ => 0;
     sqrt := exact_sqrt;
     M_PI_2 := 355 # 226 |}.

Definition sample_homography : Matrix3d :=
  {| m00 := 2; m01 := 0; m02 := 1;
     m10 := 0; m11 := 3; m12 := 1;
     m20 := 0; m21 := 1; m22 := 1 |}.

(** Engines as [Init] leaves them, with the time unit of the header and
    with a time unit of a tenth of a second. *)
Definition sample_engine : Cipv :=
  snd (Init sample_constants fresh_engine sample_homography).

Definition tenth_engine : Cipv :=
  {| b_image_based_cipv_ := false;
     debug_level_ := 0;
     time_unit_ := 1 # 10;
     homography_im2car_ := identity3;
     homography_car2im_ := identity3;
     object_trackjectories_ := ∅;
     object_id_skip_count_ := ∅;
     old_cipv_index := -2 |}.

Definition no_lane : EgoLane := {| left_line := []; right_line := [] |}.

(** A ground lane with only a right boundary, one metre to the right. *)
Definition right_only_lane : EgoLane :=
  {| left_line := []; right_line := [(0, -1 # 1); (10, -1 # 1)] |}.

Definition identity_engine : Cipv :=
  snd (Init sample_constants fresh_engine identity3).

(** A car four metres long and two wide. [bottom_x], [bottom_y] is the
    middle of the lower side of its image box, which the identity
    homography of [identity_engine] sends to the same ground point. *)
Definition car_at (id : Z) (bottom_x bottom_y : Q) (cx : Q) (flag : bool)
    : Object :=
  {| track_id := id;
     size := (4, 2, 3 # 2);
     center := (cx, bottom_y, 0);
     direction := (1, 0, 0);
     camera_supplement :=
       {| box := {| rect_x := bottom_x - 1; rect_y := bottom_y - 1;
                    rect_width := 2; rect_height := 1 |};
          local_center := (0, 0, 1);
          alpha := 0 |};
     b_cipv := flag |}.

(** A car whose footprint is centred five metres behind the origin. *)
Definition behind_object : Object := car_at 7 (-5 # 1) 0 (-5 # 1) false.

Definition behind_corners : list Point2Df :=
  Eval vm_compute in
    match footprint_corners axis_libm identity_engine behind_object with
    | Ok p => p
    | Undefined => []
    end.

(** An edge that is none of the faces of [behind_object]. *)
Definition stale_edge : LineSegment2Df :=
  {| start_point := (100, 100); end_point := (200, 200) |}.

(** Frames for the trajectory tracker: a motion buffer and the objects
    of the frame. *)
Definition identity4 : Matrix4f :=
  ((1, 0, 0, 0), (0, 1, 0, 0), (0, 0, 1, 0), (0, 0, 0, 1)).

Definition still : VehicleStatus := {| motion := identity4 |}.

Definition lead_car : Object := car_at 7 10 0 10 false.

(** Frames in which the camera sees no object. *)
Definition empty_frames (n : nat) : list (list VehicleStatus * list Object) :=
  repeat ([still], []) n.

(** A lane two hundred metres wide: the boundaries are a hundred metres
    to the left and to the right of the ego vehicle. *)
Definition wide_lane : EgoLane :=
  {| left_line := [(0, 100); (50, 100)];
     right_line := [(0, -100 # 1); (50, -100 # 1)] |}.

(** The near face of [lead_car]. *)
Definition lead_car_edge : LineSegment2Df :=
  Eval vm_compute in
    match FindClosestEdgeOfObjectGround sample_constants axis_libm
            identity_engine lead_car wide_lane unset_edge with
    | Ok (_, edge) => edge
    | Undefined => unset_edge
    end.

(** Straight lane lines of five points from [x = 0] to [x = 50], at the
    ordinate [y]; the image points play no part in the ground test. *)
Definition straight_line (side : LaneLinePositionType) (y : Q) : LaneLine :=
  {| pos_type := side;
     curve_image_point_set := [(0, 0); (1, 0); (2, 0); (3, 0); (4, 0)];
     curve_car_coord_point_set :=
       [(0, y, 0); (25 # 2, y, 0); (25, y, 0); (75 # 2, y, 0); (50, y, 0)] |}.

(** An ego lane three and a half metres wide centred on the ordinate [y]. *)
Definition lanes_around (y : Q) : list LaneLine :=
  [straight_line EGO_LEFT (y + (175 # 100));
   straight_line EGO_RIGHT (y - (175 # 100))].

Definition cruise : CipvOptions := {| velocity := 10; yaw_rate := 0 |}.

(** Two cars ten metres ahead, one in front of the ego vehicle and one
    five metres to its left, not flagged. *)
Definition side_car : Object := car_at 8 10 5 10 false.

Definition two_cars : list Object := [lead_car; side_car].

(** The outcome of [DetermineCipv] as a value, for runs that are defined. *)
Definition run_of (r : outcome (bool * Cipv * list Object))
    : bool * Cipv * list Object :=
  match r with
  | Ok v => v
  | Undefined => (false, fresh_engine, [])
  end.

(** Three successive frames on the same two objects: the lane is around
    the first car, then a hundred metres away, then around the second. *)
Definition frame1 : bool * Cipv * list Object :=
  Eval vm_compute in
    run_of (DetermineCipv sample_constants axis_libm identity_engine
              (lanes_around 0) cruise two_cars).

Definition frame2 : bool * Cipv * list Object :=
  Eval vm_compute in
    run_of (DetermineCipv sample_constants axis_libm frame1.1.2
              (lanes_around 100) cruise frame1.2).

Definition frame3 : bool * Cipv * list Object :=
  Eval vm_compute in
    run_of (DetermineCipv sample_constants axis_libm frame2.1.2
              (lanes_around 5) cruise frame2.2).

(** The ego lanes of the first frame. *)
Definition frame1_lanes : EgoLane * EgoLane :=
  Eval vm_compute in
    match frame_ego_lanes sample_constants identity_engine (lanes_around 0)
            cruise with
    | Ok lanes => lanes
    | Undefined => (no_lane, no_lane)
    end.

(** A lane line of a single point, too short to be accepted. *)
Definition stub_line (side : LaneLinePositionType) : LaneLine :=
  {| pos_type := side;
     curve_image_point_set := [(0, 0)];
     curve_car_coord_point_set := [(0, 0, 0)] |}.

(** A ground lane with only a left boundary, two metres to the left. *)
Definition left_only_lane : EgoLane :=
  {| left_line := [(0, 2); (10, 2)]; right_line := [] |}.

(** The constants with other thresholds for the distance gate. *)
Definition with_thresholds (K : Constants) (max_dist max_width : Q)
    : Constants :=
  {| AVERAGE_FRATE_RATE := AVERAGE_FRATE_RATE K;
     B_FLT_EPSILON := B_FLT_EPSILON K;
     EPSILON := EPSILON K;
     MAX_FLOAT := MAX_FLOAT K;
     EGO_CAR_HALF_VIRTUAL_LANE := EGO_CAR_HALF_VIRTUAL_LANE K;
     MAX_DIST_OBJECT_TO_LANE_METER := max_dist;
     MAX_VEHICLE_WIDTH_METER := max_width;
     MIN_LANE_LINE_LENGTH_FOR_CIPV_DETERMINATION :=
       MIN_LANE_LINE_LENGTH_FOR_CIPV_DETERMINATION K;
     DROPS_HISTORY_SIZE := DROPS_HISTORY_SIZE K;
     MAX_ALLOWED_SKIP_OBJECT := MAX_ALLOWED_SKIP_OBJECT K |}.

(** The corners of the footprint of [lead_car]. *)
Definition lead_car_corners : list Point2Df :=
  Eval vm_compute in
    match footprint_corners axis_libm identity_engine lead_car with
    | Ok p => p
    | Undefined => []
    end.

(** The engine after a frame of six or more objects in which the sixth
    was selected. *)
Definition stale_index_engine : Cipv := set_old_cipv_index identity_engine 5.

(** The engine a defined run leaves; [fresh_engine] stands for a run that
    is not defined. *)
Definition engine_of (r : outcome Cipv) : Cipv :=
  match r with
  | Ok engine => engine
  | Undefined => fresh_engine
  end.

(** A motion buffer of nineteen entries. *)
Definition long_motion_buffer : list VehicleStatus := repeat still 19.

(** Twenty-five frames that each show [lead_car], with a motion buffer
    of nineteen entries, and the history of the car after them. *)
Definition lead_car_frames : list (list VehicleStatus * list Object) :=
  repeat (long_motion_buffer, [lead_car]) 25.

Definition lead_car_tracked : Cipv :=
  Eval vm_compute in
    engine_of
      (run_CollectDrops sample_constants identity_engine lead_car_frames).

Definition lead_car_history : circular_buffer :=
  Eval vm_compute in
    default cb_empty (object_trackjectories_ lead_car_tracked !! 7%Z).

(** The one read [CollectDrops] makes with the long buffer on a frame that
    shows [lead_car] twice. *)
Definition unread : DropRead :=
  {| motion_index := -1; history_point := Undefined;
     transformed_pt := Undefined |}.

Definition lead_car_read : DropRead :=
  Eval vm_compute in
    hd unread
      (CollectDrops sample_constants identity_engine long_motion_buffer
         [lead_car; lead_car]).2.

(** The engine after a frame that shows [lead_car] and nine frames that
    show nothing, with a motion buffer of one entry. *)
Definition absent_nine : Cipv :=
  Eval vm_compute in
    engine_of
      (run_CollectDrops sample_constants sample_engine
         (([still], [lead_car]) :: empty_frames 9)).

(** A frame that shows [lead_car], a car of the same track two metres
    further and [side_car], and the engine after it. *)
Definition three_cars : list Object :=
  [lead_car] ++ car_at 7 12 0 12 false :: [side_car].

Definition three_cars_tracked : Cipv :=
  Eval vm_compute in
    engine_of
      (run_CollectDrops sample_constants identity_engine
         [([still], three_cars)]).

(** The engine after nine further frames that show nothing. *)
Definition three_cars_absent : Cipv :=
  Eval vm_compute in
    engine_of
      (run_CollectDrops sample_constants three_cars_tracked
         (empty_frames 9)).

(** A frame in which the only lane line is too short to be accepted. *)
Definition stub_frame : bool * Cipv * list Object :=
  Eval vm_compute in
    run_of (DetermineCipv sample_constants axis_libm identity_engine
              [stub_line EGO_LEFT] cruise two_cars).

(** Other options: three times the speed, in a turn. *)
Definition swerve : CipvOptions := {| velocity := 30; yaw_rate := 1 # 10 |}.

(** A [<cmath>] for an object that faces sideways: [atan2(1, 0)]. *)
Definition side_libm : Libm :=
  {| cos := fun _ => 0;
     sin := fun _ => 1;
     atan2 := fun _ _ => 355 # 226;
     sqrt := exact_sqrt;
     M_PI_2 := 355 # 226 |}.

Definition forty_five_degree : Q := 355 # 452.

(** A car that crosses the road from right to left. *)
Definition crossing_car : Object :=
  {| track_id := 9;
     size := (4, 2, 3 # 2);
     center := (10, 0, 0);
     direction := (0, 1, 0);
     camera_supplement :=
       {| box := {| rect_x := 9; rect_y := -1; rect_width := 2;
                    rect_height := 1 |};
          local_center := (100, 50, 1);
          alpha := 0 |};
     b_cipv := false |}.

(** A lane line with two image points and one ground point. *)
Definition torn_line : LaneLine :=
  {| pos_type := EGO_RIGHT;
     curve_image_point_set := [(0, 0); (1, 0)];
     curve_car_coord_point_set := [(0, 0, 0)] |}.

(** * Properties *)

(** ** Arithmetic helpers *)

Lemma Qltb_lt (a b : Q) : Qltb a b = true <-> a < b.
Proof.
  unfold Qltb. rewrite negb_true_iff. split.
  - intros H. apply Qnot_le_lt. intros Hle.
    apply Qle_bool_iff in Hle. congruence.
  - intros H. destruct (Qle_bool b a) eqn:E; [|reflexivity].
    apply Qle_bool_iff in E. lra.
Qed.

Lemma Qltb_ge (a b : Q) : Qltb a b = false <-> b <= a.
Proof.
  unfold Qltb. rewrite negb_false_iff. apply Qle_bool_iff.
Qed.

Lemma Qleb_le (a b : Q) : Qleb a b = true <-> a <= b.
Proof. apply Qle_bool_iff. Qed.

Lemma Qleb_gt (a b : Q) : Qleb a b = false <-> b < a.
Proof.
  unfold Qleb. split.
  - intros H. apply Qnot_le_lt. intros Hle.
    apply Qle_bool_iff in Hle. congruence.
  - intros H. destruct (Qle_bool a b) eqn:E; [|reflexivity].
    apply Qle_bool_iff in E. lra.
Qed.

Lemma DBL_MIN_pos : 0 < DBL_MIN.
Proof. reflexivity. Qed.


(** ** Initialisation and the homography *)






(** ** The projective transforms *)




(** ** Lane synthesis *)

Lemma tick_schedule_length : length (loop_indices 120 0 120 5) = 24%nat.
Proof. vm_compute. reflexivity. Qed.

Lemma virtual_points_fold (yaw v tu offset : Q) (ticks : list Z)
    (l r : LaneLineSimple) :
  fold_left
    (fun (acc : LaneLineSimple * LaneLineSimple) (i : Z) =>
       let '(_, (x, y)) := VehicleDynamics i yaw v tu in
       (fst acc ++ [(x, y + offset)], snd acc ++ [(x, y - offset)]))
    ticks (l, r)
  = (l ++ repeat (tu * v, 0 + offset) (length ticks),
     r ++ repeat (tu * v, 0 - offset) (length ticks)).
Proof.
  revert l r. induction ticks as [|i ticks IH]; intros l r.
  - cbn. now rewrite !app_nil_r.
  - cbn [fold_left VehicleDynamics fst snd length repeat].
    rewrite IH. now rewrite <- !app_assoc.
Qed.

Lemma MakeVirtualEgoLaneFromYawRate_points (self : Cipv)
    (yaw v offset : Q) :
  b_image_based_cipv_ self = false ->
  snd (MakeVirtualEgoLaneFromYawRate self yaw v offset)
  = (repeat (time_unit_ self * v, 0 + offset) 24,
     repeat (time_unit_ self * v, 0 - offset) 24).
Proof.
  intros Himg. unfold MakeVirtualEgoLaneFromYawRate. rewrite Himg.
  cbn [snd]. rewrite virtual_points_fold, tick_schedule_length.
  reflexivity.
Qed.

(** C4, the code at the input of the claim: with no valid boundary, a
    velocity of 10 and a time unit of 0.1, [ElongateEgoLane] produces 24
    left and 24 right points with [y = +half] and [y = -half], but every
    one of them has [x = 0.1 * 10 = 1]: the tick is not used, so no pair has
    the abscissa [stepIndex * 0.1 * 10] of a step [0, 5, ..., 115]. *)
Theorem ElongateEgoLane_no_lanes_constant_x (K : Constants) (self : Cipv)
    (lane_objects : list LaneLine) (yaw : Q) (image ground : EgoLane) :
  b_image_based_cipv_ self = false ->
  time_unit_ self == 1 # 10 ->
  exists l r,
    ElongateEgoLane K self lane_objects false false yaw 10 image ground
    = Ok (true, {| left_line := l; right_line := r |})
    /\ length l = 24%nat /\ length r = 24%nat
    /\ Forall (fun pt => fst pt == 1
                         /\ snd pt == EGO_CAR_HALF_VIRTUAL_LANE K) l
    /\ Forall (fun pt => fst pt == 1
                         /\ snd pt == - EGO_CAR_HALF_VIRTUAL_LANE K) r
    /\ forall k : nat,
         ~ 1 == inject_Z (5 * Z.of_nat k) * (1 # 10) * 10.
Proof.
  intros Himg Htu.
  pose proof (MakeVirtualEgoLaneFromYawRate_points self yaw 10
                (EGO_CAR_HALF_VIRTUAL_LANE K) Himg) as Hpts.
  unfold ElongateEgoLane. cbn [andb negb].
  destruct (MakeVirtualEgoLaneFromYawRate self yaw 10
              (EGO_CAR_HALF_VIRTUAL_LANE K)) as [b [l r]].
  cbn [snd] in Hpts. apply pair_equal_spec in Hpts as [-> ->].
  eexists _, _. split; [reflexivity|].
  rewrite !repeat_length.
  split; [reflexivity|]. split; [reflexivity|].
  assert (Hx : time_unit_ self * 10 == 1) by (rewrite Htu; reflexivity).
  split; [|split].
  - apply List.Forall_forall. intros pt Hin. apply repeat_spec in Hin.
    subst pt. cbn [fst snd]. split; [exact Hx|ring].
  - apply List.Forall_forall. intros pt Hin. apply repeat_spec in Hin.
    subst pt. cbn [fst snd]. split; [exact Hx|ring].
  - intros k. unfold Qeq, inject_Z, Qmult. simpl Qnum. simpl Qden.
    lia.
Qed.

Lemma ElongateEgoLane_no_lanes_constant_x_witness :
  exists l r,
    ElongateEgoLane sample_constants tenth_engine [] false false 0 10
      no_lane no_lane
    = Ok (true, {| left_line := l; right_line := r |})
    /\ length l = 24%nat /\ length r = 24%nat
    /\ Forall (fun pt => fst pt == 1 /\ snd pt == 106 # 100) l
    /\ Forall (fun pt => fst pt == 1 /\ snd pt == - (106 # 100)) r
    /\ forall k : nat, ~ 1 == inject_Z (5 * Z.of_nat k) * (1 # 10) * 10.
Proof.
  apply (ElongateEgoLane_no_lanes_constant_x sample_constants tenth_engine
           [] 0 no_lane no_lane); reflexivity.
Defined.

Lemma at_index_head {A : Type} (a : A) (l : list A) :
  at_index (a :: l) 0 = Ok a.
Proof. reflexivity. Qed.

Lemma MakeVirtualLane_points (self : Cipv) (ref : LaneLineSimple)
    (yaw offset : Q) :
  b_image_based_cipv_ self = false ->
  Forall2 (fun pl pr => fst pl = fst pr /\ snd pl = snd pr + offset)
    (snd (MakeVirtualLane self ref yaw offset)) ref.
Proof.
  intros Himg. unfold MakeVirtualLane. rewrite Himg. cbn [snd].
  induction ref as [|pt ref IH]; constructor; auto.
Qed.

(** C5, as the code has it: with only the right boundary valid, at the
    constant ordinate [r], the left boundary is the right one shifted by
    [-(|r| + half)]: every synthesized point keeps the abscissa of the
    right point of the same index and has [y = r - (|r| + half)]. *)
Theorem ElongateEgoLane_right_only (K : Constants) (self : Cipv)
    (lane_objects : list LaneLine) (yaw v r : Q) (image ground : EgoLane) :
  b_image_based_cipv_ self = false ->
  right_line ground <> [] ->
  Forall (fun pt => snd pt == r) (right_line ground) ->
  exists l,
    ElongateEgoLane K self lane_objects false true yaw v image ground
    = Ok (true, {| left_line := l; right_line := right_line ground |})
    /\ Forall2
         (fun pl pr =>
            fst pl = fst pr
            /\ snd pl == r - (Qabs r + EGO_CAR_HALF_VIRTUAL_LANE K))
         l (right_line ground).
Proof.
  intros Himg Hne Hall. unfold ElongateEgoLane. cbn [andb negb].
  destruct (right_line ground) as [|p0 rest] eqn:Er; [congruence|].
  rewrite at_index_head. cbn [mbind outcome_bind].
  pose proof (MakeVirtualLane_points self (p0 :: rest) yaw
                (- (fabs (snd p0) + EGO_CAR_HALF_VIRTUAL_LANE K)) Himg) as Hpts.
  destruct (MakeVirtualLane self (p0 :: rest) yaw
              (- (fabs (snd p0) + EGO_CAR_HALF_VIRTUAL_LANE K))) as [b l].
  cbn [snd] in Hpts. exists l. split; [reflexivity|].
  assert (H0 : snd p0 == r) by (inversion Hall; assumption).
  clear Er. revert Hpts Hall. generalize (p0 :: rest) as ref.
  intros ref Hpts. induction Hpts as [|pl pr l' ref' [Hx Hy] _ IH];
    intros Hall; constructor.
  - split; [exact Hx|]. rewrite Hy. inversion Hall as [|? ? Hr _]; subst.
    unfold fabs. rewrite Hr, H0. ring.
  - apply IH. inversion Hall; assumption.
Qed.

Lemma ElongateEgoLane_right_only_witness :
  exists l,
    ElongateEgoLane sample_constants sample_engine [] false true 0 0
      no_lane right_only_lane
    = Ok (true, {| left_line := l; right_line := right_line right_only_lane |})
    /\ Forall2
         (fun pl pr =>
            fst pl = fst pr
            /\ snd pl == (-1 # 1) - (Qabs (-1 # 1) + (106 # 100)))
         l (right_line right_only_lane).
Proof.
  apply (ElongateEgoLane_right_only sample_constants sample_engine [] 0 0
           (-1 # 1) no_lane right_only_lane).
  - reflexivity.
  - discriminate.
  - repeat constructor.
Defined.

(** C5, the claim as stated fails: with the right boundary at [y = -1] the
    synthesized left points are at [y = -1 - (1 + half)], not at
    [-(1 + half)]. *)
Lemma ElongateEgoLane_left_boundary_not_mirrored :
  exists l,
    ElongateEgoLane sample_constants sample_engine [] false true 0 0
      no_lane right_only_lane
    = Ok (true, {| left_line := l; right_line := right_line right_only_lane |})
    /\ Forall (fun pl => ~ snd pl == - (Qabs (-1 # 1) + (106 # 100))) l
    /\ length l = 2%nat.
Proof.
  eexists. split; [vm_compute; reflexivity|].
  split; [|reflexivity].
  repeat constructor; vm_compute; discriminate.
Qed.

(** ** Trajectory histories *)

(** C8: with an empty motion buffer [CollectDrops] is defined, returns
    [false] and the engine as it was at the call, its history map and its
    absence counters with it, and makes no read. *)
Theorem CollectDrops_empty_motion_buffer (K : Constants) (self : Cipv)
    (objects : list Object) :
  fst (CollectDrops K self [] objects) = Ok (false, self)
  /\ snd (CollectDrops K self [] objects) = [].
Proof. split; reflexivity. Qed.

(** ** The closest edge of an object *)

Ltac case_Qleb :=
  match goal with
  | |- context [Qleb ?a ?b] =>
      lazymatch a with context [Qleb] => fail | _ => idtac end;
      lazymatch b with context [Qleb] => fail | _ => idtac end;
      let E := fresh "E" in
      destruct (Qleb a b) eqn:E;
      [apply Qleb_le in E | apply Qleb_gt in E];
      cbv beta iota delta [closest_x second_closest_x closest_index
                           second_closest_index]
  end.

(** The scan of four corners, none beyond [MAX_FLOAT], ends on the index
    of a corner of least [x] and on the index of a corner of least [x]
    among the three others. *)
Lemma closest_scan_four (K : Constants) (a b c d : Point2Df) :
  Forall (fun pt => fst pt <= MAX_FLOAT K) [a; b; c; d] ->
  exists (ci si : nat) (pc ps : Point2Df),
    closest_index (closest_scan K [a; b; c; d]) = Z.of_nat ci
    /\ second_closest_index (closest_scan K [a; b; c; d]) = Z.of_nat si
    /\ ci <> si
    /\ nth_error [a; b; c; d] ci = Some pc
    /\ nth_error [a; b; c; d] si = Some ps
    /\ (forall j q, nth_error [a; b; c; d] j = Some q -> fst pc <= fst q)
    /\ (forall j q, nth_error [a; b; c; d] j = Some q -> j <> ci ->
                    fst ps <= fst q).
Proof.
  intros Hfin.
  apply Forall_cons_iff in Hfin as [Ha Hfin].
  apply Forall_cons_iff in Hfin as [Hb Hfin].
  apply Forall_cons_iff in Hfin as [Hc Hfin].
  apply Forall_cons_iff in Hfin as [Hd _].
  destruct a as [ax ay], b as [bx by_], c as [cx cy], d as [dx dy].
  cbn [fst] in Ha, Hb, Hc, Hd.
  cbv beta iota delta [closest_scan closest_scan_loop closest_scan_step
                       closest_scan_init closest_x second_closest_x
                       closest_index second_closest_index fst].
  repeat case_Qleb; try lra;
  simpl (_ + _)%Z;
  match goal with
  | |- exists ci si pc ps, ?i = _ /\ ?j = _ /\ _ =>
      let ci := eval vm_compute in (Z.to_nat i) in
      let si := eval vm_compute in (Z.to_nat j) in
      exists ci, si
  end;
  cbn [Z.to_nat Pos.to_nat Pos.iter_op Nat.add nth_error];
  eexists _, _;
  (split; [reflexivity|]); (split; [reflexivity|]);
  (split; [discriminate|]);
  (split; [reflexivity|]); (split; [reflexivity|]);
  (split; intros [|[|[|[|j]]]] q Hq;
   cbn [nth_error] in Hq; try discriminate;
   try (destruct j; discriminate);
   try (injection Hq as <-; simpl; intros; first [lra | congruence])).
Qed.

Lemma at_index_of_nat {A : Type} (v : list A) (n : nat) (a : A) :
  nth_error v n = Some a -> at_index v (Z.of_nat n) = Ok a.
Proof.
  intros H. unfold at_index.
  assert (Hlt : (n < length v)%nat) by (apply nth_error_Some; congruence).
  destruct (Z.of_nat n <? 0)%Z eqn:E; [apply Z.ltb_lt in E; lia|].
  destruct (Z.of_nat (length v) <=? Z.of_nat n)%Z eqn:E';
    [apply Z.leb_le in E'; lia|].
  cbn [orb]. now rewrite Nat2Z.id, H.
Qed.

Lemma footprint_corners_four (M : Libm) (self : Cipv) (object : Object)
    (p : list Point2Df) :
  footprint_corners M self object = Ok p ->
  exists a b c d, p = [a; b; c; d].
Proof.
  unfold footprint_corners.
  destruct (size object) as [[sx sy] sz].
  destruct (image2ground self _ _) as [[cx cy]|]; [|discriminate].
  destruct (local_center (camera_supplement object)) as [[p0 p1] p2].
  intros [= <-]. eauto.
Qed.

Lemma near_face_ordered (pc ps : Point2Df) :
  ((start_point (near_face pc ps) = pc /\ end_point (near_face pc ps) = ps)
   \/ (start_point (near_face pc ps) = ps
       /\ end_point (near_face pc ps) = pc))
  /\ snd (end_point (near_face pc ps)) <= snd (start_point (near_face pc ps)).
Proof.
  unfold near_face.
  destruct (Qleb (snd ps) (snd pc)) eqn:E;
    [apply Qleb_le in E | apply Qleb_gt in E];
    cbn [start_point end_point].
  - split; [left; split; reflexivity | exact E].
  - split; [right; split; reflexivity | lra].
Qed.

(** An object that fails the size test leaves the out-parameter as it
    was. *)
Lemma FindClosestEdgeOfObjectGround_degenerate (K : Constants) (M : Libm)
    (self : Cipv) (object : Object) (lane : EgoLane)
    (edge0 : LineSegment2Df) :
  degenerate_size object = true ->
  FindClosestEdgeOfObjectGround K M self object lane edge0
  = Ok (false, edge0).
Proof.
  intros H. unfold FindClosestEdgeOfObjectGround. now rewrite H.
Qed.

(** C10: an object that passes the size test and has a footprint corner
    with negative [x] makes [FindClosestEdgeOfObjectGround] return [false],
    and at that return the out-parameter holds, whatever it held at the
    call, the near face: the segment between a corner [pc] of least [x],
    which is negative, and a corner [ps] of least [x] among the others,
    starting at the one of larger [y]. *)
Theorem FindClosestEdgeOfObjectGround_behind (K : Constants) (M : Libm)
    (self : Cipv) (object : Object) (lane : EgoLane)
    (edge0 : LineSegment2Df) (p : list Point2Df) :
  degenerate_size object = false ->
  footprint_corners M self object = Ok p ->
  Forall (fun pt => fst pt <= MAX_FLOAT K) p ->
  Exists (fun pt => fst pt < 0) p ->
  exists (ci si : nat) (pc ps : Point2Df) (edge : LineSegment2Df),
    FindClosestEdgeOfObjectGround K M self object lane edge0
    = Ok (false, edge)
    /\ ci <> si
    /\ nth_error p ci = Some pc
    /\ nth_error p si = Some ps
    /\ (forall j q, nth_error p j = Some q -> fst pc <= fst q)
    /\ (forall j q, nth_error p j = Some q -> j <> ci -> fst ps <= fst q)
    /\ fst pc < 0
    /\ ((start_point edge = pc /\ end_point edge = ps)
        \/ (start_point edge = ps /\ end_point edge = pc))
    /\ snd (end_point edge) <= snd (start_point edge).
Proof.
  intros Hsize Hp Hfin Hneg.
  destruct (footprint_corners_four M self object p Hp)
    as (a & b & c & d & ->).
  destruct (closest_scan_four K a b c d Hfin)
    as (ci & si & pc & ps & Hci & Hsi & Hne & Hpc & Hps & Hmin & Hsnd).
  assert (Hpcneg : fst pc < 0).
  { apply List.Exists_exists in Hneg. destruct Hneg as (q & Hin & Hq).
    apply In_nth_error in Hin. destruct Hin as [j Hj].
    specialize (Hmin j q Hj). lra. }
  exists ci, si, pc, ps, (near_face pc ps).
  split.
  - unfold FindClosestEdgeOfObjectGround. rewrite Hsize, Hp.
    cbn [mbind outcome_bind]. rewrite Hci, Hsi.
    rewrite (at_index_of_nat _ _ _ Hpc), (at_index_of_nat _ _ _ Hps).
    cbn [mbind outcome_bind].
    apply Qltb_lt in Hpcneg. now rewrite Hpcneg.
  - destruct (near_face_ordered pc ps) as [Hends Hord]. auto 10.
Qed.

Lemma FindClosestEdgeOfObjectGround_behind_witness :
  exists (ci si : nat) (pc ps : Point2Df) (edge : LineSegment2Df),
    FindClosestEdgeOfObjectGround sample_constants axis_libm identity_engine
      behind_object no_lane stale_edge
    = Ok (false, edge)
    /\ ci <> si
    /\ nth_error behind_corners ci = Some pc
    /\ nth_error behind_corners si = Some ps
    /\ (forall j q, nth_error behind_corners j = Some q -> fst pc <= fst q)
    /\ (forall j q, nth_error behind_corners j = Some q -> j <> ci ->
                    fst ps <= fst q)
    /\ fst pc < 0
    /\ ((start_point edge = pc /\ end_point edge = ps)
        \/ (start_point edge = ps /\ end_point edge = pc))
    /\ snd (end_point edge) <= snd (start_point edge).
Proof.
  apply (FindClosestEdgeOfObjectGround_behind sample_constants axis_libm
           identity_engine behind_object no_lane stale_edge behind_corners).
  - vm_compute. reflexivity.
  - vm_compute. reflexivity.
  - unfold behind_corners. repeat constructor; vm_compute; discriminate.
  - unfold behind_corners. apply Exists_cons_hd. vm_compute. reflexivity.
Defined.

(** ** The reprojection loop *)

Lemma drops_loop_past_the_buffer (K : Constants) (history : list (Q * Q))
    (motion_buffer : list VehicleStatus) (fuel : nat) (count : Z) :
  let m := Z.of_nat (length motion_buffer) in
  let n := Z.of_nat (length history) in
  (m < DROPS_HISTORY_SIZE K)%Z ->
  (m + 2 <= n < 2 ^ 64)%Z ->
  (0 <= count <= m)%Z ->
  (m - count < Z.of_nat fuel)%Z ->
  In (2 ^ 64 - 1)%Z
     (map motion_index
        (drops_loop K fuel history motion_buffer m (n - 1 - count) count)).
Proof.
  intros m n Hm Hn. revert count.
  induction fuel as [|fuel IH]; intros count Hcount Hfuel; [lia|].
  cbn [drops_loop].
  destruct (Z.ltb_spec 0 (n - 1 - count)) as [_|Hit]; [|lia].
  destruct (Z.leb_spec (DROPS_HISTORY_SIZE K) count) as [Hc|_]; [lia|].
  fold m.
  destruct (Z.ltb_spec m count) as [Hc|_]; [lia|].
  cbn [orb map motion_index].
  destruct (Z.eq_dec count m) as [->|Hne].
  - left. unfold to_size_t.
    replace (m - m - 1)%Z with (-1)%Z by lia. reflexivity.
  - right.
    replace (to_size_t (n - 1 - count - 1)) with (n - 1 - (count + 1))%Z
      by (unfold to_size_t; rewrite Z.mod_small; lia).
    replace (to_size_t (count + 1)) with (count + 1)%Z
      by (unfold to_size_t; rewrite Z.mod_small; lia).
    apply IH; lia.
Qed.

(** Whenever the motion buffer is shorter than the history capacity and
    the history of a track has at least two points more than the buffer
    has entries, the reprojection loop reads the buffer at
    [(size_t)(-1)]. *)
Lemma drops_loop_reads_outside (K : Constants) (history : list (Q * Q))
    (motion_buffer : list VehicleStatus) :
  (Z.of_nat (length motion_buffer) < DROPS_HISTORY_SIZE K)%Z ->
  (Z.of_nat (length motion_buffer) + 2 <= Z.of_nat (length history)
   < 2 ^ 64)%Z ->
  In (2 ^ 64 - 1)%Z
     (map motion_index
        (drops_loop K (S (length history)) history motion_buffer
           (Z.of_nat (length motion_buffer))
           (to_size_t (Z.of_nat (length history) - 1)) 0)).
Proof.
  intros Hm Hn.
  replace (to_size_t (Z.of_nat (length history) - 1))
    with (Z.of_nat (length history) - 1 - 0)%Z
    by (unfold to_size_t; rewrite Z.mod_small; lia).
  apply drops_loop_past_the_buffer; lia.
Qed.

(** C3, the code at an input that breaks the claim: a track seen in three
    successive frames, with a motion buffer of one entry each time.  On
    the third call the history has three points; the loop reads the buffer
    at index 0 and then, with [count = 1 = motion_buffer->size()], which
    the test [count > motion_buffer->size()] lets through, at index
    [1 - 1 - 1], that is [2^64 - 1] as a [std::size_t]: outside the
    buffer.  The two calls before it are defined; this one is not. *)
Theorem CollectDrops_motion_index_out_of_bounds :
  exists seen_twice,
    run_CollectDrops sample_constants sample_engine
      [([still], [lead_car]); ([still], [lead_car])] = Ok seen_twice
    /\ let reads :=
         snd (CollectDrops sample_constants seen_twice [still] [lead_car]) in
       map motion_index reads = [0; 2 ^ 64 - 1]%Z
       /\ map transformed_pt reads
          = [Ok (Some (10 # 1, 0 # 1, 0 # 1)); Undefined]
       /\ ~ Forall (fun i => 0 <= i <= Z.of_nat (length [still]) - 1)%Z
              (map motion_index reads)
       /\ fst (CollectDrops sample_constants seen_twice [still] [lead_car])
          = Undefined.
Proof.
  eexists. split; [vm_compute; reflexivity|].
  vm_compute. split; [reflexivity|]. split; [reflexivity|].
  split; [|reflexivity].
  intros H. inversion H as [|? ? _ H']. inversion H' as [|? ? [_ Hle] _].
  apply Hle. reflexivity.
Qed.

(** ** Eviction of absent tracks *)

Lemma to_int32_small (z : Z) : (0 <= z < 2 ^ 31)%Z -> to_int32 z = z.
Proof.
  intros H. unfold to_int32.
  rewrite Z.mod_small; lia.
Qed.

Lemma cb_push_back_nonempty (K : Constants) (pt : Q * Q)
    (b : circular_buffer) :
  (0 < DROPS_HISTORY_SIZE K)%Z ->
  (0 < cb_size
         (cb_push_back pt
            (if (cb_size b =? 0)%Z
             then cb_set_capacity (DROPS_HISTORY_SIZE K) b else b)))%Z.
Proof.
  intros history_size_pos.
  destruct b as [cap its]. unfold cb_size at 2. cbn [items].
  destruct its as [|x its].
  - change (Z.of_nat (length []) =? 0)%Z with true. cbv iota.
    unfold cb_set_capacity, cb_push_back, cb_size.
    rewrite firstn_nil. cbn [capacity items length].
    destruct (DROPS_HISTORY_SIZE K <=? 0)%Z eqn:E;
      [apply Z.leb_le in E; lia|].
    destruct (Z.of_nat 0 <? DROPS_HISTORY_SIZE K)%Z eqn:E';
      [|apply Z.ltb_ge in E'; lia].
    cbn. lia.
  - change (Z.of_nat (length (x :: its)) =? 0)%Z with false. cbv iota.
    unfold cb_push_back, cb_size. cbn [capacity items].
    destruct (cap <=? 0)%Z; [cbn [items length]; lia|].
    destruct (_ <? cap)%Z; cbn [items]; rewrite length_app;
      cbn [length]; lia.
Qed.

Lemma CollectDrops_object_other (K : Constants)
    (motion_buffer : list VehicleStatus)
    (motion_size id : Z) (t : gmap Z circular_buffer) (s : gmap Z Z)
    (r : list DropRead) (obj : Object) :
  track_id obj <> id ->
  (CollectDrops_object K motion_buffer motion_size (t, s, r) obj).1.1 !! id
  = t !! id
  /\ (CollectDrops_object K motion_buffer motion_size (t, s, r) obj).1.2 !! id
     = s !! id.
Proof.
  intros Hne. unfold CollectDrops_object. cbn [fst snd].
  split; now rewrite lookup_insert_ne.
Qed.

Lemma CollectDrops_object_same (K : Constants)
    (motion_buffer : list VehicleStatus)
    (motion_size : Z) (t : gmap Z circular_buffer) (s : gmap Z Z)
    (r : list DropRead) (obj : Object) :
  (0 < DROPS_HISTORY_SIZE K)%Z ->
  live_track (track_id obj) 0
    (CollectDrops_object K motion_buffer motion_size (t, s, r) obj).1.1
    (CollectDrops_object K motion_buffer motion_size (t, s, r) obj).1.2.
Proof.
  intros Hpos. unfold CollectDrops_object, live_track. cbn [fst snd].
  rewrite !lookup_insert_eq. split; [|reflexivity].
  eexists. split; [reflexivity|]. now apply cb_push_back_nonempty.
Qed.

Lemma CollectDrops_objects_absent (K : Constants)
    (motion_buffer : list VehicleStatus)
    (motion_size id : Z) (objects : list Object)
    (acc : gmap Z circular_buffer * gmap Z Z * list DropRead) :
  id ∉ track_ids objects ->
  (fold_left (CollectDrops_object K motion_buffer motion_size) objects acc).1.1
    !! id = acc.1.1 !! id
  /\ (fold_left (CollectDrops_object K motion_buffer motion_size) objects
        acc).1.2 !! id = acc.1.2 !! id.
Proof.
  revert acc. induction objects as [|obj objects IH]; intros acc Hid.
  - split; reflexivity.
  - cbn [fold_left]. unfold track_ids in Hid. cbn [map] in Hid.
    apply not_elem_of_cons in Hid as [Hne Hid].
    destruct (IH (CollectDrops_object K motion_buffer motion_size acc obj)
                Hid) as [Ht Hs].
    rewrite Ht, Hs. destruct acc as [[t s] r].
    apply CollectDrops_object_other. congruence.
Qed.

Lemma CollectDrops_objects_present (K : Constants)
    (motion_buffer : list VehicleStatus)
    (motion_size id : Z) (objects : list Object)
    (acc : gmap Z circular_buffer * gmap Z Z * list DropRead) :
  (0 < DROPS_HISTORY_SIZE K)%Z ->
  id ∈ track_ids objects \/ live_track id 0 acc.1.1 acc.1.2 ->
  live_track id 0
    (fold_left (CollectDrops_object K motion_buffer motion_size) objects
       acc).1.1
    (fold_left (CollectDrops_object K motion_buffer motion_size) objects
       acc).1.2.
Proof.
  intros Hpos. revert acc.
  induction objects as [|obj objects IH]; intros acc Hid.
  - cbn. destruct Hid as [Hid|Hlive]; [|exact Hlive].
    unfold track_ids in Hid. cbn in Hid. now apply elem_of_nil in Hid.
  - cbn [fold_left]. apply IH.
    destruct (decide (track_id obj = id)) as [<-|Hne].
    + right. destruct acc as [[t s] r]. now apply CollectDrops_object_same.
    + destruct Hid as [Hid|Hlive].
      * left. unfold track_ids in Hid. cbn [map] in Hid.
        apply elem_of_cons in Hid as [Heq|Hid]; [congruence|exact Hid].
      * right. destruct acc as [[t s] r].
        destruct (CollectDrops_object_other K motion_buffer motion_size id
                    t s r obj Hne) as [Ht Hs].
        unfold live_track. rewrite Ht, Hs. exact Hlive.
Qed.

(** A visit of the second loop that is defined leaves the history map as
    it was, and changes the counter map at the visited id at most. *)
Lemma CollectDrops_evict_Ok (K : Constants) (objects : list Object)
    (acc acc' : gmap Z circular_buffer * gmap Z Z) (obj_id : Z) :
  CollectDrops_evict K objects acc obj_id = Ok acc' ->
  acc'.1 = acc.1
  /\ (forall id, obj_id <> id -> acc'.2 !! id = acc.2 !! id).
Proof.
  destruct acc as [t s]. unfold CollectDrops_evict.
  destruct (negb _ && _); [|intros [= <-]; auto].
  destruct (_ <=? _)%Z; [discriminate|]. intros [= <-]. cbn [fst snd].
  split; [reflexivity|]. intros id Hne. now rewrite lookup_insert_ne.
Qed.

Lemma CollectDrops_evict_loop_Ok (K : Constants) (objects : list Object)
    (ids : list Z) (acc acc' : gmap Z circular_buffer * gmap Z Z) :
  CollectDrops_evict_loop K objects ids acc = Ok acc' ->
  acc'.1 = acc.1
  /\ (forall id, id ∉ ids -> acc'.2 !! id = acc.2 !! id).
Proof.
  revert acc. induction ids as [|k ids IH]; intros acc H.
  - injection H as <-. auto.
  - cbn [CollectDrops_evict_loop] in H.
    destruct (CollectDrops_evict K objects acc k) as [acc1|] eqn:Ek;
      [|discriminate].
    cbn [mbind outcome_bind] in H.
    destruct (IH acc1 H) as [Ht Hs].
    destruct (CollectDrops_evict_Ok K objects acc acc1 k Ek) as [Ht1 Hs1].
    split; [congruence|]. intros id Hid.
    apply not_elem_of_cons in Hid as [Hne Hid].
    rewrite (Hs id Hid). apply Hs1. congruence.
Qed.

(** A defined run of the loop over the tracked ids changes the counter of
    [id] as its one visit of [id] does. *)
Lemma CollectDrops_evict_visit (K : Constants) (objects : list Object)
    (ids : list Z) (acc acc' : gmap Z circular_buffer * gmap Z Z) (id : Z) :
  NoDup ids -> id ∈ ids ->
  CollectDrops_evict_loop K objects ids acc = Ok acc' ->
  exists acc1 acc2,
    acc1.1 = acc.1 /\ acc1.2 !! id = acc.2 !! id
    /\ CollectDrops_evict K objects acc1 id = Ok acc2
    /\ acc'.2 !! id = acc2.2 !! id.
Proof.
  revert acc. induction ids as [|k ids IH]; intros acc Hnd Hid H.
  - now apply elem_of_nil in Hid.
  - apply NoDup_cons in Hnd as [Hk Hnd]. cbn [CollectDrops_evict_loop] in H.
    destruct (CollectDrops_evict K objects acc k) as [acc1|] eqn:Ek;
      [|discriminate].
    cbn [mbind outcome_bind] in H.
    destruct (decide (k = id)) as [->|Hne].
    + exists acc, acc1. split; [reflexivity|]. split; [reflexivity|].
      split; [exact Ek|].
      exact (proj2 (CollectDrops_evict_loop_Ok K objects ids acc1 acc' H)
               id Hk).
    + apply elem_of_cons in Hid as [Heq|Hid]; [congruence|].
      destruct (IH acc1 Hnd Hid H) as (a1 & a2 & Ht & Hs & Hv & Hr).
      destruct (CollectDrops_evict_Ok K objects acc acc1 k Ek) as [Et Es].
      exists a1, a2. split; [congruence|].
      split; [rewrite Hs; now apply Es|]. split; [exact Hv|exact Hr].
Qed.

Lemma tracked_ids_spec (t : gmap Z circular_buffer) (id : Z) :
  NoDup (tracked_ids t) /\ (id ∈ tracked_ids t <-> is_Some (t !! id)).
Proof.
  unfold tracked_ids. split.
  - rewrite merge_sort_Permutation. apply NoDup_elements.
  - rewrite merge_sort_Permutation, elem_of_elements. apply elem_of_dom.
Qed.

Lemma existsb_track_id (objects : list Object) (id : Z) :
  existsb (fun obj => (id =? track_id obj)%Z) objects = true
  <-> id ∈ track_ids objects.
Proof.
  unfold track_ids. rewrite existsb_exists, list_elem_of_fmap. split.
  - intros (o & Hin & Heq). apply Z.eqb_eq in Heq.
    exists o. split; [exact Heq|]. now apply list_elem_of_In.
  - intros (o & Heq & Hin). exists o. split; [now apply list_elem_of_In|].
    now apply Z.eqb_eq.
Qed.

(** The visit of an id that the frame does not contain: the counter goes
    up by one, and when it reaches the maximum the element is erased under
    the iterator. *)
Lemma CollectDrops_evict_absent (K : Constants) (objects : list Object)
    (acc : gmap Z circular_buffer * gmap Z Z) (id c : Z) :
  id ∉ track_ids objects ->
  live_track id c acc.1 acc.2 ->
  (0 <= c)%Z -> (c + 1 < 2 ^ 64)%Z ->
  CollectDrops_evict K objects acc id
  = if (MAX_ALLOWED_SKIP_OBJECT K <=? c + 1)%Z then Undefined
    else Ok (acc.1, <[id := (c + 1)%Z]> acc.2).
Proof.
  intros Hid [(h & Hh & Hsize) Hc] Hc0 Hc1. destruct acc as [t s].
  cbn [fst snd] in *. unfold CollectDrops_evict.
  destruct (existsb _ objects) eqn:Ex;
    [apply existsb_track_id in Ex; contradiction|].
  rewrite Hh, Hc. cbn [default from_option Datatypes.id negb andb].
  apply Z.ltb_lt in Hsize. rewrite Hsize.
  unfold to_size_t. rewrite Z.mod_small by lia. reflexivity.
Qed.

(** What a defined call of [CollectDrops] has done: either the motion
    buffer was empty, or every read was inside the buffer and the second
    loop erased nothing; the history map is then the one the first loop
    left. *)
Lemma CollectDrops_Ok (K : Constants) (self engine : Cipv)
    (motion_buffer : list VehicleStatus) (objects : list Object)
    (flag : bool) :
  fst (CollectDrops K self motion_buffer objects) = Ok (flag, engine) ->
  (flag = false /\ engine = self
   /\ (to_int32 (Z.of_nat (length motion_buffer)) <= 0)%Z)
  \/ (flag = true
      /\ (0 < to_int32 (Z.of_nat (length motion_buffer)))%Z
      /\ exists t s reads s',
           fold_left
             (CollectDrops_object K motion_buffer
                (to_int32 (Z.of_nat (length motion_buffer))))
             objects
             (object_trackjectories_ self, object_id_skip_count_ self, [])
           = (t, s, reads)
           /\ forallb read_defined reads = true
           /\ CollectDrops_evict_loop K objects (tracked_ids t) (t, s)
              = Ok (t, s')
           /\ engine = set_histories self t s').
Proof.
  unfold CollectDrops.
  destruct (Z.leb_spec (to_int32 (Z.of_nat (length motion_buffer))) 0)
    as [Hle|Hlt].
  - cbn [fst]. intros [= <- <-]. left. auto.
  - destruct (fold_left _ objects _) as [[t s] reads]. cbn [fst].
    destruct (forallb read_defined reads) eqn:Hreads; [|discriminate].
    destruct (CollectDrops_evict_loop K objects (tracked_ids t) (t, s))
      as [[t' s']|] eqn:Hloop; [|discriminate].
    cbn [mbind outcome_bind]. intros [= <- <-]. right.
    split; [reflexivity|]. split; [exact Hlt|].
    destruct (CollectDrops_evict_loop_Ok K objects _ _ _ Hloop) as [Ht _].
    cbn [fst] in Ht. subst t'.
    exists t, s, reads, s'. auto.
Qed.

(** A defined frame without the track: the counter of a live track goes up
    by one and stays below the maximum, and the history is as it was. *)
Lemma CollectDrops_absent_frame (K : Constants) (self engine : Cipv)
    (motion_buffer : list VehicleStatus) (objects : list Object) (id c : Z)
    (flag : bool) :
  nonempty_motion_buffer motion_buffer ->
  id ∉ track_ids objects ->
  live_track id c (object_trackjectories_ self) (object_id_skip_count_ self) ->
  (0 <= c)%Z -> (c + 1 < 2 ^ 64)%Z ->
  fst (CollectDrops K self motion_buffer objects) = Ok (flag, engine) ->
  (c + 1 < MAX_ALLOWED_SKIP_OBJECT K)%Z
  /\ live_track id (c + 1) (object_trackjectories_ engine)
       (object_id_skip_count_ engine)
  /\ object_trackjectories_ engine !! id = object_trackjectories_ self !! id.
Proof.
  intros Hmb Hid Hlive Hc0 Hc1 Hrun. unfold nonempty_motion_buffer in Hmb.
  apply CollectDrops_Ok in Hrun
    as [(_ & _ & Hle)|(_ & _ & t & s & reads & s' & Hfold & _ & Hloop & ->)].
  { rewrite to_int32_small in Hle by lia. lia. }
  destruct (CollectDrops_objects_absent K motion_buffer
              (to_int32 (Z.of_nat (length motion_buffer))) id objects
              (object_trackjectories_ self, object_id_skip_count_ self, [])
              Hid) as [Ht Hs].
  rewrite Hfold in Ht, Hs. cbn [fst snd] in Ht, Hs.
  assert (Hlive' : live_track id c t s).
  { unfold live_track. rewrite Ht, Hs. exact Hlive. }
  destruct (tracked_ids_spec t id) as [Hnd Hin].
  assert (Hmem : id ∈ tracked_ids t).
  { apply Hin. destruct Hlive' as [(h & Hh & _) _]. rewrite Hh. eauto. }
  destruct (CollectDrops_evict_visit K objects (tracked_ids t) (t, s)
              (t, s') id Hnd Hmem Hloop) as (a1 & a2 & E1 & E2 & Hv & Hr).
  cbn [fst snd] in E1, E2, Hr.
  assert (Hl1 : live_track id c a1.1 a1.2).
  { unfold live_track. rewrite E1, E2. exact Hlive'. }
  rewrite (CollectDrops_evict_absent K objects a1 id c Hid Hl1 Hc0 Hc1)
    in Hv.
  destruct (Z.leb_spec (MAX_ALLOWED_SKIP_OBJECT K) (c + 1)) as [|Hlt];
    [discriminate|].
  injection Hv as <-. cbn [snd] in Hr.
  cbn [object_trackjectories_ object_id_skip_count_ set_histories].
  split; [exact Hlt|]. split; [|exact Ht].
  unfold live_track. rewrite Hr, lookup_insert_eq.
  split; [|reflexivity]. exact (proj1 Hlive').
Qed.

(** A defined frame with the track leaves it live, with a counter of
    zero. *)
Lemma CollectDrops_seen_frame (K : Constants) (self engine : Cipv)
    (motion_buffer : list VehicleStatus) (objects : list Object) (id : Z)
    (flag : bool) :
  (0 < DROPS_HISTORY_SIZE K)%Z ->
  nonempty_motion_buffer motion_buffer ->
  id ∈ track_ids objects ->
  fst (CollectDrops K self motion_buffer objects) = Ok (flag, engine) ->
  flag = true
  /\ live_track id 0 (object_trackjectories_ engine)
       (object_id_skip_count_ engine).
Proof.
  intros Hpos Hmb Hid Hrun. unfold nonempty_motion_buffer in Hmb.
  apply CollectDrops_Ok in Hrun
    as [(_ & _ & Hle)|(-> & _ & t & s & reads & s' & Hfold & _ & Hloop & ->)].
  { rewrite to_int32_small in Hle by lia. lia. }
  split; [reflexivity|].
  pose proof (CollectDrops_objects_present K motion_buffer
                (to_int32 (Z.of_nat (length motion_buffer))) id objects
                (object_trackjectories_ self, object_id_skip_count_ self, [])
                Hpos (or_introl Hid)) as Hlive.
  rewrite Hfold in Hlive. cbn [fst snd] in Hlive.
  destruct (tracked_ids_spec t id) as [Hnd Hin].
  assert (Hmem : id ∈ tracked_ids t).
  { apply Hin. destruct Hlive as [(h & Hh & _) _]. rewrite Hh. eauto. }
  destruct (CollectDrops_evict_visit K objects (tracked_ids t) (t, s)
              (t, s') id Hnd Hmem Hloop) as (a1 & a2 & E1 & E2 & Hv & Hr).
  cbn [fst snd] in E1, E2, Hr.
  assert (Hsame : a2 = a1).
  { destruct a1 as [t1 s1]. unfold CollectDrops_evict in Hv.
    apply existsb_track_id in Hid. rewrite Hid in Hv.
    cbn [negb andb] in Hv. congruence. }
  subst a2.
  cbn [object_trackjectories_ object_id_skip_count_ set_histories].
  unfold live_track. rewrite Hr, E2. exact Hlive.
Qed.

Lemma run_CollectDrops_absent (K : Constants)
    (frames : list (list VehicleStatus * list Object)) (self engine : Cipv)
    (id c : Z) :
  (MAX_ALLOWED_SKIP_OBJECT K < 2 ^ 64)%Z ->
  Forall (fun frame => nonempty_motion_buffer frame.1
                       /\ id ∉ track_ids frame.2) frames ->
  live_track id c (object_trackjectories_ self) (object_id_skip_count_ self) ->
  (0 <= c < MAX_ALLOWED_SKIP_OBJECT K)%Z ->
  run_CollectDrops K self frames = Ok engine ->
  (c + Z.of_nat (length frames) < MAX_ALLOWED_SKIP_OBJECT K)%Z
  /\ live_track id (c + Z.of_nat (length frames))
       (object_trackjectories_ engine) (object_id_skip_count_ engine)
  /\ object_trackjectories_ engine !! id = object_trackjectories_ self !! id.
Proof.
  intros Hmax. revert self c.
  induction frames as [|[mb objs] frames IH];
    intros self c Hall Hlive Hc Hrun.
  - injection Hrun as <-. cbn [length]. rewrite Z.add_0_r.
    split; [lia|]. auto.
  - apply Forall_cons in Hall as [[Hmb Hid] Hall]. cbn [fst snd] in Hmb, Hid.
    cbn [run_CollectDrops fst snd] in Hrun.
    destruct (fst (CollectDrops K self mb objs)) as [[flag next]|] eqn:Estep;
      [|discriminate].
    cbn [mbind outcome_bind] in Hrun.
    destruct (CollectDrops_absent_frame K self next mb objs id c flag Hmb
                Hid Hlive ltac:(lia) ltac:(lia) Estep)
      as (Hlt & Hlive' & Hsame).
    destruct (IH next (c + 1)%Z Hall Hlive' ltac:(lia) Hrun)
      as (Hlt' & Hl & Hs).
    cbn [length]. rewrite Nat2Z.inj_succ.
    replace (c + Z.succ (Z.of_nat (length frames)))%Z
      with (c + 1 + Z.of_nat (length frames))%Z by lia.
    split; [exact Hlt'|]. split; [exact Hl|]. now rewrite Hs.
Qed.

(** C7, the code against the claim: the erasure is not a defined step.
    For a track seen in one frame and absent from the object lists of the
    frames that follow, the motion buffer never empty, a run that is
    defined has fewer than [MAX_ALLOWED_SKIP_OBJECT] such frames; after it
    the history is the one the track had when last seen and the counter is
    the number of frames of absence.  After [MAX_ALLOWED_SKIP_OBJECT - 1]
    frames of absence the history is thus still present, and every further
    call without the track makes the counter [MAX_ALLOWED_SKIP_OBJECT],
    erases the element the range-for stands on and increments the
    invalidated iterator: the call that the claim says erases the track
    has no defined result. *)
Theorem CollectDrops_eviction_undefined (K : Constants) (self engine : Cipv)
    (seen_buffer : list VehicleStatus) (seen_objects : list Object)
    (frames : list (list VehicleStatus * list Object)) (id : Z) :
  (0 < DROPS_HISTORY_SIZE K)%Z ->
  (0 < MAX_ALLOWED_SKIP_OBJECT K < 2 ^ 64)%Z ->
  nonempty_motion_buffer seen_buffer ->
  id ∈ track_ids seen_objects ->
  Forall (fun frame => nonempty_motion_buffer frame.1
                       /\ id ∉ track_ids frame.2) frames ->
  run_CollectDrops K self ((seen_buffer, seen_objects) :: frames)
  = Ok engine ->
  (Z.of_nat (length frames) < MAX_ALLOWED_SKIP_OBJECT K)%Z
  /\ (exists seen,
        fst (CollectDrops K self seen_buffer seen_objects) = Ok (true, seen)
        /\ is_Some (object_trackjectories_ seen !! id)
        /\ object_trackjectories_ engine !! id
           = object_trackjectories_ seen !! id)
  /\ object_id_skip_count_ engine !! id = Some (Z.of_nat (length frames))
  /\ (Z.of_nat (length frames) = MAX_ALLOWED_SKIP_OBJECT K - 1 ->
      forall (motion_buffer : list VehicleStatus) (objects : list Object),
        nonempty_motion_buffer motion_buffer ->
        id ∉ track_ids objects ->
        fst (CollectDrops K engine motion_buffer objects) = Undefined)%Z.
Proof.
  intros Hsize Hskip Hmb Hid Hall Hrun.
  cbn [run_CollectDrops fst snd] in Hrun.
  destruct (fst (CollectDrops K self seen_buffer seen_objects))
    as [[flag seen]|] eqn:Eseen; [|discriminate].
  cbn [mbind outcome_bind] in Hrun.
  destruct (CollectDrops_seen_frame K self seen seen_buffer seen_objects id
              flag Hsize Hmb Hid Eseen) as [-> Hseen].
  destruct (run_CollectDrops_absent K frames seen engine id 0
              ltac:(lia) Hall Hseen ltac:(lia) Hrun) as (Hlt & Hlive & Hsame).
  rewrite Z.add_0_l in Hlt, Hlive.
  split; [exact Hlt|]. split; [|split].
  - exists seen. split; [reflexivity|]. split; [|exact Hsame].
    destruct Hseen as [(h & Hh & _) _]. rewrite Hh. eauto.
  - exact (proj2 Hlive).
  - intros Hlen motion_buffer objects Hmb' Hid'.
    destruct (fst (CollectDrops K engine motion_buffer objects))
      as [[flag' next]|] eqn:Enext; [exfalso|reflexivity].
    destruct (CollectDrops_absent_frame K engine next motion_buffer objects
                id (Z.of_nat (length frames)) flag' Hmb' Hid' Hlive
                ltac:(lia) ltac:(lia) Enext) as (Hlt' & _).
    lia.
Qed.

Lemma empty_frames_absent (n : nat) (id : Z) :
  Forall (fun frame : list VehicleStatus * list Object =>
            nonempty_motion_buffer frame.1 /\ id ∉ track_ids frame.2)
    (empty_frames n).
Proof.
  unfold empty_frames. induction n as [|n IH]; cbn [repeat]; constructor.
  - cbn [fst snd track_ids map]. split.
    + unfold nonempty_motion_buffer. cbn. lia.
    + apply not_elem_of_nil.
  - exact IH.
Defined.

Lemma CollectDrops_eviction_undefined_witness :
  is_Some (object_trackjectories_ absent_nine !! 7%Z)
  /\ object_id_skip_count_ absent_nine !! 7%Z = Some 9%Z
  /\ fst (CollectDrops sample_constants absent_nine [still] []) = Undefined.
Proof.
  destruct (CollectDrops_eviction_undefined sample_constants sample_engine
              absent_nine [still] [lead_car] (empty_frames 9) 7%Z)
    as (_ & (seen & _ & Hsome & Hsame) & Hcount & Hlast).
  - cbn. lia.
  - cbn. lia.
  - unfold nonempty_motion_buffer. cbn. lia.
  - cbn. apply list_elem_of_here.
  - exact (empty_frames_absent 9 7%Z).
  - vm_compute. reflexivity.
  - split; [rewrite Hsame; exact Hsome|]. split; [exact Hcount|].
    apply Hlast.
    + reflexivity.
    + unfold nonempty_motion_buffer. cbn. lia.
    + apply not_elem_of_nil.
Defined.

(** ** Lane containment *)

Lemma AreDistancesSane_false (K : Constants) (sr sl er el : Q) :
  AreDistancesSane K sr sl er el = false
  <-> MAX_DIST_OBJECT_TO_LANE_METER K < sr
      \/ MAX_DIST_OBJECT_TO_LANE_METER K < sl
      \/ MAX_DIST_OBJECT_TO_LANE_METER K < er
      \/ MAX_DIST_OBJECT_TO_LANE_METER K < el
      \/ MAX_VEHICLE_WIDTH_METER K < Qabs (sr - er)
      \/ MAX_VEHICLE_WIDTH_METER K < Qabs (el - sl).
Proof.
  unfold AreDistancesSane, fabs.
  repeat match goal with
         | |- context [Qltb ?a ?b] =>
             let E := fresh "E" in
             destruct (Qltb a b) eqn:E;
             [apply Qltb_lt in E | apply Qltb_ge in E]
         end;
    split; intros H; try tauto; try discriminate; exfalso;
    repeat match goal with
           | H : _ \/ _ |- _ => destruct H as [H|H]
           | H : ?a < ?b, H' : ?b <= ?a |- _ =>
               exact (Qlt_not_le _ _ H H')
           end.
Qed.

(** The gate accepts four distances of zero, for any thresholds that are
    not negative. *)
Lemma AreDistancesSane_zero (K : Constants) :
  0 <= MAX_DIST_OBJECT_TO_LANE_METER K ->
  0 <= MAX_VEHICLE_WIDTH_METER K ->
  AreDistancesSane K 0 0 0 0 = true.
Proof.
  intros Hd Hw.
  destruct (AreDistancesSane K 0 0 0 0) eqn:E; [reflexivity|].
  apply AreDistancesSane_false in E. exfalso.
  assert (H0 : Qabs (0 - 0) == 0) by reflexivity.
  rewrite !H0 in E.
  repeat match goal with
         | H : _ \/ _ |- _ => destruct H as [H|H]
         | H : ?a < 0, H' : 0 <= ?a |- _ => exact (Qlt_not_le _ _ H H')
         end.
Qed.

(** C2, the code at an input that breaks the claim: a car ten metres
    ahead, in a lane whose boundaries are a hundred metres to each side.
    The distances from the ends of its near face to the boundaries are 99
    and 101 metres, all above the 70 of the threshold, and the gate rejects
    these four distances when it is given them; but
    [IsObjectInTheLaneGround] hands the gate four variables it never
    assigns, all zero, and accepts the car. *)
Theorem IsObjectInTheLaneGround_distances_not_gated :
  FindClosestEdgeOfObjectGround sample_constants axis_libm identity_engine
    lead_car wide_lane unset_edge = Ok (true, lead_car_edge)
  /\ (exists sr sl er el,
        DistanceFromPointToLineSegment sample_constants axis_libm
          (start_point lead_car_edge) (0, -100 # 1) (50, -100 # 1) = Some sr
        /\ DistanceFromPointToLineSegment sample_constants axis_libm
             (start_point lead_car_edge) (0, 100) (50, 100) = Some sl
        /\ DistanceFromPointToLineSegment sample_constants axis_libm
             (end_point lead_car_edge) (0, -100 # 1) (50, -100 # 1) = Some er
        /\ DistanceFromPointToLineSegment sample_constants axis_libm
             (end_point lead_car_edge) (0, 100) (50, 100) = Some el
        /\ sr == 101 /\ sl == 99 /\ er == 99 /\ el == 101
        /\ MAX_DIST_OBJECT_TO_LANE_METER sample_constants < sr
        /\ MAX_DIST_OBJECT_TO_LANE_METER sample_constants < sl
        /\ MAX_DIST_OBJECT_TO_LANE_METER sample_constants < er
        /\ MAX_DIST_OBJECT_TO_LANE_METER sample_constants < el
        /\ AreDistancesSane sample_constants sr sl er el = false)
  /\ IsObjectInTheLaneGround sample_constants axis_libm identity_engine
       lead_car wide_lane = Ok true.
Proof.
  split; [vm_compute; reflexivity|]. split; [|vm_compute; reflexivity].
  eexists _, _, _, _.
  split; [vm_compute; reflexivity|]. split; [vm_compute; reflexivity|].
  split; [vm_compute; reflexivity|]. split; [vm_compute; reflexivity|].
  repeat (split; [vm_compute; reflexivity|]).
  vm_compute; reflexivity.
Qed.

(** ** CIPV selection *)

Lemma bind_Ok {A B : Type} (x : outcome A) (k : A -> outcome B) (b : B) :
  x ≫= k = Ok b -> exists a, x = Ok a /\ k a = Ok b.
Proof. destruct x as [a|]; [eauto | discriminate]. Qed.

Lemma nth_error_lookup {A : Type} (l : list A) (i : nat) :
  nth_error l i = l !! i.
Proof. revert i. induction l as [|a l IH]; intros [|i]; cbn; auto. Qed.

Lemma at_index_Ok {A : Type} (v : list A) (i : Z) (a : A) :
  at_index v i = Ok a -> (0 <= i)%Z /\ v !! Z.to_nat i = Some a.
Proof.
  unfold at_index.
  destruct (i <? 0)%Z eqn:E; [discriminate|]. apply Z.ltb_ge in E.
  destruct (_ <=? i)%Z; [discriminate|]. cbn [orb].
  rewrite nth_error_lookup. destruct (v !! Z.to_nat i); [|discriminate].
  intros [= ->]. auto.
Qed.

Lemma assign_b_cipv_Ok (objects objects' : list Object) (i : Z) (b : bool) :
  assign_b_cipv objects i b = Ok objects' ->
  (0 <= i)%Z
  /\ exists o, objects !! Z.to_nat i = Some o
               /\ objects' = <[Z.to_nat i := set_b_cipv o b]> objects.
Proof.
  unfold assign_b_cipv. intros H. apply bind_Ok in H as (o & Ho & H).
  apply at_index_Ok in Ho as [Hi Ho]. injection H as <-. eauto.
Qed.

(** The flags after an assignment. *)
Lemma flagged_insert (objects : list Object) (n j : nat) (o : Object)
    (b : bool) :
  objects !! n = Some o ->
  flagged (<[n := set_b_cipv o b]> objects) j
  <-> (j = n /\ b = true) \/ (j <> n /\ flagged objects j).
Proof.
  intros Ho. unfold flagged.
  assert (Hn : (n < length objects)%nat) by (eapply lookup_lt_Some; eauto).
  destruct (decide (j = n)) as [->|Hne].
  - rewrite list_lookup_insert_eq by exact Hn. split.
    + intros (o' & [= <-] & Hb). cbn in Hb. auto.
    + intros [[_ ->]|[Hc _]]; [|congruence]. eexists. split; reflexivity.
  - rewrite list_lookup_insert_ne by congruence. split.
    + intros H. right. auto.
    + intros [[Hc _]|[_ H]]; [congruence|exact H].
Qed.

(** An assignment changes nothing but the flag. *)
Lemma insert_same_but_flag (objects : list Object) (n j : nat)
    (o oj oj' : Object) (b : bool) :
  objects !! n = Some o ->
  objects !! j = Some oj ->
  <[n := set_b_cipv o b]> objects !! j = Some oj' ->
  oj' = set_b_cipv oj (b_cipv oj').
Proof.
  intros Ho Hj Hj'.
  assert (Hn : (n < length objects)%nat) by (eapply lookup_lt_Some; eauto).
  destruct (decide (j = n)) as [->|Hne].
  - rewrite list_lookup_insert_eq in Hj' by exact Hn.
    injection Hj' as <-. rewrite Ho in Hj. injection Hj as <-. reflexivity.
  - rewrite list_lookup_insert_ne in Hj' by congruence.
    rewrite Hj in Hj'. injection Hj' as <-. now destruct oj.
Qed.

(** What a defined call of [DetermineCipv] has done. *)
Lemma DetermineCipv_Ok (K : Constants) (M : Libm) (self self' : Cipv)
    (lane_objects : list LaneLine) (options : CipvOptions)
    (objects objects' : list Object) (b : bool) :
  DetermineCipv K M self lane_objects options objects
  = Ok (b, self', objects') ->
  exists image ground sel tid,
    frame_ego_lanes K self lane_objects options = Ok (image, ground)
    /\ DetermineCipv_loop K M self image ground objects
         (map Z.of_nat
            (seq 0 (Z.to_nat (to_int32 (Z.of_nat (length objects))))))
         ((-1)%Z, (-1)%Z) = Ok (sel, tid)
    /\ b = true
    /\ self' = set_old_cipv_index self sel
    /\ (((sel < 0)%Z /\ objects' = objects)
        \/ ((0 <= sel)%Z
            /\ exists cleared,
                 (((0 <= old_cipv_index self)%Z
                   /\ old_cipv_index self <> sel
                   /\ assign_b_cipv objects (old_cipv_index self) false
                      = Ok cleared)
                  \/ (((old_cipv_index self < 0)%Z
                       \/ old_cipv_index self = sel)
                      /\ cleared = objects))
                 /\ assign_b_cipv cleared sel true = Ok objects')).
Proof.
  unfold DetermineCipv, frame_ego_lanes. intros H.
  apply bind_Ok in H as ([t lanes] & -> & H). cbn [mbind outcome_bind] in *.
  apply bind_Ok in H as ([t' ground] & -> & H). cbn [mbind outcome_bind] in *.
  apply bind_Ok in H as ([sel tid] & Hloop & H).
  apply bind_Ok in H as (objs & Hobjs & H). injection H as <- <- <-.
  exists (egolane_image lanes), ground, sel, tid.
  split; [reflexivity|]. split; [exact Hloop|].
  split; [reflexivity|]. split; [reflexivity|].
  destruct (0 <=? sel)%Z eqn:Esel.
  - apply Z.leb_le in Esel. right. split; [exact Esel|].
    apply bind_Ok in Hobjs as (cleared & Hcl & Hset).
    exists cleared. split; [|exact Hset].
    destruct (Z.leb_spec 0 (old_cipv_index self)) as [Eold|Eold];
      destruct (Z.eqb_spec (old_cipv_index self) sel) as [Eeq|Eeq];
      cbn [andb negb] in Hcl.
    + right. injection Hcl as <-. split; [right; exact Eeq|reflexivity].
    + left. split; [exact Eold|]. split; [exact Eeq|exact Hcl].
    + right. injection Hcl as <-. split; [right; exact Eeq|reflexivity].
    + right. injection Hcl as <-. split; [left; exact Eold|reflexivity].
  - apply Z.leb_gt in Esel. left. injection Hobjs as <-. auto.
Qed.

Lemma DetermineCipv_step_Ok (K : Constants) (M : Libm) (self : Cipv)
    (image ground : EgoLane) (objects : list Object) (acc acc' : Z * Z)
    (i : Z) :
  DetermineCipv_step K M self image ground objects acc i = Ok acc' ->
  exists o in_lane,
    at_index objects i = Ok o
    /\ IsObjectInTheLane K M self o image ground = Ok in_lane
    /\ (in_lane = false -> acc' = acc)
    /\ (in_lane = true -> acc'.1 = i \/ (acc' = acc /\ (0 <= acc.1)%Z)).
Proof.
  unfold DetermineCipv_step. destruct acc as [ci tid]. intros H.
  apply bind_Ok in H as (o & Ho & H).
  apply bind_Ok in H as (in_lane & Hin & H).
  exists o, in_lane. split; [exact Ho|]. split; [exact Hin|].
  destruct in_lane.
  - split; [discriminate|]. intros _.
    destruct (Z.ltb_spec ci 0) as [Hci|Hci].
    + injection H as <-. left. reflexivity.
    + apply bind_Ok in H as (cur & _ & H).
      destruct (Qltb _ _); injection H as <-; [left|right]; auto.
  - split; [|discriminate]. intros _. now injection H as <-.
Qed.

(** The index the selection loop ends on is the one it started from or
    that of an object the lane test accepts, and it is not negative once an
    object has been accepted. *)
Lemma DetermineCipv_loop_spec (K : Constants) (M : Libm) (self : Cipv)
    (image ground : EgoLane) (objects : list Object) (indices : list Z)
    (acc res : Z * Z) :
  Forall (fun i => 0 <= i)%Z indices ->
  DetermineCipv_loop K M self image ground objects indices acc = Ok res ->
  (res.1 = acc.1
   \/ (res.1 ∈ indices
       /\ exists o, at_index objects res.1 = Ok o
                    /\ IsObjectInTheLane K M self o image ground = Ok true))
  /\ ((0 <= acc.1)%Z -> (0 <= res.1)%Z)
  /\ (forall i o, i ∈ indices -> at_index objects i = Ok o ->
                  IsObjectInTheLane K M self o image ground = Ok true ->
                  (0 <= res.1)%Z).
Proof.
  revert acc. induction indices as [|i indices IH]; intros acc Hpos H.
  - injection H as <-. split; [left; reflexivity|]. split; [auto|].
    intros i o Hin. now apply elem_of_nil in Hin.
  - apply Forall_cons in Hpos as [Hi Hpos]. cbn [DetermineCipv_loop] in H.
    apply bind_Ok in H as (acc' & Hstep & H).
    destruct (IH acc' Hpos H) as (Hres & Hkeep & Hany).
    apply DetermineCipv_step_Ok in Hstep
      as (o & in_lane & Ho & Hin & Hout & Hsel).
    assert (Hacc' : (0 <= acc.1)%Z -> (0 <= acc'.1)%Z).
    { intros Hacc. destruct in_lane.
      - destruct (Hsel eq_refl) as [->|[-> _]]; auto.
      - now rewrite (Hout eq_refl). }
    split; [|split].
    + destruct Hres as [Hres|(Hmem & Hq)].
      * destruct in_lane.
        -- destruct (Hsel eq_refl) as [Heq|[-> _]]; [|left; exact Hres].
           right. rewrite Hres, Heq. split; [apply list_elem_of_here|].
           eauto.
        -- left. now rewrite Hres, (Hout eq_refl).
      * right. split; [now apply list_elem_of_further|exact Hq].
    + auto.
    + intros j oj Hj Hoj Hlane. apply elem_of_cons in Hj as [->|Hj].
      * apply Hkeep. rewrite Ho in Hoj. injection Hoj as <-.
        rewrite Hin in Hlane. injection Hlane as ->.
        destruct (Hsel eq_refl) as [->|[-> ?]]; auto.
      * eauto.
Qed.

Lemma loop_range_spec (n : nat) (i : Z) :
  i ∈ map Z.of_nat (seq 0 n) <-> (0 <= i < Z.of_nat n)%Z.
Proof.
  rewrite list_elem_of_fmap. split.
  - intros (k & -> & Hk). apply list_elem_of_In, in_seq in Hk. lia.
  - intros Hi. exists (Z.to_nat i). split; [lia|].
    apply list_elem_of_In, in_seq. lia.
Qed.

Lemma loop_range_nonneg (n : nat) :
  Forall (fun i => 0 <= i)%Z (map Z.of_nat (seq 0 n)).
Proof.
  apply List.Forall_forall. intros i Hi.
  apply list_elem_of_In, loop_range_spec in Hi. lia.
Qed.

Lemma set_b_cipv_same (o : Object) : set_b_cipv o (b_cipv o) = o.
Proof. now destruct o. Qed.

(** The flags after a defined call of [DetermineCipv] on a list in
    which no object other than the one at the previous CIPV index has its
    flag set. *)
Lemma DetermineCipv_flags (K : Constants) (M : Libm)
    (self self' : Cipv) (lane_objects : list LaneLine)
    (options : CipvOptions) (objects objects' : list Object) (b : bool) :
  (Z.of_nat (length objects) < 2 ^ 31)%Z ->
  (forall j, flagged objects j -> Z.of_nat j = old_cipv_index self) ->
  DetermineCipv K M self lane_objects options objects
  = Ok (b, self', objects') ->
  at_most_one_cipv objects'
  /\ length objects' = length objects
  /\ (forall j o o', objects !! j = Some o -> objects' !! j = Some o' ->
                     o' = set_b_cipv o (b_cipv o'))
  /\ ((exists j o, objects !! j = Some o
                   /\ qualifies K M self lane_objects options o) ->
      (0 <= old_cipv_index self')%Z
      /\ (exists o, objects !! Z.to_nat (old_cipv_index self') = Some o
                    /\ qualifies K M self lane_objects options o)
      /\ forall j, flagged objects' j <-> Z.of_nat j = old_cipv_index self')
  /\ (~ (exists j o, objects !! j = Some o
                     /\ qualifies K M self lane_objects options o) ->
      old_cipv_index self' = (-1)%Z /\ objects' = objects).
Proof.
  intros Hlen Hpre Hrun.
  apply DetermineCipv_Ok in Hrun
    as (image & ground & sel & tid & Hlanes & Hloop & -> & -> & Hflags).
  rewrite to_int32_small, Nat2Z.id in Hloop by lia.
  destruct (DetermineCipv_loop_spec K M self image ground objects _ _ _
              (loop_range_nonneg (length objects)) Hloop)
    as (Hsel & _ & Hany).
  cbn [fst snd] in Hsel, Hany. cbn [old_cipv_index set_old_cipv_index].
  assert (Hqual : (exists j o, objects !! j = Some o
                               /\ qualifies K M self lane_objects options o)
                  -> (0 <= sel)%Z).
  { intros (j & o & Hj & image' & ground' & Hl & Hq).
    rewrite Hlanes in Hl. injection Hl as <- <-.
    apply (Hany (Z.of_nat j) o); [|now apply at_index_of_nat;
                                    rewrite nth_error_lookup|exact Hq].
    apply loop_range_spec. apply lookup_lt_Some in Hj. lia. }
  assert (Hchosen : (0 <= sel)%Z ->
                    exists o, objects !! Z.to_nat sel = Some o
                              /\ qualifies K M self lane_objects options o).
  { intros Hs. destruct Hsel as [->|(_ & o & Ho & Hq)]; [lia|].
    apply at_index_Ok in Ho as [_ Ho]. exists o. split; [exact Ho|].
    exists image, ground. auto. }
  assert (Hnone : (sel < 0)%Z -> sel = (-1)%Z).
  { intros Hs. destruct Hsel as [->|(Hmem & _)]; [reflexivity|].
    apply loop_range_spec in Hmem. lia. }
  destruct Hflags as [[Hneg ->]|(Hpos & cleared & Hcl & Hset)].
  - (* no selection: the list is as it was *)
    split; [|split; [reflexivity|split; [|split]]].
    + intros i j Hi Hj. apply Hpre in Hi, Hj. lia.
    + intros j o o' Ho Ho'. rewrite Ho in Ho'. injection Ho' as <-.
      symmetry. apply set_b_cipv_same.
    + intros Hex. specialize (Hqual Hex). lia.
    + intros _. auto.
  - (* a selection: the flags of [cleared] are all down *)
    apply assign_b_cipv_Ok in Hset as (_ & osel & Hosel & ->).
    assert (Hdown : forall j, flagged cleared j -> Z.of_nat j = sel).
    { intros j Hj.
      destruct Hcl as [(Hold & Hne & Hcl)|([Hold|Hold] & ->)].
      - apply assign_b_cipv_Ok in Hcl as (_ & oold & Hoold & ->).
        apply (flagged_insert objects _ j oold false Hoold) in Hj.
        destruct Hj as [[_ Hc]|[Hj Hf]]; [discriminate|].
        apply Hpre in Hf. lia.
      - apply Hpre in Hj. lia.
      - rewrite <- Hold. now apply Hpre. }
    assert (Hone : forall j,
               flagged (<[Z.to_nat sel := set_b_cipv osel true]> cleared) j
               <-> Z.of_nat j = sel).
    { intros j. rewrite (flagged_insert cleared _ j osel true Hosel).
      split.
      - intros [[-> _]|[_ Hf]]; [lia|now apply Hdown].
      - intros Hj. left. split; [lia|reflexivity]. }
    assert (Hlens : length cleared = length objects).
    { destruct Hcl as [(_ & _ & Hcl)|(_ & ->)]; [|reflexivity].
      apply assign_b_cipv_Ok in Hcl as (_ & oold & _ & ->).
      apply length_insert. }
    split; [|split; [|split; [|split]]].
    + intros i j Hi Hj. apply Hone in Hi, Hj. lia.
    + now rewrite length_insert.
    + intros j o o' Ho Ho'.
      destruct (lookup_lt_is_Some_2 cleared j) as [oc Hoc].
      { rewrite Hlens. eapply lookup_lt_Some; eauto. }
      pose proof (insert_same_but_flag cleared _ j osel oc o' true Hosel
                    Hoc Ho') as E2.
      assert (E1 : oc = set_b_cipv o (b_cipv oc)).
      { destruct Hcl as [(_ & _ & Hcl)|(_ & ->)].
        - apply assign_b_cipv_Ok in Hcl as (_ & oold & Hoold & ->).
          exact (insert_same_but_flag objects _ j oold o oc false Hoold
                   Ho Hoc).
        - rewrite Ho in Hoc. injection Hoc as <-. symmetry.
          apply set_b_cipv_same. }
      rewrite E2. rewrite E1 at 1. reflexivity.
    + intros _. split; [exact Hpos|]. split; [now apply Hchosen|].
      exact Hone.
    + intros Hno. exfalso. apply Hno.
      destruct (Hchosen Hpos) as (o & Ho & Hq). eauto.
Qed.

Lemma two_cars_unflagged (old : Z) :
  forall j, flagged two_cars j -> Z.of_nat j = old.
Proof.
  intros j (o & Ho & Hb). destruct j as [|[|j]]; cbn in Ho;
    try discriminate; injection Ho as <-; discriminate.
Defined.

(** C1, the claim as stated fails.  Three defined calls on the same two
    objects, not flagged at first: the first call selects the first car;
    the second finds no car in the lane, leaves the flag of the first car
    set and records [-1]; the third selects the second car and clears
    nothing.  Both flags are then set. *)
Lemma DetermineCipv_two_flags_set :
  map b_cipv two_cars = [false; false]
  /\ DetermineCipv sample_constants axis_libm identity_engine
       (lanes_around 0) cruise two_cars = Ok frame1
  /\ DetermineCipv sample_constants axis_libm frame1.1.2
       (lanes_around 100) cruise frame1.2 = Ok frame2
  /\ DetermineCipv sample_constants axis_libm frame2.1.2
       (lanes_around 5) cruise frame2.2 = Ok frame3
  /\ map b_cipv frame3.2 = [true; true]
  /\ ~ at_most_one_cipv frame3.2.
Proof.
  split; [reflexivity|].
  split; [vm_compute; reflexivity|].
  split; [vm_compute; reflexivity|].
  split; [vm_compute; reflexivity|].
  split; [reflexivity|].
  intros H. specialize (H 0%nat 1%nat).
  assert (E : 0%nat = 1%nat); [|discriminate].
  apply H; eexists; (split; [reflexivity|reflexivity]).
Qed.

(** ** The lane synthesized without lane lines *)

Section DegenerateLane.

Variable K : Constants.
Variable M : Libm.
Hypothesis sqrt_zero : forall q, q == 0 -> sqrt M q == 0.
Hypothesis epsilon_nonneg : 0 <= B_FLT_EPSILON K.

Lemma DistanceFromPointToLineSegment_point (pt p : Point2Df) :
  DistanceFromPointToLineSegment K M pt p p = None.
Proof.
  unfold DistanceFromPointToLineSegment, segment_length_sqr, hypot.
  assert (H0 : sqrt M ((fst p - fst p) * (fst p - fst p)
                       + (snd p - snd p) * (snd p - snd p)) == 0)
    by (apply sqrt_zero; ring).
  destruct (Qleb _ _) eqn:E; [reflexivity|].
  apply Qleb_gt in E. rewrite H0 in E. lra.
Qed.

Lemma closest_segment_loop_repeat (pt p : Point2Df) (n : nat) (i ci : Z)
    (sd : Q) :
  closest_segment_loop K M pt (repeat p n) i ci sd = (ci, sd).
Proof.
  revert i. induction n as [|[|n] IH]; intros i; [reflexivity..|].
  change (repeat p (S (S n))) with (p :: repeat p (S n)).
  change (repeat p (S n)) with (p :: repeat p n) at 1.
  cbn [closest_segment_loop].
  rewrite DistanceFromPointToLineSegment_point.
  change (p :: repeat p n) with (repeat p (S n)). apply IH.
Qed.

(** No object is in a lane whose boundaries are each one repeated point:
    every segment has length zero and no closest segment is found. *)
Lemma IsObjectInTheLaneGround_repeated_point (self : Cipv) (object : Object)
    (pl pr : Point2Df) (n : nat) :
  IsObjectInTheLaneGround K M self object
    {| left_line := repeat pl n; right_line := repeat pr n |} <> Ok true.
Proof.
  unfold IsObjectInTheLaneGround.
  destruct (FindClosestEdgeOfObjectGround _ _ _ _ _ _) as [[valid edge]|];
    [|intros ?; discriminate].
  cbn [mbind outcome_bind left_line right_line].
  unfold closest_segment. rewrite !closest_segment_loop_repeat.
  cbn [Z.leb Z.compare mbind outcome_bind].
  destruct valid; cbn [negb]; [|intros ?; discriminate].
  destruct (_ <=? 1)%Z; [intros ?; discriminate|].
  destruct (_ <=? 1)%Z; [intros ?; discriminate|].
  destruct (AreDistancesSane _ _ _ _ _); cbn [andb]; intros ?; discriminate.
Qed.

(** With no valid lane line the engine, in its ground mode, synthesizes
    such a lane: [DetermineCipv] then selects no object. *)
Lemma IsObjectInTheLaneGround_no_lane_lines (self : Cipv) (object : Object)
    (lane_objects : list LaneLine) (yaw v : Q) (image ground lane : EgoLane)
    (flag : bool) :
  b_image_based_cipv_ self = false ->
  ElongateEgoLane K self lane_objects false false yaw v image ground
  = Ok (flag, lane) ->
  IsObjectInTheLaneGround K M self object lane <> Ok true.
Proof.
  intros Himg. unfold ElongateEgoLane. cbn [andb negb].
  pose proof (MakeVirtualEgoLaneFromYawRate_points self yaw v
                (EGO_CAR_HALF_VIRTUAL_LANE K) Himg) as Hpts.
  destruct (MakeVirtualEgoLaneFromYawRate self yaw v _) as [b [l r]].
  cbn [snd] in Hpts. apply pair_equal_spec in Hpts as [-> ->].
  intros H.
  assert (E : lane
              = {| left_line :=
                     repeat (time_unit_ self * v,
                             0 + EGO_CAR_HALF_VIRTUAL_LANE K) 24;
                   right_line :=
                     repeat (time_unit_ self * v,
                             0 - EGO_CAR_HALF_VIRTUAL_LANE K) 24 |})
    by congruence.
  rewrite E. apply IsObjectInTheLaneGround_repeated_point.
Qed.

End DegenerateLane.

(** ** When [DetermineCipv] is defined *)

Lemma at_index_in_range {A : Type} (v : list A) (i : Z) :
  (0 <= i < Z.of_nat (length v))%Z ->
  exists a, at_index v i = Ok a /\ a ∈ v.
Proof.
  intros Hi. destruct (lookup_lt_is_Some_2 v (Z.to_nat i)) as [a Ha];
    [lia|].
  exists a. split; [|eapply list_elem_of_lookup_2; eauto].
  rewrite <- (Z2Nat.id i) by lia. apply at_index_of_nat.
  now rewrite nth_error_lookup.
Qed.

Lemma DetermineCipv_loop_defined (K : Constants) (M : Libm) (self : Cipv)
    (image ground : EgoLane) (objects : list Object) (indices : list Z)
    (acc : Z * Z) :
  (forall o, o ∈ objects ->
             exists in_lane,
               IsObjectInTheLane K M self o image ground = Ok in_lane) ->
  Forall (fun i => 0 <= i < Z.of_nat (length objects))%Z indices ->
  (acc.1 < Z.of_nat (length objects))%Z ->
  exists res,
    DetermineCipv_loop K M self image ground objects indices acc = Ok res.
Proof.
  intros Hlane. revert acc.
  induction indices as [|i indices IH]; intros acc Hin Hacc.
  - cbn. eauto.
  - apply Forall_cons in Hin as [Hi Hin]. cbn [DetermineCipv_loop].
    assert (Hstep : exists acc',
               DetermineCipv_step K M self image ground objects acc i
               = Ok acc'
               /\ (acc'.1 < Z.of_nat (length objects))%Z).
    { unfold DetermineCipv_step. destruct acc as [ci tid].
      cbn [fst] in Hacc.
      destruct (at_index_in_range objects i Hi) as (o & -> & Ho).
      cbn [mbind outcome_bind].
      destruct (Hlane o Ho) as [in_lane ->]. cbn [mbind outcome_bind].
      destruct in_lane; [|eexists; split; [reflexivity|exact Hacc]].
      destruct (Z.ltb_spec ci 0) as [Hci|Hci].
      - eexists. split; [reflexivity|]. cbn. lia.
      - destruct (at_index_in_range objects ci ltac:(lia)) as (cur & -> & _).
        cbn [mbind outcome_bind].
        destruct (Qltb _ _); eexists; (split; [reflexivity|]); cbn; lia. }
    destruct Hstep as (acc' & -> & Hacc'). cbn [mbind outcome_bind].
    now apply IH.
Qed.

(** A call of [DetermineCipv] is defined when the lanes of the frame can
    be built, the lane test is defined on every object, and the index kept
    from the previous call lies within the list. *)
Lemma DetermineCipv_defined (K : Constants) (M : Libm) (self : Cipv)
    (lane_objects : list LaneLine) (options : CipvOptions)
    (objects : list Object) (image ground : EgoLane) :
  (Z.of_nat (length objects) < 2 ^ 31)%Z ->
  frame_ego_lanes K self lane_objects options = Ok (image, ground) ->
  (forall o, o ∈ objects ->
             exists in_lane,
               IsObjectInTheLane K M self o image ground = Ok in_lane) ->
  (old_cipv_index self < Z.of_nat (length objects))%Z ->
  exists self' objects',
    DetermineCipv K M self lane_objects options objects
    = Ok (true, self', objects').
Proof.
  intros Hlen Hlanes Hlane Hold.
  unfold frame_ego_lanes in Hlanes. unfold DetermineCipv.
  apply bind_Ok in Hlanes as ([t lanes] & -> & Hlanes).
  cbn [mbind outcome_bind] in *.
  apply bind_Ok in Hlanes as ([t' gnd] & -> & Hlanes).
  cbn [mbind outcome_bind] in *. injection Hlanes as <- <-.
  rewrite to_int32_small, Nat2Z.id by lia.
  destruct (DetermineCipv_loop_defined K M self (egolane_image lanes) gnd
              objects (map Z.of_nat (seq 0 (length objects)))
              ((-1)%Z, (-1)%Z) Hlane) as [[sel tid] Hloop].
  { apply List.Forall_forall. intros i Hi.
    apply list_elem_of_In, loop_range_spec in Hi. exact Hi. }
  { cbn. lia. }
  rewrite Hloop. cbn [mbind outcome_bind].
  destruct (DetermineCipv_loop_spec K M self (egolane_image lanes) gnd
              objects _ _ _ (loop_range_nonneg (length objects)) Hloop)
    as (Hsel & _ & _).
  cbn [fst] in Hsel.
  destruct (Z.leb_spec 0 sel) as [Hpos|Hneg]; [|eauto].
  assert (Hrange : (0 <= sel < Z.of_nat (length objects))%Z).
  { destruct Hsel as [->|[Hmem _]]; [lia|].
    now apply loop_range_spec in Hmem. }
  assert (Hset : forall cleared,
             length cleared = length objects ->
             exists objects', assign_b_cipv cleared sel true = Ok objects').
  { intros cleared Hc. unfold assign_b_cipv.
    destruct (at_index_in_range cleared sel ltac:(lia)) as (o & -> & _).
    cbn. eauto. }
  destruct ((0 <=? old_cipv_index self)%Z
            && negb (old_cipv_index self =? sel)%Z) eqn:E.
  - apply andb_true_iff in E as [E _]. apply Z.leb_le in E.
    unfold assign_b_cipv at 2.
    destruct (at_index_in_range objects (old_cipv_index self) ltac:(lia))
      as (o & -> & _).
    cbn [mbind outcome_bind].
    destruct (Hset (<[Z.to_nat (old_cipv_index self)
                      := set_b_cipv o false]> objects)
                (length_insert _ _ _)) as [objects' ->].
    cbn. eauto.
  - cbn [mbind outcome_bind].
    destruct (Hset objects eq_refl) as [objects' ->]. cbn. eauto.
Qed.

(** C1, as the code has it.  Take a list of fewer than [2^31] objects on
    which the lanes of the frame can be built and the lane test is
    defined, the index kept from the previous call lying within the list.
    If no object other than the one at that index has its flag set, the
    call returns [true] and leaves at most one flag set.  It changes
    nothing but flags.  When some object of the list qualifies, the index
    the call records is that of a qualifying object and the flag of that
    object is the only one set; when none qualifies, the index recorded is
    [-1] and the list is unchanged. *)
Theorem DetermineCipv_single_selection (K : Constants) (M : Libm)
    (self : Cipv) (lane_objects : list LaneLine) (options : CipvOptions)
    (objects : list Object) (image ground : EgoLane) :
  (Z.of_nat (length objects) < 2 ^ 31)%Z ->
  frame_ego_lanes K self lane_objects options = Ok (image, ground) ->
  (forall o, o ∈ objects ->
             exists in_lane,
               IsObjectInTheLane K M self o image ground = Ok in_lane) ->
  (old_cipv_index self < Z.of_nat (length objects))%Z ->
  (forall j, flagged objects j -> Z.of_nat j = old_cipv_index self) ->
  exists self' objects',
    DetermineCipv K M self lane_objects options objects
    = Ok (true, self', objects')
    /\ at_most_one_cipv objects'
    /\ length objects' = length objects
    /\ (forall j o o', objects !! j = Some o -> objects' !! j = Some o' ->
                       o' = set_b_cipv o (b_cipv o'))
    /\ ((exists j o, objects !! j = Some o
                     /\ qualifies K M self lane_objects options o) ->
        (0 <= old_cipv_index self')%Z
        /\ (exists o, objects !! Z.to_nat (old_cipv_index self') = Some o
                      /\ qualifies K M self lane_objects options o)
        /\ forall j,
             flagged objects' j <-> Z.of_nat j = old_cipv_index self')
    /\ (~ (exists j o, objects !! j = Some o
                       /\ qualifies K M self lane_objects options o) ->
        old_cipv_index self' = (-1)%Z /\ objects' = objects).
Proof.
  intros Hlen Hlanes Hlane Hold Hpre.
  destruct (DetermineCipv_defined K M self lane_objects options objects
              image ground Hlen Hlanes Hlane Hold)
    as (self' & objects' & Hrun).
  exists self', objects'. split; [exact Hrun|].
  exact (DetermineCipv_flags K M self self' lane_objects options objects
           objects' true Hlen Hpre Hrun).
Qed.

Lemma two_cars_lane_test :
  forall o, o ∈ two_cars ->
            exists in_lane,
              IsObjectInTheLane sample_constants axis_libm identity_engine o
                frame1_lanes.1 frame1_lanes.2 = Ok in_lane.
Proof.
  intros o Ho. unfold two_cars in Ho.
  apply elem_of_cons in Ho as [->|Ho].
  - exists true. vm_compute. reflexivity.
  - apply elem_of_cons in Ho as [->|Ho].
    + exists false. vm_compute. reflexivity.
    + now apply elem_of_nil in Ho.
Defined.

Lemma DetermineCipv_single_selection_witness :
  exists self' objects',
    DetermineCipv sample_constants axis_libm identity_engine
      (lanes_around 0) cruise two_cars
    = Ok (true, self', objects')
    /\ at_most_one_cipv objects'.
Proof.
  destruct (DetermineCipv_single_selection sample_constants axis_libm
              identity_engine (lanes_around 0) cruise two_cars
              frame1_lanes.1 frame1_lanes.2 eq_refl eq_refl
              two_cars_lane_test eq_refl
              (two_cars_unflagged (old_cipv_index identity_engine)))
    as (self' & objects' & Hrun & Hone & _).
  exists self', objects'. split; [exact Hrun|exact Hone].
Defined.

(** * Further properties *)

(** ** Building the ego lane *)

Lemma append_lane_points_aligned (img : list Point2Df) (car : list Vector3d)
    (li lg : LaneLineSimple) :
  (length img <= length car)%nat ->
  exists lg',
    append_lane_points img car li lg = Ok (li ++ img, lg ++ lg')
    /\ length lg' = length img.
Proof.
  revert car li lg. induction img as [|ip img IH]; intros car li lg Hlen.
  - exists []. cbn. now rewrite !app_nil_r.
  - destruct car as [|[[x y] z] car]; [cbn in Hlen; lia|].
    cbn [append_lane_points]. cbn [length] in Hlen.
    destruct (IH car (li ++ [ip]) (lg ++ [(x, y)]) ltac:(lia))
      as (lg' & -> & Hl).
    exists ((x, y) :: lg'). rewrite <- !app_assoc. cbn [app length].
    split; [reflexivity|]. now rewrite Hl.
Qed.

Lemma GetEgoLane_step_sound (K : Constants) (acc : EgoLanes)
    (lane : LaneLine) :
  (length (curve_image_point_set lane)
   <= length (curve_car_coord_point_set lane))%nat ->
  ego_lanes_sound K acc ->
  exists acc',
    GetEgoLane_step K acc lane = Ok acc'
    /\ ego_lanes_sound K acc'
    /\ b_left_valid acc'
       = (if is_ego_left lane then long_enough K lane else b_left_valid acc)
    /\ b_right_valid acc'
       = (if is_ego_right lane then long_enough K lane
          else b_right_valid acc)
    /\ left_line (egolane_image acc')
       = left_line (egolane_image acc)
         ++ (if is_ego_left lane && long_enough K lane
             then curve_image_point_set lane else [])
    /\ right_line (egolane_image acc')
       = right_line (egolane_image acc)
         ++ (if is_ego_right lane && long_enough K lane
             then curve_image_point_set lane else []).
Proof.
  intros Hal (Hl & Hr & Hlv & Hrv).
  unfold GetEgoLane_step, is_ego_left, is_ego_right, long_enough.
  destruct (pos_type lane).
  - destruct (Z.ltb_spec (Z.of_nat (length (curve_image_point_set lane)))
                (MIN_LANE_LINE_LENGTH_FOR_CIPV_DETERMINATION K)) as [Hs|Hs].
    + eexists. split; [reflexivity|]. cbn [negb andb].
      rewrite !app_nil_r. unfold ego_lanes_sound. cbn.
      repeat split; auto; discriminate.
    + destruct (append_lane_points_aligned _ _
                  (left_line (egolane_image acc))
                  (left_line (egolane_ground acc)) Hal) as (lg' & -> & Hlg).
      cbn [mbind outcome_bind]. eexists. split; [reflexivity|].
      cbn [negb andb]. rewrite !app_nil_r. unfold ego_lanes_sound. cbn.
      rewrite !length_app. repeat split; auto; lia.
  - destruct (Z.ltb_spec (Z.of_nat (length (curve_image_point_set lane)))
                (MIN_LANE_LINE_LENGTH_FOR_CIPV_DETERMINATION K)) as [Hs|Hs].
    + eexists. split; [reflexivity|]. cbn [negb andb].
      rewrite !app_nil_r. unfold ego_lanes_sound. cbn.
      repeat split; auto; discriminate.
    + destruct (append_lane_points_aligned _ _
                  (right_line (egolane_image acc))
                  (right_line (egolane_ground acc)) Hal) as (rg' & -> & Hrg).
      cbn [mbind outcome_bind]. eexists. split; [reflexivity|].
      cbn [negb andb]. rewrite !app_nil_r. unfold ego_lanes_sound. cbn.
      rewrite !length_app. repeat split; auto; lia.
  - exists acc. cbn [andb]. rewrite !app_nil_r.
    unfold ego_lanes_sound. auto 10.
Qed.

Lemma last_from_head {A : Type} (a d : A) (l : list A) :
  List.last (a :: l) d = List.last l a.
Proof.
  revert a d. induction l as [|b l IH]; intros a d; [reflexivity|].
  change (List.last (a :: b :: l) d) with (List.last (b :: l) d).
  now rewrite !IH.
Qed.

(** The image points kept for one side are those of the lines of that
    side that are long enough, in the order of the list; the validity of a
    side is that of its last line. *)
Lemma GetEgoLane_loop_sound (K : Constants) (lane_objects : list LaneLine)
    (acc : EgoLanes) :
  aligned_lane_lines lane_objects ->
  ego_lanes_sound K acc ->
  exists acc',
    GetEgoLane_loop K lane_objects acc = Ok acc'
    /\ ego_lanes_sound K acc'
    /\ left_line (egolane_image acc')
       = left_line (egolane_image acc)
         ++ flat_map (fun lane => if is_ego_left lane && long_enough K lane
                                  then curve_image_point_set lane else [])
              lane_objects
    /\ right_line (egolane_image acc')
       = right_line (egolane_image acc)
         ++ flat_map (fun lane => if is_ego_right lane && long_enough K lane
                                  then curve_image_point_set lane else [])
              lane_objects
    /\ b_left_valid acc'
       = List.last (map (long_enough K) (List.filter is_ego_left lane_objects))
           (b_left_valid acc)
    /\ b_right_valid acc'
       = List.last
           (map (long_enough K) (List.filter is_ego_right lane_objects))
           (b_right_valid acc).
Proof.
  revert acc. induction lane_objects as [|lane lanes IH]; intros acc Hal Hacc.
  - exists acc. cbn. rewrite !app_nil_r. auto 10.
  - apply Forall_cons in Hal as [Hlane Hal].
    destruct (GetEgoLane_step_sound K acc lane Hlane Hacc)
      as (acc1 & Hstep & Hacc1 & Vl & Vr & El & Er).
    destruct (IH acc1 Hal Hacc1)
      as (acc' & Hloop & Hacc' & El' & Er' & Vl' & Vr').
    exists acc'. cbn [GetEgoLane_loop]. rewrite Hstep.
    cbn [mbind outcome_bind flat_map List.filter]. split; [exact Hloop|].
    split; [exact Hacc'|]. rewrite El', Er', El, Er, <- !app_assoc.
    split; [reflexivity|]. split; [reflexivity|].
    rewrite Vl', Vr', Vl, Vr.
    destruct (is_ego_left lane), (is_ego_right lane); cbn [map];
      rewrite ?last_from_head; auto.
Qed.

Lemma no_ego_lanes_sound (K : Constants) : ego_lanes_sound K no_ego_lanes.
Proof.
  unfold ego_lanes_sound, no_ego_lanes. cbn.
  repeat split; auto; discriminate.
Qed.

(** X3: on lane lines that have a ground point for each image point,
    [GetEgoLane] is defined and returns [true]; each boundary has as many
    ground points as image points; and the image points of a side are
    those of all the lines of that side that are long enough, one line
    after the other. *)
Theorem GetEgoLane_aligned (K : Constants) (lane_objects : list LaneLine) :
  aligned_lane_lines lane_objects ->
  exists lanes,
    GetEgoLane K lane_objects no_ego_lanes = Ok (true, lanes)
    /\ length (left_line (egolane_image lanes))
       = length (left_line (egolane_ground lanes))
    /\ length (right_line (egolane_image lanes))
       = length (right_line (egolane_ground lanes))
    /\ left_line (egolane_image lanes)
       = flat_map (fun lane => if is_ego_left lane && long_enough K lane
                               then curve_image_point_set lane else [])
           lane_objects
    /\ right_line (egolane_image lanes)
       = flat_map (fun lane => if is_ego_right lane && long_enough K lane
                               then curve_image_point_set lane else [])
           lane_objects.
Proof.
  intros Hal.
  destruct (GetEgoLane_loop_sound K lane_objects no_ego_lanes Hal
              (no_ego_lanes_sound K))
    as (acc' & Hloop & (Hl & Hr & _) & El & Er & _).
  exists acc'. unfold GetEgoLane. rewrite Hloop. cbn [mbind outcome_bind].
  auto.
Qed.

Lemma lanes_around_aligned (y : Q) : aligned_lane_lines (lanes_around y).
Proof.
  unfold aligned_lane_lines, lanes_around, straight_line.
  repeat constructor.
Defined.

Lemma GetEgoLane_aligned_witness :
  exists lanes,
    GetEgoLane sample_constants (lanes_around 0) no_ego_lanes
    = Ok (true, lanes)
    /\ length (left_line (egolane_image lanes)) = 5%nat.
Proof.
  destruct (GetEgoLane_aligned sample_constants (lanes_around 0)
              (lanes_around_aligned 0)) as (lanes & Hrun & _ & _ & El & _).
  exists lanes. split; [exact Hrun|]. rewrite El. reflexivity.
Defined.

(** X4: on aligned lane lines, the validity [GetEgoLane] reports for a
    side is that of the last line of the side in the list: [true] when that
    line is long enough, [false] when it is too short or when the list has
    no line of the side.  Points appended for an earlier line stay. *)
Theorem GetEgoLane_validity (K : Constants) (lane_objects : list LaneLine) :
  aligned_lane_lines lane_objects ->
  exists lanes,
    GetEgoLane K lane_objects no_ego_lanes = Ok (true, lanes)
    /\ b_left_valid lanes
       = List.last (map (long_enough K) (List.filter is_ego_left lane_objects))
           false
    /\ b_right_valid lanes
       = List.last
           (map (long_enough K) (List.filter is_ego_right lane_objects))
           false.
Proof.
  intros Hal.
  destruct (GetEgoLane_loop_sound K lane_objects no_ego_lanes Hal
              (no_ego_lanes_sound K))
    as (acc' & Hloop & _ & _ & _ & Vl & Vr).
  exists acc'. unfold GetEgoLane. rewrite Hloop. cbn [mbind outcome_bind].
  auto.
Qed.

Lemma long_then_stub_aligned :
  aligned_lane_lines [straight_line EGO_LEFT 2; stub_line EGO_LEFT].
Proof. repeat constructor. Defined.

Lemma GetEgoLane_validity_witness :
  exists lanes,
    GetEgoLane sample_constants
      [straight_line EGO_LEFT 2; stub_line EGO_LEFT] no_ego_lanes
    = Ok (true, lanes)
    /\ b_left_valid lanes = false
    /\ b_right_valid lanes = false.
Proof.
  destruct (GetEgoLane_validity sample_constants
              [straight_line EGO_LEFT 2; stub_line EGO_LEFT]
              long_then_stub_aligned) as (lanes & Hrun & Vl & Vr).
  exists lanes. split; [exact Hrun|]. split; [exact Vl|exact Vr].
Defined.

(** ** Elongation *)

Lemma MakeVirtualLane_length (self : Cipv) (ref : LaneLineSimple)
    (yaw offset : Q) :
  b_image_based_cipv_ self = false ->
  length (snd (MakeVirtualLane self ref yaw offset)) = length ref.
Proof.
  intros Himg. unfold MakeVirtualLane. rewrite Himg. cbn [snd].
  apply length_map.
Qed.

(** X5: when only the left boundary is valid, at the constant ordinate
    [l], [ElongateEgoLane] keeps the left boundary and synthesizes the
    right one by adding [|l| + half] to it: each synthesized point has the
    abscissa of the left point of the same index and [y = l + (|l| +
    half)]. *)
Theorem ElongateEgoLane_left_only (K : Constants) (self : Cipv)
    (lane_objects : list LaneLine) (yaw v l : Q) (image ground : EgoLane) :
  b_image_based_cipv_ self = false ->
  left_line ground <> [] ->
  Forall (fun pt => snd pt == l) (left_line ground) ->
  exists r,
    ElongateEgoLane K self lane_objects true false yaw v image ground
    = Ok (true, {| left_line := left_line ground; right_line := r |})
    /\ Forall2
         (fun pr pl =>
            fst pr = fst pl
            /\ snd pr == l + (Qabs l + EGO_CAR_HALF_VIRTUAL_LANE K))
         r (left_line ground).
Proof.
  intros Himg Hne Hall. unfold ElongateEgoLane. cbn [andb negb].
  destruct (left_line ground) as [|p0 rest] eqn:El; [congruence|].
  rewrite at_index_head. cbn [mbind outcome_bind].
  pose proof (MakeVirtualLane_points self (p0 :: rest) yaw
                (fabs (snd p0) + EGO_CAR_HALF_VIRTUAL_LANE K) Himg) as Hpts.
  destruct (MakeVirtualLane self (p0 :: rest) yaw
              (fabs (snd p0) + EGO_CAR_HALF_VIRTUAL_LANE K)) as [b r].
  cbn [snd] in Hpts. exists r. split; [reflexivity|].
  assert (H0 : snd p0 == l) by (inversion Hall; assumption).
  clear El. revert Hpts Hall. generalize (p0 :: rest) as ref.
  intros ref Hpts. induction Hpts as [|pr pl r' ref' [Hx Hy] _ IH];
    intros Hall; constructor.
  - split; [exact Hx|]. rewrite Hy. inversion Hall as [|? ? Hl _]; subst.
    unfold fabs. rewrite Hl, H0. ring.
  - apply IH. inversion Hall; assumption.
Qed.

Lemma ElongateEgoLane_left_only_witness :
  exists r,
    ElongateEgoLane sample_constants sample_engine [] true false 0 0
      no_lane left_only_lane
    = Ok (true, {| left_line := left_line left_only_lane; right_line := r |})
    /\ Forall2
         (fun pr pl =>
            fst pr = fst pl /\ snd pr == 2 + (Qabs 2 + (106 # 100)))
         r (left_line left_only_lane).
Proof.
  apply (ElongateEgoLane_left_only sample_constants sample_engine [] 0 0 2
           no_lane left_only_lane).
  - reflexivity.
  - discriminate.
  - repeat constructor.
Defined.

(** X6: a defined call of [ElongateEgoLane] returns [true] and leaves
    every valid boundary as it was.  In the ground mode a boundary
    synthesized from the other one has as many points as that one, and the
    two synthesized without any valid boundary have 24 points each; in the
    image mode whatever is synthesized is empty. *)
Theorem ElongateEgoLane_keeps_valid (K : Constants) (self : Cipv)
    (lane_objects : list LaneLine) (left_valid right_valid flag : bool)
    (yaw v : Q) (image ground lane : EgoLane) :
  ElongateEgoLane K self lane_objects left_valid right_valid yaw v image
    ground = Ok (flag, lane) ->
  flag = true
  /\ (left_valid = true -> left_line lane = left_line ground)
  /\ (right_valid = true -> right_line lane = right_line ground)
  /\ (b_image_based_cipv_ self = false ->
      (left_valid = false -> right_valid = true ->
       length (left_line lane) = length (right_line ground))
      /\ (left_valid = true -> right_valid = false ->
          length (right_line lane) = length (left_line ground))
      /\ (left_valid = false -> right_valid = false ->
          length (left_line lane) = 24%nat
          /\ length (right_line lane) = 24%nat))
  /\ (b_image_based_cipv_ self = true ->
      (left_valid = false -> left_line lane = [])
      /\ (right_valid = false -> right_line lane = [])).
Proof.
  unfold ElongateEgoLane. intros H.
  destruct left_valid, right_valid; cbn [andb negb] in H.
  - injection H as <- <-. repeat split; auto; discriminate.
  - apply bind_Ok in H as (p0 & _ & H).
    pose proof (MakeVirtualLane_length self (left_line ground) yaw
                  (fabs (snd p0) + EGO_CAR_HALF_VIRTUAL_LANE K)) as Hlen.
    unfold MakeVirtualLane in *. cbn [snd] in *.
    injection H as <- <-. cbn [left_line right_line].
    repeat split; auto; try discriminate.
    intros; match goal with
            | E : b_image_based_cipv_ _ = true |- _ => now rewrite E
            end.
  - apply bind_Ok in H as (p0 & _ & H).
    pose proof (MakeVirtualLane_length self (right_line ground) yaw
                  (- (fabs (snd p0) + EGO_CAR_HALF_VIRTUAL_LANE K))) as Hlen.
    unfold MakeVirtualLane in *. cbn [snd] in *.
    injection H as <- <-. cbn [left_line right_line].
    repeat split; auto; try discriminate.
    intros; match goal with
            | E : b_image_based_cipv_ _ = true |- _ => now rewrite E
            end.
  - pose proof (MakeVirtualEgoLaneFromYawRate_points self yaw v
                  (EGO_CAR_HALF_VIRTUAL_LANE K)) as Hpts.
    unfold MakeVirtualEgoLaneFromYawRate in *. cbn [snd] in *.
    destruct (b_image_based_cipv_ self) eqn:Himg.
    + injection H as <- <-. cbn [left_line right_line].
      repeat split; auto; discriminate.
    + specialize (Hpts eq_refl).
      destruct (fold_left _ _ _) as [l r].
      apply pair_equal_spec in Hpts as [-> ->].
      injection H as <- <-. cbn [left_line right_line].
      repeat split; auto; discriminate.
Qed.

Lemma ElongateEgoLane_keeps_valid_witness :
  exists lane,
    ElongateEgoLane sample_constants sample_engine [] false true 0 0
      no_lane right_only_lane = Ok (true, lane)
    /\ right_line lane = right_line right_only_lane
    /\ length (left_line lane) = 2%nat.
Proof.
  assert (Hrun : ElongateEgoLane sample_constants sample_engine [] false
                   true 0 0 no_lane right_only_lane
                 = Ok (true,
                       {| left_line := [(0, -1 + - (Qabs (-1) + (106 # 100)));
                                        (10, -1 + - (Qabs (-1) + (106 # 100)))];
                          right_line := right_line right_only_lane |}))
    by reflexivity.
  eexists. split; [exact Hrun|].
  destruct (ElongateEgoLane_keeps_valid _ _ _ _ _ _ _ _ _ _ _ Hrun)
    as (_ & _ & Hr & Hg & _).
  split; [exact (Hr eq_refl)|].
  exact (proj1 (Hg eq_refl) eq_refl eq_refl).
Defined.

Lemma ElongateEgoLane_defined (K : Constants) (self : Cipv)
    (lane_objects : list LaneLine) (lanes : EgoLanes) (yaw v : Q) :
  (1 <= MIN_LANE_LINE_LENGTH_FOR_CIPV_DETERMINATION K)%Z ->
  ego_lanes_sound K lanes ->
  exists ground,
    ElongateEgoLane K self lane_objects (b_left_valid lanes)
      (b_right_valid lanes) yaw v (egolane_image lanes)
      (egolane_ground lanes) = Ok (true, ground)
    /\ (b_image_based_cipv_ self = false ->
        (MIN_LANE_LINE_LENGTH_FOR_CIPV_DETERMINATION K <= 24)%Z ->
        (MIN_LANE_LINE_LENGTH_FOR_CIPV_DETERMINATION K
         <= Z.of_nat (length (left_line ground)))%Z
        /\ (MIN_LANE_LINE_LENGTH_FOR_CIPV_DETERMINATION K
            <= Z.of_nat (length (right_line ground)))%Z).
Proof.
  intros Hmin (_ & _ & Hlv & Hrv). unfold ElongateEgoLane.
  destruct (b_left_valid lanes), (b_right_valid lanes); cbn [andb negb].
  - eexists. split; [reflexivity|]. auto.
  - specialize (Hlv eq_refl).
    destruct (left_line (egolane_ground lanes)) as [|p0 rest] eqn:E;
      [cbn in Hlv; lia|].
    rewrite at_index_head. cbn [mbind outcome_bind].
    pose proof (MakeVirtualLane_length self (p0 :: rest) yaw
                  (fabs (snd p0) + EGO_CAR_HALF_VIRTUAL_LANE K)) as Hlen.
    destruct (MakeVirtualLane self (p0 :: rest) yaw _) as [b r].
    cbn [snd] in Hlen. eexists. split; [reflexivity|].
    intros Himg _. cbn [left_line right_line]. rewrite (Hlen Himg). auto.
  - specialize (Hrv eq_refl).
    destruct (right_line (egolane_ground lanes)) as [|p0 rest] eqn:E;
      [cbn in Hrv; lia|].
    rewrite at_index_head. cbn [mbind outcome_bind].
    pose proof (MakeVirtualLane_length self (p0 :: rest) yaw
                  (- (fabs (snd p0) + EGO_CAR_HALF_VIRTUAL_LANE K))) as Hlen.
    destruct (MakeVirtualLane self (p0 :: rest) yaw _) as [b l].
    cbn [snd] in Hlen. eexists. split; [reflexivity|].
    intros Himg _. cbn [left_line right_line]. rewrite (Hlen Himg). auto.
  - pose proof (MakeVirtualEgoLaneFromYawRate_points self yaw v
                  (EGO_CAR_HALF_VIRTUAL_LANE K)) as Hpts.
    destruct (MakeVirtualEgoLaneFromYawRate self yaw v _) as [b [l r]].
    cbn [snd] in Hpts. eexists. split; [reflexivity|].
    intros Himg H24. apply Hpts in Himg.
    apply pair_equal_spec in Himg as [-> ->].
    cbn [left_line right_line]. rewrite !repeat_length. lia.
Qed.

(** X7: on aligned lane lines, with a minimum line length of at least
    one, the ego lanes of a frame are always defined, whatever lines are
    missing; in the ground mode, with a minimum of at most 24, each ground
    boundary that results has at least the minimum number of points. *)
Theorem frame_ego_lanes_defined (K : Constants) (self : Cipv)
    (lane_objects : list LaneLine) (options : CipvOptions) :
  aligned_lane_lines lane_objects ->
  (1 <= MIN_LANE_LINE_LENGTH_FOR_CIPV_DETERMINATION K)%Z ->
  exists image ground,
    frame_ego_lanes K self lane_objects options = Ok (image, ground)
    /\ (b_image_based_cipv_ self = false ->
        (MIN_LANE_LINE_LENGTH_FOR_CIPV_DETERMINATION K <= 24)%Z ->
        (MIN_LANE_LINE_LENGTH_FOR_CIPV_DETERMINATION K
         <= Z.of_nat (length (left_line ground)))%Z
        /\ (MIN_LANE_LINE_LENGTH_FOR_CIPV_DETERMINATION K
            <= Z.of_nat (length (right_line ground)))%Z).
Proof.
  intros Hal Hmin.
  destruct (GetEgoLane_loop_sound K lane_objects no_ego_lanes Hal
              (no_ego_lanes_sound K)) as (lanes & Hloop & Hsound & _).
  destruct (ElongateEgoLane_defined K self lane_objects lanes
              (yaw_rate options) (velocity options) Hmin Hsound)
    as (ground & Hel & Hlen).
  exists (egolane_image lanes), ground.
  unfold frame_ego_lanes, GetEgoLane. rewrite Hloop.
  cbn [mbind outcome_bind]. rewrite Hel. cbn [mbind outcome_bind].
  auto.
Qed.

Lemma frame_ego_lanes_defined_witness :
  exists image ground,
    frame_ego_lanes sample_constants identity_engine
      [straight_line EGO_LEFT 2; stub_line EGO_LEFT] cruise
    = Ok (image, ground)
    /\ (2 <= Z.of_nat (length (left_line ground)))%Z
    /\ (2 <= Z.of_nat (length (right_line ground)))%Z.
Proof.
  destruct (frame_ego_lanes_defined sample_constants identity_engine
              [straight_line EGO_LEFT 2; stub_line EGO_LEFT] cruise
              long_then_stub_aligned ltac:(cbn; lia))
    as (image & ground & Hrun & Hlen).
  exists image, ground. split; [exact Hrun|].
  exact (Hlen eq_refl ltac:(cbn; lia)).
Defined.

(** ** Sides of a line *)



(** ** The nearest segment of a lane line *)

Lemma closest_segment_loop_spec (K : Constants) (M : Libm) (pt : Point2Df)
    (line : list Point2Df) (i ci : Z) (sd : Q) (ci' : Z) (sd' : Q) :
  closest_segment_loop K M pt line i ci sd = (ci', sd') ->
  sd' <= sd
  /\ (forall k a b d,
        line !! k = Some a -> line !! S k = Some b ->
        DistanceFromPointToLineSegment K M pt a b = Some d -> sd' <= d)
  /\ ((ci' = ci /\ sd' = sd)
      \/ exists k a b,
           ci' = (i + Z.of_nat k)%Z
           /\ line !! k = Some a /\ line !! S k = Some b
           /\ DistanceFromPointToLineSegment K M pt a b = Some sd'
           /\ sd' < sd
           /\ forall k' a' b' d',
                (k' < k)%nat ->
                line !! k' = Some a' -> line !! S k' = Some b' ->
                DistanceFromPointToLineSegment K M pt a' b' = Some d' ->
                sd' < d').
Proof.
  revert i ci sd.
  induction line as [|a line IH]; intros i ci sd H.
  - injection H as <- <-. split; [lra|]. split; [|left; auto].
    intros k a b d Hk. now rewrite lookup_nil in Hk.
  - destruct line as [|b rest].
    + injection H as <- <-. split; [lra|]. split; [|left; auto].
      intros [|k] a' b' d Hk Hk'; cbn in Hk'; discriminate.
    + cbn [closest_segment_loop] in H.
      destruct (DistanceFromPointToLineSegment K M pt a b) as [d0|] eqn:Ed.
      * destruct (Qltb d0 sd) eqn:Elt;
          [apply Qltb_lt in Elt | apply Qltb_ge in Elt];
          apply IH in H as (Hle & Hmin & Hsel).
        -- split; [lra|]. split.
           ++ intros [|k] a' b' d Hk Hk' Hd.
              ** cbn in Hk, Hk'. injection Hk as <-. injection Hk' as <-.
                 rewrite Ed in Hd. injection Hd as <-. exact Hle.
              ** exact (Hmin k a' b' d Hk Hk' Hd).
           ++ right. destruct Hsel as [[-> ->]|(k & a' & b' & -> & Hk & Hk'
                                                & Hd & Hlt & Hfirst)].
              ** exists 0%nat, a, b. rewrite Z.add_0_r.
                 repeat split; auto. intros k' ? ? ? Hk'. lia.
              ** exists (S k), a', b'.
                 split; [lia|]. repeat split; auto; [lra|].
                 intros [|k'] a2 b2 d2 Hlt' Hk2 Hk2' Hd2.
                 --- cbn in Hk2, Hk2'. injection Hk2 as <-.
                     injection Hk2' as <-. rewrite Ed in Hd2.
                     injection Hd2 as <-. exact Hlt.
                 --- apply (Hfirst k' a2 b2 d2); auto. lia.
        -- split; [exact Hle|]. split.
           ++ intros [|k] a' b' d Hk Hk' Hd.
              ** cbn in Hk, Hk'. injection Hk as <-. injection Hk' as <-.
                 rewrite Ed in Hd. injection Hd as <-. lra.
              ** exact (Hmin k a' b' d Hk Hk' Hd).
           ++ destruct Hsel as [Hsame|(k & a' & b' & -> & Hk & Hk'
                                       & Hd & Hlt & Hfirst)];
                [left; exact Hsame|right].
              exists (S k), a', b'.
              split; [lia|]. repeat split; auto.
              intros [|k'] a2 b2 d2 Hlt' Hk2 Hk2' Hd2.
              ** cbn in Hk2, Hk2'. injection Hk2 as <-.
                 injection Hk2' as <-. rewrite Ed in Hd2.
                 injection Hd2 as <-. lra.
              ** apply (Hfirst k' a2 b2 d2); auto. lia.
      * apply IH in H as (Hle & Hmin & Hsel).
        split; [exact Hle|]. split.
        -- intros [|k] a' b' d Hk Hk' Hd.
           ++ cbn in Hk, Hk'. injection Hk as <-. injection Hk' as <-.
              rewrite Ed in Hd. discriminate.
           ++ exact (Hmin k a' b' d Hk Hk' Hd).
        -- destruct Hsel as [Hsame|(k & a' & b' & -> & Hk & Hk'
                                    & Hd & Hlt & Hfirst)];
             [left; exact Hsame|right].
           exists (S k), a', b'.
           split; [lia|]. repeat split; auto.
           intros [|k'] a2 b2 d2 Hlt' Hk2 Hk2' Hd2.
           ++ cbn in Hk2, Hk2'. injection Hk2 as <-.
              injection Hk2' as <-. rewrite Ed in Hd2. discriminate.
           ++ apply (Hfirst k' a2 b2 d2); auto. lia.
Qed.

Lemma closest_segment_spec (K : Constants) (M : Libm) (pt : Point2Df)
    (line : list Point2Df) (ci : Z) (sd : Q) :
  closest_segment K M pt line = (ci, sd) ->
  (forall k a b d,
     line !! k = Some a -> line !! S k = Some b ->
     DistanceFromPointToLineSegment K M pt a b = Some d -> sd <= d)
  /\ ((ci = (-1)%Z /\ sd = MAX_FLOAT K)
      \/ exists k a b,
           ci = Z.of_nat k
           /\ line !! k = Some a /\ line !! S k = Some b
           /\ DistanceFromPointToLineSegment K M pt a b = Some sd
           /\ sd < MAX_FLOAT K
           /\ forall k' a' b' d',
                (k' < k)%nat ->
                line !! k' = Some a' -> line !! S k' = Some b' ->
                DistanceFromPointToLineSegment K M pt a' b' = Some d' ->
                sd < d').
Proof.
  unfold closest_segment. intros H.
  apply closest_segment_loop_spec in H as (_ & Hmin & Hsel).
  split; [exact Hmin|].
  destruct Hsel as [Hsame|(k & a & b & -> & Hrest)]; [left; exact Hsame|].
  right. exists k, a, b. split; [lia|exact Hrest].
Qed.

(** X9: the search for the nearest segment of a lane line.  The distance
    it ends on is at most the distance to every segment of non-zero
    length.  Either no segment is closer than [MAX_FLOAT] and the index is
    [-1], or the index is that of a segment at exactly that distance, and
    every earlier segment is strictly farther: of several nearest segments
    the first is kept. *)
Theorem closest_segment_nearest (K : Constants) (M : Libm) (pt : Point2Df)
    (line : list Point2Df) :
  (forall k a b d,
     line !! k = Some a -> line !! S k = Some b ->
     DistanceFromPointToLineSegment K M pt a b = Some d ->
     snd (closest_segment K M pt line) <= d)
  /\ ((fst (closest_segment K M pt line) = (-1)%Z
       /\ snd (closest_segment K M pt line) = MAX_FLOAT K)
      \/ exists k a b,
           fst (closest_segment K M pt line) = Z.of_nat k
           /\ line !! k = Some a /\ line !! S k = Some b
           /\ DistanceFromPointToLineSegment K M pt a b
              = Some (snd (closest_segment K M pt line))
           /\ snd (closest_segment K M pt line) < MAX_FLOAT K
           /\ forall k' a' b' d',
                (k' < k)%nat ->
                line !! k' = Some a' -> line !! S k' = Some b' ->
                DistanceFromPointToLineSegment K M pt a' b' = Some d' ->
                snd (closest_segment K M pt line) < d').
Proof.
  destruct (closest_segment K M pt line) as [ci sd] eqn:E.
  cbn [fst snd]. now apply closest_segment_spec.
Qed.

(** ** The near face of an object *)

(** What [FindClosestEdgeOfObjectGround] returns for an object that
    passes the size test and whose corners could be computed. *)
Lemma FindClosestEdgeOfObjectGround_corners (K : Constants) (M : Libm)
    (self : Cipv) (object : Object) (lane : EgoLane)
    (edge0 : LineSegment2Df) (p : list Point2Df) :
  degenerate_size object = false ->
  footprint_corners M self object = Ok p ->
  Forall (fun pt => fst pt <= MAX_FLOAT K) p ->
  exists (ci si : nat) (pc ps : Point2Df),
    FindClosestEdgeOfObjectGround K M self object lane edge0
    = Ok (negb (Qltb (fst pc) 0), near_face pc ps)
    /\ ci <> si
    /\ nth_error p ci = Some pc
    /\ nth_error p si = Some ps
    /\ (forall j q, nth_error p j = Some q -> fst pc <= fst q)
    /\ (forall j q, nth_error p j = Some q -> j <> ci -> fst ps <= fst q).
Proof.
  intros Hsize Hp Hfin.
  destruct (footprint_corners_four M self object p Hp)
    as (a & b & c & d & ->).
  destruct (closest_scan_four K a b c d Hfin)
    as (ci & si & pc & ps & Hci & Hsi & Hne & Hpc & Hps & Hmin & Hsnd).
  exists ci, si, pc, ps. split; [|auto].
  unfold FindClosestEdgeOfObjectGround. rewrite Hsize, Hp.
  cbn [mbind outcome_bind]. rewrite Hci, Hsi.
  rewrite (at_index_of_nat _ _ _ Hpc), (at_index_of_nat _ _ _ Hps).
  cbn [mbind outcome_bind]. now destruct (Qltb (fst pc) 0).
Qed.

(** X10: an object that passes the size test and has no footprint corner
    of negative [x] makes [FindClosestEdgeOfObjectGround] return [true]
    with the near face, whatever the out-parameter held: the segment
    between a corner of least [x] and a corner of least [x] among the
    others, starting at the one of larger [y]; both ends are in front of
    the ego vehicle. *)
Theorem FindClosestEdgeOfObjectGround_in_front (K : Constants) (M : Libm)
    (self : Cipv) (object : Object) (lane : EgoLane)
    (edge0 : LineSegment2Df) (p : list Point2Df) :
  degenerate_size object = false ->
  footprint_corners M self object = Ok p ->
  Forall (fun pt => fst pt <= MAX_FLOAT K) p ->
  Forall (fun pt => 0 <= fst pt) p ->
  exists (ci si : nat) (pc ps : Point2Df) (edge : LineSegment2Df),
    FindClosestEdgeOfObjectGround K M self object lane edge0
    = Ok (true, edge)
    /\ ci <> si
    /\ nth_error p ci = Some pc
    /\ nth_error p si = Some ps
    /\ (forall j q, nth_error p j = Some q -> fst pc <= fst q)
    /\ (forall j q, nth_error p j = Some q -> j <> ci -> fst ps <= fst q)
    /\ ((start_point edge = pc /\ end_point edge = ps)
        \/ (start_point edge = ps /\ end_point edge = pc))
    /\ snd (end_point edge) <= snd (start_point edge)
    /\ 0 <= fst (start_point edge) /\ 0 <= fst (end_point edge).
Proof.
  intros Hsize Hp Hfin Hpos.
  destruct (FindClosestEdgeOfObjectGround_corners K M self object lane
              edge0 p Hsize Hp Hfin)
    as (ci & si & pc & ps & Hrun & Hne & Hpc & Hps & Hmin & Hsnd).
  assert (Hpc0 : 0 <= fst pc).
  { apply nth_error_In in Hpc.
    exact (proj1 (List.Forall_forall _ _) Hpos pc Hpc). }
  assert (Hps0 : 0 <= fst ps).
  { apply nth_error_In in Hps.
    exact (proj1 (List.Forall_forall _ _) Hpos ps Hps). }
  exists ci, si, pc, ps, (near_face pc ps).
  split.
  - rewrite Hrun. apply Qltb_ge in Hpc0. now rewrite Hpc0.
  - destruct (near_face_ordered pc ps) as [Hends Hord].
    repeat (split; [assumption|]).
    destruct Hends as [[-> ->]|[-> ->]]; auto.
Qed.

Lemma FindClosestEdgeOfObjectGround_in_front_witness :
  exists (ci si : nat) (pc ps : Point2Df) (edge : LineSegment2Df),
    FindClosestEdgeOfObjectGround sample_constants axis_libm identity_engine
      lead_car no_lane stale_edge
    = Ok (true, edge)
    /\ ci <> si
    /\ nth_error lead_car_corners ci = Some pc
    /\ nth_error lead_car_corners si = Some ps
    /\ (forall j q, nth_error lead_car_corners j = Some q ->
                    fst pc <= fst q)
    /\ (forall j q, nth_error lead_car_corners j = Some q -> j <> ci ->
                    fst ps <= fst q)
    /\ ((start_point edge = pc /\ end_point edge = ps)
        \/ (start_point edge = ps /\ end_point edge = pc))
    /\ snd (end_point edge) <= snd (start_point edge)
    /\ 0 <= fst (start_point edge) /\ 0 <= fst (end_point edge).
Proof.
  apply (FindClosestEdgeOfObjectGround_in_front sample_constants axis_libm
           identity_engine lead_car no_lane stale_edge lead_car_corners).
  - vm_compute. reflexivity.
  - vm_compute. reflexivity.
  - unfold lead_car_corners. repeat constructor; vm_compute; discriminate.
  - unfold lead_car_corners. repeat constructor; vm_compute; discriminate.
Defined.

(** ** Acceptance and rejection by the lane test *)

Lemma at_index_lookup {A : Type} (v : list A) (n : nat) (a : A) :
  v !! n = Some a -> at_index v (Z.of_nat n) = Ok a.
Proof. intros H. apply at_index_of_nat. now rewrite nth_error_lookup. Qed.

(** The side test against the nearest segment of a line, as the two
    halves of [IsObjectInTheLaneGround] make it. *)
Lemma nearest_segment_side (K : Constants) (M : Libm) (pt : Point2Df)
    (line : list Point2Df) (want_left clear : bool) :
  (let '(closest_index, _) := closest_segment K M pt line in
   if (0 <=? closest_index)%Z then
     a ← at_index line closest_index;
     b ← at_index line (closest_index + 1);
     Ok (if want_left then IsPointLeftOfLine pt a b
         else negb (IsPointLeftOfLine pt a b))
   else Ok false) = Ok clear ->
  clear = true ->
  exists k a b,
    fst (closest_segment K M pt line) = Z.of_nat k
    /\ line !! k = Some a /\ line !! S k = Some b
    /\ DistanceFromPointToLineSegment K M pt a b
       = Some (snd (closest_segment K M pt line))
    /\ IsPointLeftOfLine pt a b = want_left.
Proof.
  destruct (closest_segment K M pt line) as [ci sd] eqn:E.
  apply closest_segment_spec in E as [_ [[-> _]|(k & a & b & -> & Hk & Hk'
                                                 & Hd & _)]].
  - cbn. intros [= <-]. discriminate.
  - destruct (0 <=? Z.of_nat k)%Z eqn:E0; [|apply Z.leb_gt in E0; lia].
    rewrite (at_index_lookup _ _ _ Hk).
    replace (Z.of_nat k + 1)%Z with (Z.of_nat (S k)) by lia.
    rewrite (at_index_lookup _ _ _ Hk'). cbn [mbind outcome_bind].
    intros [= <-] Hc. exists k, a, b. cbn [fst snd].
    repeat (split; [assumption || reflexivity|]).
    destruct want_left, (IsPointLeftOfLine pt a b); auto; discriminate.
Qed.

(** What a result of [true] of the lane test implies. *)
Lemma IsObjectInTheLaneGround_true_inv (K : Constants) (M : Libm)
    (self : Cipv) (object : Object) (lane : EgoLane) :
  IsObjectInTheLaneGround K M self object lane = Ok true ->
  exists edge,
    FindClosestEdgeOfObjectGround K M self object lane unset_edge
    = Ok (true, edge)
    /\ (2 <= length (left_line lane))%nat
    /\ (2 <= length (right_line lane))%nat
    /\ (exists k a b,
          fst (closest_segment K M (end_point edge) (left_line lane))
          = Z.of_nat k
          /\ left_line lane !! k = Some a /\ left_line lane !! S k = Some b
          /\ DistanceFromPointToLineSegment K M (end_point edge) a b
             = Some (snd (closest_segment K M (end_point edge)
                            (left_line lane)))
          /\ IsPointLeftOfLine (end_point edge) a b = false)
    /\ (exists k a b,
          fst (closest_segment K M (start_point edge) (right_line lane))
          = Z.of_nat k
          /\ right_line lane !! k = Some a /\ right_line lane !! S k = Some b
          /\ DistanceFromPointToLineSegment K M (start_point edge) a b
             = Some (snd (closest_segment K M (start_point edge)
                            (right_line lane)))
          /\ IsPointLeftOfLine (start_point edge) a b = true).
Proof.
  unfold IsObjectInTheLaneGround. intros H.
  apply bind_Ok in H as ([valid edge] & Hedge & H).
  destruct valid; cbn [negb] in H; [|discriminate].
  exists edge. split; [exact Hedge|].
  destruct (Z.leb_spec (Z.of_nat (length (left_line lane))) 1) as [Hl|Hl];
    [discriminate|].
  split; [lia|].
  match type of H with
  | (let '(ci, _) := ?c in ?l ≫= ?k) = _ =>
      assert (Hleft : exists clear,
                 (let '(ci, _) := c in l) = Ok clear
                 /\ k clear = Ok true)
  end.
  { destruct (closest_segment K M (end_point edge) (left_line lane)).
    apply bind_Ok in H. exact H. }
  clear H. destruct Hleft as (bl & Hleft & H).
  destruct (Z.leb_spec (Z.of_nat (length (right_line lane))) 1) as [Hr|Hr];
    [discriminate|].
  split; [lia|].
  match type of H with
  | (let '(ci, _) := ?c in ?l ≫= ?k) = _ =>
      assert (Hright : exists clear,
                 (let '(ci, _) := c in l) = Ok clear
                 /\ k clear = Ok true)
  end.
  { destruct (closest_segment K M (start_point edge) (right_line lane)).
    apply bind_Ok in H. exact H. }
  clear H. destruct Hright as (br & Hright & H).
  assert (Hboth : bl = true /\ br = true).
  { destruct (AreDistancesSane K 0 0 0 0); [|discriminate].
    injection H as H. now apply andb_true_iff in H. }
  destruct Hboth as [-> ->]. split.
  - exact (nearest_segment_side K M (end_point edge) (left_line lane)
             false true Hleft eq_refl).
  - exact (nearest_segment_side K M (start_point edge) (right_line lane)
             true true Hright eq_refl).
Qed.

(** X11: what acceptance means.  When [IsObjectInTheLaneGround] returns
    [true], the near face of the object was found with its nearest corner
    not behind the ego vehicle, both boundaries have at least two points,
    the end point of the face is not left of the segment of the left
    boundary nearest to it, and the start point is left of the segment of
    the right boundary nearest to it. *)
Theorem IsObjectInTheLaneGround_accepts (K : Constants) (M : Libm)
    (self : Cipv) (object : Object) (lane : EgoLane) :
  IsObjectInTheLaneGround K M self object lane = Ok true ->
  exists edge,
    FindClosestEdgeOfObjectGround K M self object lane unset_edge
    = Ok (true, edge)
    /\ (2 <= length (left_line lane))%nat
    /\ (2 <= length (right_line lane))%nat
    /\ (exists k a b,
          fst (closest_segment K M (end_point edge) (left_line lane))
          = Z.of_nat k
          /\ left_line lane !! k = Some a /\ left_line lane !! S k = Some b
          /\ DistanceFromPointToLineSegment K M (end_point edge) a b
             = Some (snd (closest_segment K M (end_point edge)
                            (left_line lane)))
          /\ IsPointLeftOfLine (end_point edge) a b = false)
    /\ (exists k a b,
          fst (closest_segment K M (start_point edge) (right_line lane))
          = Z.of_nat k
          /\ right_line lane !! k = Some a /\ right_line lane !! S k = Some b
          /\ DistanceFromPointToLineSegment K M (start_point edge) a b
             = Some (snd (closest_segment K M (start_point edge)
                            (right_line lane)))
          /\ IsPointLeftOfLine (start_point edge) a b = true).
Proof. apply IsObjectInTheLaneGround_true_inv. Qed.

Lemma IsObjectInTheLaneGround_accepts_witness :
  exists edge,
    FindClosestEdgeOfObjectGround sample_constants axis_libm identity_engine
      lead_car wide_lane unset_edge = Ok (true, edge)
    /\ (2 <= length (left_line wide_lane))%nat
    /\ (2 <= length (right_line wide_lane))%nat.
Proof.
  destruct (IsObjectInTheLaneGround_accepts sample_constants axis_libm
              identity_engine lead_car wide_lane eq_refl)
    as (edge & Hedge & Hl & Hr & _).
  exists edge. auto.
Defined.

(** X12: what the lane test never accepts: an object that fails the size
    test, an object with a footprint corner behind the ego vehicle, and any
    object when a boundary of the lane has fewer than two points.  The
    result is then [false], or is not defined. *)
Theorem IsObjectInTheLaneGround_rejects (K : Constants) (M : Libm)
    (self : Cipv) (object : Object) (lane : EgoLane) :
  degenerate_size object = true
  \/ (exists p, footprint_corners M self object = Ok p
                /\ Forall (fun pt => fst pt <= MAX_FLOAT K) p
                /\ Exists (fun pt => fst pt < 0) p)
  \/ (length (left_line lane) <= 1)%nat
  \/ (length (right_line lane) <= 1)%nat ->
  IsObjectInTheLaneGround K M self object lane = Ok false
  \/ IsObjectInTheLaneGround K M self object lane = Undefined.
Proof.
  intros Hwhy.
  destruct (IsObjectInTheLaneGround K M self object lane) as [[|]|] eqn:E;
    [exfalso|auto..].
  apply IsObjectInTheLaneGround_true_inv in E
    as (edge & Hedge & Hl & Hr & _).
  destruct Hwhy as [Hdeg|[(p & Hp & Hfin & Hneg)|[Hs|Hs]]]; [| |lia..].
  - rewrite (FindClosestEdgeOfObjectGround_degenerate _ _ _ _ _ _ Hdeg)
      in Hedge. discriminate.
  - destruct (degenerate_size object) eqn:Hdeg.
    + rewrite (FindClosestEdgeOfObjectGround_degenerate _ _ _ _ _ _ Hdeg)
        in Hedge. discriminate.
    + destruct (FindClosestEdgeOfObjectGround_corners K M self object lane
                  unset_edge p Hdeg Hp Hfin)
        as (ci & si & pc & ps & Hrun & _ & _ & _ & Hmin & _).
      rewrite Hrun in Hedge. injection Hedge as Hflag _.
      apply negb_true_iff, Qltb_ge in Hflag.
      apply List.Exists_exists in Hneg. destruct Hneg as (q & Hin & Hq).
      apply In_nth_error in Hin. destruct Hin as [j Hj].
      specialize (Hmin j q Hj). lra.
Qed.

Lemma behind_object_has_corner_behind :
  exists p, footprint_corners axis_libm identity_engine behind_object = Ok p
            /\ Forall (fun pt => fst pt <= MAX_FLOAT sample_constants) p
            /\ Exists (fun pt => fst pt < 0) p.
Proof.
  exists behind_corners. split; [vm_compute; reflexivity|]. split.
  - unfold behind_corners. repeat constructor; vm_compute; discriminate.
  - unfold behind_corners. apply Exists_cons_hd. vm_compute. reflexivity.
Defined.

Lemma IsObjectInTheLaneGround_rejects_witness :
  IsObjectInTheLaneGround sample_constants axis_libm identity_engine
    behind_object wide_lane = Ok false
  \/ IsObjectInTheLaneGround sample_constants axis_libm identity_engine
       behind_object wide_lane = Undefined.
Proof.
  apply IsObjectInTheLaneGround_rejects. right. left.
  exact behind_object_has_corner_behind.
Defined.

(** X13: the two thresholds of the distance gate have no effect on the
    lane test.  With any thresholds that are not negative in place of
    those of the header, [IsObjectInTheLaneGround] gives the same result
    on every object and lane. *)
Theorem IsObjectInTheLaneGround_thresholds_inert (K : Constants) (M : Libm)
    (self : Cipv) (object : Object) (lane : EgoLane)
    (max_dist max_width : Q) :
  0 <= MAX_DIST_OBJECT_TO_LANE_METER K ->
  0 <= MAX_VEHICLE_WIDTH_METER K ->
  0 <= max_dist ->
  0 <= max_width ->
  IsObjectInTheLaneGround (with_thresholds K max_dist max_width) M self
    object lane
  = IsObjectInTheLaneGround K M self object lane.
Proof.
  intros Hd Hw Hd' Hw'. unfold IsObjectInTheLaneGround.
  rewrite (AreDistancesSane_zero K Hd Hw).
  rewrite (AreDistancesSane_zero (with_thresholds K max_dist max_width)
             Hd' Hw').
  reflexivity.
Qed.

Lemma IsObjectInTheLaneGround_thresholds_inert_witness :
  IsObjectInTheLaneGround (with_thresholds sample_constants 1 1) axis_libm
    identity_engine lead_car wide_lane
  = IsObjectInTheLaneGround sample_constants axis_libm identity_engine
      lead_car wide_lane.
Proof.
  apply IsObjectInTheLaneGround_thresholds_inert; vm_compute; discriminate.
Defined.

(** ** Which object is selected *)

Lemma at_index_functional {A : Type} (v : list A) (i : Z) (a b : A) :
  at_index v i = Ok a -> at_index v i = Ok b -> a = b.
Proof. intros -> [= ->]. reflexivity. Qed.

Lemma DetermineCipv_step_cases (K : Constants) (M : Libm) (self : Cipv)
    (image ground : EgoLane) (objects : list Object) (acc acc' : Z * Z)
    (i : Z) :
  DetermineCipv_step K M self image ground objects acc i = Ok acc' ->
  exists oi in_lane,
    at_index objects i = Ok oi
    /\ IsObjectInTheLane K M self oi image ground = Ok in_lane
    /\ ((in_lane = false /\ acc' = acc)
        \/ (in_lane = true /\ (acc.1 < 0)%Z /\ acc'.1 = i)
        \/ (in_lane = true /\ (0 <= acc.1)%Z
            /\ exists oa, at_index objects acc.1 = Ok oa
                          /\ center_0 oi < center_0 oa /\ acc'.1 = i)
        \/ (in_lane = true /\ (0 <= acc.1)%Z
            /\ exists oa, at_index objects acc.1 = Ok oa
                          /\ center_0 oa <= center_0 oi /\ acc' = acc)).
Proof.
  unfold DetermineCipv_step. destruct acc as [ci tid]. intros H.
  apply bind_Ok in H as (oi & Hoi & H).
  apply bind_Ok in H as (in_lane & Hin & H).
  exists oi, in_lane. split; [exact Hoi|]. split; [exact Hin|].
  destruct in_lane.
  - destruct (Z.ltb_spec ci 0) as [Hci|Hci].
    + injection H as <-. right. left. auto.
    + apply bind_Ok in H as (oa & Hoa & H). right. right. cbn [fst].
      destruct (Qltb (center_0 oi) (center_0 oa)) eqn:E;
        [apply Qltb_lt in E | apply Qltb_ge in E]; injection H as <-.
      * left. split; [reflexivity|]. split; [exact Hci|]. eauto.
      * right. split; [reflexivity|]. split; [exact Hci|]. eauto.
  - left. split; [reflexivity|]. now injection H as <-.
Qed.

(** The selection loop over the indices [s, s + 1, ..., s + n - 1],
    entered with a selection that lies before them. *)
Lemma DetermineCipv_loop_least (K : Constants) (M : Libm) (self : Cipv)
    (image ground : EgoLane) (objects : list Object) (n s : nat)
    (acc res : Z * Z) :
  (acc.1 < Z.of_nat s)%Z ->
  DetermineCipv_loop K M self image ground objects
    (map Z.of_nat (seq s n)) acc = Ok res ->
  (forall oa, (0 <= acc.1)%Z -> at_index objects acc.1 = Ok oa ->
     exists osel,
       at_index objects res.1 = Ok osel
       /\ center_0 osel <= center_0 oa
       /\ (center_0 oa <= center_0 osel -> res.1 = acc.1))
  /\ (forall i o,
        (Z.of_nat s <= i < Z.of_nat (s + n))%Z ->
        at_index objects i = Ok o ->
        IsObjectInTheLane K M self o image ground = Ok true ->
        exists osel,
          at_index objects res.1 = Ok osel
          /\ center_0 osel <= center_0 o
          /\ (center_0 o <= center_0 osel -> (res.1 <= i)%Z)).
Proof.
  revert s acc. induction n as [|n IH]; intros s acc Hacc H.
  - cbn in H. injection H as <-. split.
    + intros oa _ Hoa. exists oa. split; [exact Hoa|]. split; [lra|auto].
    + intros i o Hi. lia.
  - cbn [seq map DetermineCipv_loop] in H.
    apply bind_Ok in H as (acc' & Hstep & H).
    apply DetermineCipv_step_cases in Hstep
      as (oi & in_lane & Hoi & Hin & Hcases).
    assert (Hacc' : (acc'.1 < Z.of_nat (S s))%Z).
    { destruct Hcases as [[_ ->]|[(_ & _ & ->)|[(_ & _ & oa & _ & _ & ->)
                                               |(_ & _ & oa & _ & _ & ->)]]];
        lia. }
    destruct (IH (S s) acc' Hacc' H) as [IHa IHb].
    assert (Hlater : forall i o,
               (Z.of_nat (S s) <= i < Z.of_nat (s + S n))%Z ->
               at_index objects i = Ok o ->
               IsObjectInTheLane K M self o image ground = Ok true ->
               exists osel,
                 at_index objects res.1 = Ok osel
                 /\ center_0 osel <= center_0 o
                 /\ (center_0 o <= center_0 osel -> (res.1 <= i)%Z)).
    { intros i o Hi. apply IHb. lia. }
    assert (Hhere : forall i o,
               (Z.of_nat s <= i < Z.of_nat (s + S n))%Z ->
               (i = Z.of_nat s ->
                at_index objects i = Ok o ->
                IsObjectInTheLane K M self o image ground = Ok true ->
                exists osel,
                  at_index objects res.1 = Ok osel
                  /\ center_0 osel <= center_0 o
                  /\ (center_0 o <= center_0 osel -> (res.1 <= i)%Z)) ->
               at_index objects i = Ok o ->
               IsObjectInTheLane K M self o image ground = Ok true ->
               exists osel,
                 at_index objects res.1 = Ok osel
                 /\ center_0 osel <= center_0 o
                 /\ (center_0 o <= center_0 osel -> (res.1 <= i)%Z)).
    { intros i o Hi Hfirst Ho Hq.
      destruct (Z.eq_dec i (Z.of_nat s)) as [E|E]; [auto|].
      apply Hlater; auto. lia. }
    destruct Hcases as [[-> ->]|[(-> & Hneg & Hi)
                                |[(-> & Hpos & oa & Hoa & Hlt & Hi)
                                 |(-> & Hpos & oa & Hoa & Hle & ->)]]].
    + (* not in the lane *)
      split; [exact IHa|]. intros i o Hi Ho Hq.
      apply (Hhere i o Hi); auto. intros ->.
      intros Ho' Hq'. rewrite (at_index_functional _ _ _ _ Ho' Hoi) in Hq'.
      congruence.
    + (* first object in the lane *)
      split; [intros oa Hpos; lia|]. intros i o Hrange Ho Hq.
      apply (Hhere i o Hrange); auto. intros -> Ho' _.
      rewrite (at_index_functional _ _ _ _ Ho' Hoi).
      rewrite <- Hi in Hoi.
      destruct (IHa oi ltac:(lia) Hoi) as (osel & Hsel & Hc & Htie).
      exists osel. split; [exact Hsel|]. split; [exact Hc|].
      intros Hc'. rewrite (Htie Hc'). lia.
    + (* a closer object in the lane *)
      split.
      * intros oa' _ Hoa'.
        rewrite (at_index_functional _ _ _ _ Hoa' Hoa).
        rewrite <- Hi in Hoi.
        destruct (IHa oi ltac:(lia) Hoi) as (osel & Hsel & Hc & Htie).
        exists osel. split; [exact Hsel|]. split; [lra|]. intros Hc'. lra.
      * intros i o Hrange Ho Hq.
        apply (Hhere i o Hrange); auto. intros -> Ho' _.
        rewrite (at_index_functional _ _ _ _ Ho' Hoi).
        rewrite <- Hi in Hoi.
        destruct (IHa oi ltac:(lia) Hoi) as (osel & Hsel & Hc & Htie).
        exists osel. split; [exact Hsel|]. split; [exact Hc|].
        intros Hc'. rewrite (Htie Hc'). lia.
    + (* an object in the lane that is not closer *)
      split; [exact IHa|]. intros i o Hrange Ho Hq.
      apply (Hhere i o Hrange); auto. intros -> Ho' _.
      rewrite (at_index_functional _ _ _ _ Ho' Hoi).
      destruct (IHa oa Hpos Hoa) as (osel & Hsel & Hc & Htie).
      exists osel. split; [exact Hsel|]. split; [lra|].
      intros Hc'. rewrite Htie by lra. lia.
Qed.

(** X14: the choice of [DetermineCipv].  After a defined call on fewer
    than [2^31] objects, the object at the recorded index has a forward
    coordinate [center[0]] no larger than that of any qualifying object of
    the list, and of several qualifying objects with the least coordinate
    it is the first in the list. *)
Theorem DetermineCipv_selects_nearest (K : Constants) (M : Libm)
    (self self' : Cipv) (lane_objects : list LaneLine)
    (options : CipvOptions) (objects objects' : list Object) (b : bool)
    (j : nat) (o : Object) :
  (Z.of_nat (length objects) < 2 ^ 31)%Z ->
  DetermineCipv K M self lane_objects options objects
  = Ok (b, self', objects') ->
  objects !! j = Some o ->
  qualifies K M self lane_objects options o ->
  exists osel,
    (0 <= old_cipv_index self')%Z
    /\ objects !! Z.to_nat (old_cipv_index self') = Some osel
    /\ qualifies K M self lane_objects options osel
    /\ center_0 osel <= center_0 o
    /\ (center_0 o <= center_0 osel ->
        (old_cipv_index self' <= Z.of_nat j)%Z).
Proof.
  intros Hlen Hrun Hj (image' & ground' & Hl & Hq).
  apply DetermineCipv_Ok in Hrun
    as (image & ground & sel & tid & Hlanes & Hloop & -> & -> & _).
  rewrite Hlanes in Hl. injection Hl as <- <-.
  rewrite to_int32_small, Nat2Z.id in Hloop by lia.
  cbn [old_cipv_index set_old_cipv_index].
  assert (Hjlt : (j < length objects)%nat) by (eapply lookup_lt_Some; eauto).
  destruct (DetermineCipv_loop_least K M self image ground objects
              (length objects) 0 ((-1)%Z, (-1)%Z) (sel, tid)
              ltac:(cbn; lia) Hloop) as [_ Hleast].
  destruct (Hleast (Z.of_nat j) o ltac:(lia) (at_index_lookup _ _ _ Hj) Hq)
    as (osel & Hsel & Hc & Htie).
  cbn [fst] in *. apply at_index_Ok in Hsel as [Hpos Hsel].
  exists osel. split; [exact Hpos|]. split; [exact Hsel|].
  split; [|auto].
  destruct (DetermineCipv_loop_spec K M self image ground objects _ _ _
              (loop_range_nonneg (length objects)) Hloop)
    as ([Hs|(_ & o' & Ho' & Hq')] & _).
  - cbn in Hs. lia.
  - cbn [fst] in Ho'. apply at_index_Ok in Ho' as [_ Ho'].
    rewrite Hsel in Ho'. injection Ho' as <-.
    exists image, ground. auto.
Qed.

Lemma lead_car_qualifies :
  qualifies sample_constants axis_libm identity_engine (lanes_around 0)
    cruise lead_car.
Proof.
  exists frame1_lanes.1, frame1_lanes.2. split; vm_compute; reflexivity.
Defined.

Lemma DetermineCipv_selects_nearest_witness :
  exists osel,
    (0 <= old_cipv_index frame1.1.2)%Z
    /\ two_cars !! Z.to_nat (old_cipv_index frame1.1.2) = Some osel
    /\ qualifies sample_constants axis_libm identity_engine (lanes_around 0)
         cruise osel
    /\ center_0 osel <= center_0 lead_car
    /\ (center_0 lead_car <= center_0 osel ->
        (old_cipv_index frame1.1.2 <= Z.of_nat 0)%Z).
Proof.
  assert (Hrun : DetermineCipv sample_constants axis_libm identity_engine
                   (lanes_around 0) cruise two_cars
                 = Ok (frame1.1.1, frame1.1.2, frame1.2))
    by (vm_compute; reflexivity).
  exact (DetermineCipv_selects_nearest sample_constants axis_libm
           identity_engine frame1.1.2 (lanes_around 0) cruise two_cars
           frame1.2 frame1.1.1 0 lead_car eq_refl Hrun eq_refl
           lead_car_qualifies).
Defined.

Lemma at_index_beyond {A : Type} (v : list A) (i : Z) :
  (Z.of_nat (length v) <= i)%Z -> at_index v i = Undefined.
Proof.
  intros H. unfold at_index.
  destruct (i <? 0)%Z; [reflexivity|].
  destruct (Z.leb_spec (Z.of_nat (length v)) i); [reflexivity|lia].
Qed.

(** X15: the index kept from the previous frame is used without a bounds
    check.  When it is not below the size of the list and some object of
    the list qualifies, [DetermineCipv] writes [objects[old_cipv_index]]
    outside the list: the call has no defined result. *)
Theorem DetermineCipv_previous_index_out_of_range (K : Constants)
    (M : Libm) (self : Cipv) (lane_objects : list LaneLine)
    (options : CipvOptions) (objects : list Object)
    (image ground : EgoLane) :
  (Z.of_nat (length objects) < 2 ^ 31)%Z ->
  frame_ego_lanes K self lane_objects options = Ok (image, ground) ->
  (forall o, o ∈ objects ->
             exists in_lane,
               IsObjectInTheLane K M self o image ground = Ok in_lane) ->
  (exists j o, objects !! j = Some o
               /\ IsObjectInTheLane K M self o image ground = Ok true) ->
  (Z.of_nat (length objects) <= old_cipv_index self)%Z ->
  DetermineCipv K M self lane_objects options objects = Undefined.
Proof.
  intros Hlen Hlanes Hlane (j & o & Hj & Hq) Hold.
  unfold frame_ego_lanes in Hlanes. unfold DetermineCipv.
  apply bind_Ok in Hlanes as ([t lanes] & -> & Hlanes).
  cbn [mbind outcome_bind] in *.
  apply bind_Ok in Hlanes as ([t' gnd] & -> & Hlanes).
  cbn [mbind outcome_bind] in *. injection Hlanes as <- <-.
  rewrite to_int32_small, Nat2Z.id by lia.
  destruct (DetermineCipv_loop_defined K M self (egolane_image lanes) gnd
              objects (map Z.of_nat (seq 0 (length objects)))
              ((-1)%Z, (-1)%Z) Hlane) as [[sel tid] Hloop].
  { apply List.Forall_forall. intros i Hi.
    apply list_elem_of_In, loop_range_spec in Hi. exact Hi. }
  { cbn. lia. }
  rewrite Hloop. cbn [mbind outcome_bind].
  destruct (DetermineCipv_loop_spec K M self (egolane_image lanes) gnd
              objects _ _ _ (loop_range_nonneg (length objects)) Hloop)
    as (Hsel & _ & Hany).
  cbn [fst] in Hsel, Hany.
  assert (Hpos : (0 <= sel)%Z).
  { apply (Hany (Z.of_nat j) o); [|now apply at_index_lookup|exact Hq].
    apply loop_range_spec. apply lookup_lt_Some in Hj. lia. }
  assert (Hrange : (sel < Z.of_nat (length objects))%Z).
  { destruct Hsel as [->|[Hmem _]]; [lia|].
    apply loop_range_spec in Hmem. lia. }
  destruct (Z.leb_spec 0 sel) as [_|]; [|lia].
  destruct (Z.leb_spec 0 (old_cipv_index self)) as [_|]; [|lia].
  destruct (Z.eqb_spec (old_cipv_index self) sel) as [|_]; [lia|].
  cbn [andb negb]. unfold assign_b_cipv at 2.
  now rewrite (at_index_beyond objects (old_cipv_index self) Hold).
Qed.

Lemma DetermineCipv_previous_index_out_of_range_witness :
  DetermineCipv sample_constants axis_libm stale_index_engine
    (lanes_around 0) cruise two_cars = Undefined.
Proof.
  apply (DetermineCipv_previous_index_out_of_range sample_constants
           axis_libm stale_index_engine (lanes_around 0) cruise two_cars
           frame1_lanes.1 frame1_lanes.2).
  - reflexivity.
  - vm_compute. reflexivity.
  - exact two_cars_lane_test.
  - exists 0%nat, lead_car. split; [reflexivity|vm_compute; reflexivity].
  - vm_compute. discriminate.
Defined.

(** ** Invariants of the trajectory tracker *)

Lemma to_size_t_small (z : Z) : (0 <= z < 2 ^ 64)%Z -> to_size_t z = z.
Proof. intros H. unfold to_size_t. now apply Z.mod_small. Qed.

Lemma to_size_t_range (z : Z) : (0 <= to_size_t z < 2 ^ 64)%Z.
Proof. unfold to_size_t. apply Z.mod_pos_bound. lia. Qed.

(** What the push of [CollectDrops] does to the size of a history. *)
Lemma cb_push_back_bounded (K : Constants) (pt : Q * Q)
    (b : circular_buffer) :
  (0 < DROPS_HISTORY_SIZE K)%Z ->
  cb_size b = 0%Z
  \/ (capacity b = DROPS_HISTORY_SIZE K
      /\ (cb_size b <= DROPS_HISTORY_SIZE K)%Z) ->
  let b' := cb_push_back pt
              (if (cb_size b =? 0)%Z
               then cb_set_capacity (DROPS_HISTORY_SIZE K) b else b) in
  capacity b' = DROPS_HISTORY_SIZE K
  /\ (0 < cb_size b' <= DROPS_HISTORY_SIZE K)%Z.
Proof.
  intros Hpos Hb. cbv zeta.
  destruct (Z.eqb_spec (cb_size b) 0) as [E0|N0].
  - assert (Hnil : items b = []).
    { unfold cb_size in E0. destruct (items b); [reflexivity|].
      cbn [length] in E0. lia. }
    unfold cb_push_back, cb_set_capacity, cb_size.
    cbn [capacity items]. rewrite Hnil, firstn_nil. cbn [length].
    destruct (Z.leb_spec (DROPS_HISTORY_SIZE K) 0) as [|_]; [lia|].
    change (Z.of_nat 0) with 0%Z.
    destruct (Z.ltb_spec 0 (DROPS_HISTORY_SIZE K)) as [_|]; [|lia].
    cbn [capacity items app length]. lia.
  - destruct Hb as [|[Hcap Hle]]; [contradiction|].
    assert (Hsz : (0 <= cb_size b)%Z) by (unfold cb_size; lia).
    unfold cb_push_back.
    destruct (Z.leb_spec (capacity b) 0) as [|_]; [lia|].
    destruct (Z.ltb_spec (cb_size b) (capacity b)) as [Hlt|Hge];
      unfold cb_size in *; cbn [capacity items]; rewrite length_app;
      cbn [length].
    + lia.
    + destruct (items b) as [|p rest]; cbn [length tl] in *; lia.
Qed.

Lemma CollectDrops_object_bounded (K : Constants)
    (motion_buffer : list VehicleStatus) (motion_size : Z)
    (acc : gmap Z circular_buffer * gmap Z Z * list DropRead)
    (obj : Object) :
  (0 < DROPS_HISTORY_SIZE K)%Z ->
  bounded_histories K acc.1.1 ->
  bounded_histories K
    (CollectDrops_object K motion_buffer motion_size acc obj).1.1.
Proof.
  intros Hpos Hb. destruct acc as [[t s] r]. cbn [fst snd] in *.
  unfold CollectDrops_object. cbn [fst snd]. intros id h Hid.
  destruct (decide (id = track_id obj)) as [->|Hne].
  - rewrite lookup_insert_eq in Hid. injection Hid as <-.
    apply cb_push_back_bounded; [exact Hpos|].
    destruct (t !! track_id obj) as [h0|] eqn:E; cbn.
    + right. destruct (Hb _ _ E) as [Hc Hs]. split; [exact Hc|lia].
    + left. reflexivity.
  - rewrite lookup_insert_ne in Hid by congruence. eauto.
Qed.

Lemma CollectDrops_objects_bounded (K : Constants)
    (motion_buffer : list VehicleStatus) (motion_size : Z)
    (objects : list Object)
    (acc : gmap Z circular_buffer * gmap Z Z * list DropRead) :
  (0 < DROPS_HISTORY_SIZE K)%Z ->
  bounded_histories K acc.1.1 ->
  bounded_histories K
    (fold_left (CollectDrops_object K motion_buffer motion_size) objects
       acc).1.1.
Proof.
  intros Hpos. revert acc.
  induction objects as [|o objects IH]; intros acc Hacc; [exact Hacc|].
  cbn [fold_left]. apply IH. now apply CollectDrops_object_bounded.
Qed.

Lemma CollectDrops_bounded (K : Constants) (self engine : Cipv)
    (motion_buffer : list VehicleStatus) (objects : list Object)
    (flag : bool) :
  (0 < DROPS_HISTORY_SIZE K)%Z ->
  bounded_histories K (object_trackjectories_ self) ->
  fst (CollectDrops K self motion_buffer objects) = Ok (flag, engine) ->
  bounded_histories K (object_trackjectories_ engine).
Proof.
  intros Hpos Hb Hrun.
  apply CollectDrops_Ok in Hrun
    as [(_ & -> & _)|(_ & _ & t & s & reads & s' & Hfold & _ & _ & ->)];
    [exact Hb|].
  cbn [object_trackjectories_ set_histories].
  pose proof (CollectDrops_objects_bounded K motion_buffer
                (to_int32 (Z.of_nat (length motion_buffer))) objects
                (object_trackjectories_ self, object_id_skip_count_ self, [])
                Hpos Hb) as H.
  rewrite Hfold in H. exact H.
Qed.

(** X16: the histories stay bounded.  With a positive
    [DROPS_HISTORY_SIZE], on an engine whose histories each hold between
    one and [DROPS_HISTORY_SIZE] points, every run of [CollectDrops] calls
    that is defined (no read outside the motion buffer, no erasure under
    the iterator), on any motion buffers and object lists, leaves every
    history with the capacity [DROPS_HISTORY_SIZE] and between one and
    [DROPS_HISTORY_SIZE] points: no track is kept with an empty history,
    none grows further. *)
Theorem run_CollectDrops_histories_bounded (K : Constants)
    (self engine : Cipv)
    (frames : list (list VehicleStatus * list Object)) (id : Z)
    (h : circular_buffer) :
  (0 < DROPS_HISTORY_SIZE K)%Z ->
  bounded_histories K (object_trackjectories_ self) ->
  run_CollectDrops K self frames = Ok engine ->
  object_trackjectories_ engine !! id = Some h ->
  capacity h = DROPS_HISTORY_SIZE K
  /\ (0 < cb_size h <= DROPS_HISTORY_SIZE K)%Z.
Proof.
  intros Hpos Hb Hrun. revert id h.
  change (bounded_histories K (object_trackjectories_ engine)).
  revert self Hb Hrun.
  induction frames as [|[mb objs] frames IH]; intros self Hb Hrun.
  - injection Hrun as <-. exact Hb.
  - cbn [run_CollectDrops fst snd] in Hrun.
    destruct (fst (CollectDrops K self mb objs)) as [[flag next]|] eqn:E;
      [|discriminate].
    cbn [mbind outcome_bind] in Hrun. apply (IH next); [|exact Hrun].
    exact (CollectDrops_bounded K self next mb objs flag Hpos Hb E).
Qed.

Lemma run_CollectDrops_histories_bounded_witness :
  capacity lead_car_history = 20%Z
  /\ (0 < cb_size lead_car_history <= 20)%Z
  /\ cb_size lead_car_history = 20%Z.
Proof.
  destruct (run_CollectDrops_histories_bounded sample_constants
              identity_engine lead_car_tracked lead_car_frames 7
              lead_car_history) as [Hc Hs].
  - reflexivity.
  - intros id h H. vm_compute in H. discriminate.
  - vm_compute. reflexivity.
  - vm_compute. reflexivity.
  - split; [exact Hc|]. split; [exact Hs|reflexivity].
Defined.

Lemma CollectDrops_object_in_step (K : Constants)
    (motion_buffer : list VehicleStatus) (motion_size : Z)
    (acc : gmap Z circular_buffer * gmap Z Z * list DropRead)
    (obj : Object) :
  (0 < MAX_ALLOWED_SKIP_OBJECT K)%Z ->
  maps_in_step K acc.1.1 acc.1.2 ->
  maps_in_step K
    (CollectDrops_object K motion_buffer motion_size acc obj).1.1
    (CollectDrops_object K motion_buffer motion_size acc obj).1.2.
Proof.
  intros Hpos [Hdom Hcnt]. destruct acc as [[t s] r]. cbn [fst snd] in *.
  unfold CollectDrops_object. cbn [fst snd]. split.
  - intros id. destruct (decide (id = track_id obj)) as [->|Hne].
    + rewrite !lookup_insert_eq. split; eauto.
    + rewrite !lookup_insert_ne by congruence. apply Hdom.
  - intros id c. destruct (decide (id = track_id obj)) as [->|Hne].
    + rewrite lookup_insert_eq. intros [= <-]. lia.
    + rewrite lookup_insert_ne by congruence. apply Hcnt.
Qed.

Lemma CollectDrops_evict_in_step (K : Constants) (objects : list Object)
    (acc acc' : gmap Z circular_buffer * gmap Z Z) (obj_id : Z) :
  maps_in_step K acc.1 acc.2 ->
  CollectDrops_evict K objects acc obj_id = Ok acc' ->
  maps_in_step K acc'.1 acc'.2.
Proof.
  intros [Hdom Hcnt]. destruct acc as [t s]. cbn [fst snd] in *.
  unfold CollectDrops_evict.
  destruct (negb _); cbn [andb]; [|intros [= <-]; split; assumption].
  destruct (Z.ltb_spec 0 (cb_size (default cb_empty (t !! obj_id))))
    as [Hsize|_]; [|intros [= <-]; split; assumption].
  assert (Hin : is_Some (t !! obj_id)).
  { destruct (t !! obj_id); [eauto|]. vm_compute in Hsize. discriminate. }
  set (n := to_size_t _).
  assert (Hn : (0 <= n)%Z) by apply to_size_t_range.
  destruct (Z.leb_spec (MAX_ALLOWED_SKIP_OBJECT K) n) as [Hmax|Hmax];
    [discriminate|].
  intros [= <-]. cbn [fst snd]. split.
  - intros id. destruct (decide (id = obj_id)) as [->|Hne].
    + rewrite lookup_insert_eq. split; eauto.
    + rewrite lookup_insert_ne by congruence. apply Hdom.
  - intros id c. destruct (decide (id = obj_id)) as [->|Hne].
    + rewrite lookup_insert_eq. intros [= <-]. lia.
    + rewrite lookup_insert_ne by congruence. apply Hcnt.
Qed.

Lemma CollectDrops_in_step (K : Constants) (self engine : Cipv)
    (motion_buffer : list VehicleStatus) (objects : list Object)
    (flag : bool) :
  (0 < MAX_ALLOWED_SKIP_OBJECT K)%Z ->
  maps_in_step K (object_trackjectories_ self) (object_id_skip_count_ self) ->
  fst (CollectDrops K self motion_buffer objects) = Ok (flag, engine) ->
  maps_in_step K (object_trackjectories_ engine)
    (object_id_skip_count_ engine).
Proof.
  intros Hpos Hb Hrun.
  apply CollectDrops_Ok in Hrun
    as [(_ & -> & _)|(_ & _ & t & s & reads & s' & Hfold & _ & Hloop & ->)];
    [exact Hb|].
  cbn [object_trackjectories_ object_id_skip_count_ set_histories].
  assert (Hobj : forall objs acc,
             maps_in_step K acc.1.1 acc.1.2 ->
             maps_in_step K
               (fold_left
                  (CollectDrops_object K motion_buffer
                     (to_int32 (Z.of_nat (length motion_buffer)))) objs
                  acc).1.1
               (fold_left
                  (CollectDrops_object K motion_buffer
                     (to_int32 (Z.of_nat (length motion_buffer)))) objs
                  acc).1.2).
  { induction objs as [|o objs IH]; intros acc Hacc; [exact Hacc|].
    cbn [fold_left]. apply IH.
    now apply CollectDrops_object_in_step. }
  assert (Hev : forall ids acc acc',
             maps_in_step K acc.1 acc.2 ->
             CollectDrops_evict_loop K objects ids acc = Ok acc' ->
             maps_in_step K acc'.1 acc'.2).
  { induction ids as [|i ids IH]; intros acc acc' Hacc H.
    - injection H as <-. exact Hacc.
    - cbn [CollectDrops_evict_loop] in H.
      destruct (CollectDrops_evict K objects acc i) as [acc1|] eqn:Ei;
        [|discriminate].
      cbn [mbind outcome_bind] in H. apply (IH acc1); [|exact H].
      exact (CollectDrops_evict_in_step K objects acc acc1 i Hacc Ei). }
  specialize (Hobj objects
                (object_trackjectories_ self, object_id_skip_count_ self, [])
                Hb).
  rewrite Hfold in Hobj. cbn [fst snd] in Hobj.
  exact (Hev (tracked_ids t) (t, s) (t, s') Hobj Hloop).
Qed.

(** X17: the two maps of the tracker stay in step.  With a positive
    [MAX_ALLOWED_SKIP_OBJECT], on an engine whose history map and counter
    map hold the same ids, every run of [CollectDrops] calls that is
    defined leaves them holding the same ids: a track has a history
    exactly when it has a counter, and every counter is at least zero and
    below [MAX_ALLOWED_SKIP_OBJECT]. *)
Theorem run_CollectDrops_maps_in_step (K : Constants) (self engine : Cipv)
    (frames : list (list VehicleStatus * list Object)) :
  (0 < MAX_ALLOWED_SKIP_OBJECT K)%Z ->
  maps_in_step K (object_trackjectories_ self) (object_id_skip_count_ self) ->
  run_CollectDrops K self frames = Ok engine ->
  maps_in_step K (object_trackjectories_ engine)
    (object_id_skip_count_ engine).
Proof.
  intros Hpos. revert self.
  induction frames as [|[mb objs] frames IH]; intros self Hb Hrun.
  - injection Hrun as <-. exact Hb.
  - cbn [run_CollectDrops fst snd] in Hrun.
    destruct (fst (CollectDrops K self mb objs)) as [[flag next]|] eqn:E;
      [|discriminate].
    cbn [mbind outcome_bind] in Hrun. apply (IH next); [|exact Hrun].
    exact (CollectDrops_in_step K self next mb objs flag Hpos Hb E).
Qed.

Lemma run_CollectDrops_maps_in_step_witness :
  (is_Some (object_trackjectories_ lead_car_tracked !! 7%Z)
   <-> is_Some (object_id_skip_count_ lead_car_tracked !! 7%Z))
  /\ object_id_skip_count_ lead_car_tracked !! 7%Z = Some 0%Z.
Proof.
  destruct (run_CollectDrops_maps_in_step sample_constants identity_engine
              lead_car_tracked lead_car_frames) as [Hdom _].
  - reflexivity.
  - split.
    + intros id. vm_compute. split; intros [? ?]; discriminate.
    + intros id c H. vm_compute in H. discriminate.
  - vm_compute. reflexivity.
  - split; [apply Hdom|]. vm_compute. reflexivity.
Defined.

Lemma CollectDrops_objects_keep (K : Constants)
    (motion_buffer : list VehicleStatus) (motion_size id : Z)
    (objects : list Object)
    (acc : gmap Z circular_buffer * gmap Z Z * list DropRead) :
  is_Some (acc.1.1 !! id) ->
  is_Some
    ((fold_left (CollectDrops_object K motion_buffer motion_size) objects
        acc).1.1 !! id).
Proof.
  revert acc. induction objects as [|o objects IH]; intros acc Hacc;
    [exact Hacc|].
  cbn [fold_left]. apply IH. destruct acc as [[t s] r].
  unfold CollectDrops_object. cbn [fst snd] in *.
  destruct (decide (track_id o = id)) as [<-|Hne].
  - rewrite lookup_insert_eq. eauto.
  - now rewrite lookup_insert_ne.
Qed.

(** X31: no track leaves the history map in a run that is defined.  The
    one removal in [CollectDrops] is the [erase] under the iterator of the
    range-for, after which the call has no defined result: whatever the
    frames, a track that has a history before a defined run has one after
    it. *)
Theorem run_CollectDrops_keeps_tracks (K : Constants) (self engine : Cipv)
    (frames : list (list VehicleStatus * list Object)) (id : Z) :
  run_CollectDrops K self frames = Ok engine ->
  is_Some (object_trackjectories_ self !! id) ->
  is_Some (object_trackjectories_ engine !! id).
Proof.
  revert self. induction frames as [|[mb objs] frames IH];
    intros self Hrun Hid.
  - injection Hrun as <-. exact Hid.
  - cbn [run_CollectDrops fst snd] in Hrun.
    destruct (fst (CollectDrops K self mb objs)) as [[flag next]|] eqn:E;
      [|discriminate].
    cbn [mbind outcome_bind] in Hrun. apply (IH next Hrun).
    apply CollectDrops_Ok in E
      as [(_ & -> & _)|(_ & _ & t & s & reads & s' & Hfold & _ & _ & ->)];
      [exact Hid|].
    cbn [object_trackjectories_ set_histories].
    pose proof (CollectDrops_objects_keep K mb
                  (to_int32 (Z.of_nat (length mb))) id objs
                  (object_trackjectories_ self, object_id_skip_count_ self,
                   []) Hid) as H.
    rewrite Hfold in H. exact H.
Qed.

Lemma run_CollectDrops_keeps_tracks_witness :
  is_Some (object_trackjectories_ three_cars_absent !! 8%Z).
Proof.
  apply (run_CollectDrops_keeps_tracks sample_constants three_cars_tracked
           three_cars_absent (empty_frames 9) 8%Z).
  - vm_compute. reflexivity.
  - vm_compute. eauto.
Defined.

(** The reprojection loop, started so that [it + count] is at most the
    size of the motion buffer, reads inside the history and inside the
    buffer on every pass, and hands the point and the entry it read to
    [TranformPoint]. *)
Lemma drops_loop_reads (K : Constants) (fuel : nat)
    (history : list (Q * Q)) (motion_buffer : list VehicleStatus)
    (it count : Z) :
  (Z.of_nat (length motion_buffer) < 2 ^ 63)%Z ->
  (0 <= count)%Z -> (0 <= it < Z.of_nat (length history))%Z ->
  (it + count <= Z.of_nat (length motion_buffer))%Z ->
  Forall
    (fun r =>
       (0 <= motion_index r < Z.of_nat (length motion_buffer))%Z
       /\ exists pt status,
            history_point r = Ok pt
            /\ In status motion_buffer
            /\ transformed_pt r
               = Ok (TranformPoint K (fst pt, snd pt, 0, 1) (motion status)))
    (drops_loop K fuel history motion_buffer
       (Z.of_nat (length motion_buffer)) it count).
Proof.
  intros Hm. revert it count.
  induction fuel as [|fuel IH]; intros it count Hc Hit Hsum; cbn [drops_loop];
    [constructor|].
  destruct (Z.ltb_spec 0 it) as [Hpos|_]; [|constructor].
  destruct (_ || _); [constructor|].
  assert (Hidx : to_size_t (Z.of_nat (length motion_buffer) - count - 1)
                 = (Z.of_nat (length motion_buffer) - count - 1)%Z)
    by (apply to_size_t_small; lia).
  constructor.
  - cbn [motion_index history_point transformed_pt]. rewrite Hidx.
    destruct (at_index_in_range history it ltac:(lia)) as [pt [Hpt _]].
    destruct (at_index_in_range motion_buffer
                (Z.of_nat (length motion_buffer) - count - 1) ltac:(lia))
      as [status [Hst Hin]].
    split; [lia|]. exists pt, status. split; [exact Hpt|].
    split; [now apply list_elem_of_In|].
    rewrite Hpt. destruct pt as [px py]. cbn [mbind outcome_bind].
    rewrite Hst. reflexivity.
  - rewrite !to_size_t_small by lia. apply IH; lia.
Qed.

Lemma CollectDrops_reads (K : Constants) (self : Cipv)
    (motion_buffer : list VehicleStatus) (objects : list Object) :
  (0 < DROPS_HISTORY_SIZE K)%Z ->
  nonempty_motion_buffer motion_buffer ->
  (DROPS_HISTORY_SIZE K - 1 <= Z.of_nat (length motion_buffer))%Z ->
  bounded_histories K (object_trackjectories_ self) ->
  Forall
    (fun r =>
       (0 <= motion_index r < Z.of_nat (length motion_buffer))%Z
       /\ exists pt status,
            history_point r = Ok pt
            /\ In status motion_buffer
            /\ transformed_pt r
               = Ok (TranformPoint K (fst pt, snd pt, 0, 1) (motion status)))
    (CollectDrops K self motion_buffer objects).2.
Proof.
  intros Hpos Hne Hlen Hb.
  unfold nonempty_motion_buffer in Hne. unfold CollectDrops.
  rewrite to_int32_small by lia.
  destruct (Z.leb_spec (Z.of_nat (length motion_buffer)) 0) as [|_]; [lia|].
  set (P := fun r : DropRead => _ /\ _).
  assert (Hobj : forall objs acc,
             bounded_histories K acc.1.1 ->
             Forall P acc.2 ->
             Forall P
               (fold_left
                  (CollectDrops_object K motion_buffer
                     (Z.of_nat (length motion_buffer))) objs acc).2).
  { induction objs as [|o objs IH]; intros acc Hacc Hr; [exact Hr|].
    cbn [fold_left]. apply IH.
    - now apply CollectDrops_object_bounded.
    - pose proof (CollectDrops_object_bounded K motion_buffer
                    (Z.of_nat (length motion_buffer)) acc o Hpos Hacc)
        as Hb'.
      destruct acc as [[t s] r]. cbn [fst snd] in *.
      unfold CollectDrops_object in *. cbn [fst snd] in *.
      specialize (Hb' (track_id o) _ (lookup_insert_eq _ _ _)).
      destruct Hb' as [_ Hsize].
      apply Forall_app. split; [exact Hr|].
      unfold cb_size in *. rewrite to_size_t_small by lia.
      apply drops_loop_reads; lia. }
  specialize (Hobj objects
                (object_trackjectories_ self, object_id_skip_count_ self, [])
                Hb (List.Forall_nil _)).
  destruct (fold_left _ objects _) as [[t s] reads].
  exact Hobj.
Qed.

(** X18: when the reads of [CollectDrops] are safe.  With a motion buffer
    that is not empty and has at least [DROPS_HISTORY_SIZE - 1] entries, on
    an engine whose histories are bounded, every pass of the reprojection
    loops reads a point inside the history and an entry inside the motion
    buffer, at an index from [0] to [size - 1]. *)
Theorem CollectDrops_reads_in_range (K : Constants) (self : Cipv)
    (motion_buffer : list VehicleStatus) (objects : list Object)
    (r : DropRead) :
  (0 < DROPS_HISTORY_SIZE K)%Z ->
  nonempty_motion_buffer motion_buffer ->
  (DROPS_HISTORY_SIZE K - 1 <= Z.of_nat (length motion_buffer))%Z ->
  bounded_histories K (object_trackjectories_ self) ->
  In r (CollectDrops K self motion_buffer objects).2 ->
  read_in_range motion_buffer r.
Proof.
  intros Hpos Hne Hlen Hb Hr.
  pose proof (CollectDrops_reads K self motion_buffer objects Hpos Hne Hlen
                Hb) as Hall.
  destruct (proj1 (List.Forall_forall _ _) Hall r Hr)
    as (Hidx & pt & status & Hpt & _ & Htr).
  unfold read_in_range. eauto.
Qed.

Lemma CollectDrops_reads_in_range_witness :
  read_in_range long_motion_buffer lead_car_read
  /\ motion_index lead_car_read = 18%Z.
Proof.
  split; [|reflexivity].
  apply (CollectDrops_reads_in_range sample_constants identity_engine
           long_motion_buffer [lead_car; lead_car] lead_car_read).
  - reflexivity.
  - vm_compute. split; reflexivity.
  - vm_compute. discriminate.
  - intros id h H. vm_compute in H. discriminate.
  - vm_compute. left. reflexivity.
Defined.

(** [TranformPoint] on a motion whose last row is [0 0 0 1] and a point of
    last coordinate one: the division is by one. *)
Lemma TranformPoint_affine (K : Constants) (r0 r1 r2 : Vector4f)
    (x y z : Q) :
  EPSILON K <= 1 ->
  exists out,
    TranformPoint K (x, y, z, 1) (r0, r1, r2, (0, 0, 0, 1)) = Some out
    /\ fst (fst out) == dot4 r0 (x, y, z, 1)
    /\ snd (fst out) == dot4 r1 (x, y, z, 1)
    /\ snd out == dot4 r2 (x, y, z, 1).
Proof.
  intros Heps. unfold TranformPoint, mat4_vec.
  assert (E : dot4 (0, 0, 0, 1) (x, y, z, 1) == 1)
    by (unfold dot4; ring).
  destruct (Qltb _ _) eqn:Hlt.
  - apply Qltb_lt in Hlt. unfold fabs in Hlt. rewrite E in Hlt.
    change (Qabs 1) with 1 in Hlt. lra.
  - eexists. split; [reflexivity|]. cbn [fst snd].
    rewrite E. repeat apply conj; field.
Qed.

(** X23: the reprojection never fails on rigid motions.  When every
    entry of the motion buffer has the last row [0 0 0 1] and [EPSILON] is
    at most one, under the conditions that make the reads safe every
    history point read, [(x, y)], is transformed: [TranformPoint] reports
    success, with the point [motion * (x, y, 0, 1)] of some entry of the
    buffer. *)
Theorem CollectDrops_transforms (K : Constants) (self : Cipv)
    (motion_buffer : list VehicleStatus) (objects : list Object)
    (r : DropRead) :
  (0 < DROPS_HISTORY_SIZE K)%Z ->
  nonempty_motion_buffer motion_buffer ->
  (DROPS_HISTORY_SIZE K - 1 <= Z.of_nat (length motion_buffer))%Z ->
  bounded_histories K (object_trackjectories_ self) ->
  EPSILON K <= 1 ->
  Forall (fun status => snd (motion status) = (0, 0, 0, 1)) motion_buffer ->
  In r (CollectDrops K self motion_buffer objects).2 ->
  exists pt status out,
    history_point r = Ok pt
    /\ In status motion_buffer
    /\ transformed_pt r = Ok (Some out)
    /\ fst (fst out)
       == dot4 (fst (fst (fst (motion status)))) (fst pt, snd pt, 0, 1)
    /\ snd (fst out)
       == dot4 (snd (fst (fst (motion status)))) (fst pt, snd pt, 0, 1)
    /\ snd out == dot4 (snd (fst (motion status))) (fst pt, snd pt, 0, 1).
Proof.
  intros Hpos Hne Hlen Hb Heps Hrigid Hr.
  pose proof (CollectDrops_reads K self motion_buffer objects Hpos Hne Hlen
                Hb) as Hall.
  destruct (proj1 (List.Forall_forall _ _) Hall r Hr)
    as (_ & pt & status & Hpt & Hin & Htr).
  pose proof (proj1 (List.Forall_forall _ _) Hrigid status Hin) as Hrow.
  destruct (motion status) as [[[r0 r1] r2] r3] eqn:Em.
  cbv beta in Hrow. rewrite Em in Hrow. cbn [snd] in Hrow. subst r3.
  destruct (TranformPoint_affine K r0 r1 r2 (fst pt) (snd pt) 0 Heps)
    as (out & Hout & H0 & H1 & H2).
  exists pt, status, out. rewrite Em, Htr. cbn [fst snd].
  repeat apply conj;
    [exact Hpt|exact Hin|f_equal; exact Hout|exact H0|exact H1|exact H2].
Qed.

Lemma CollectDrops_transforms_witness :
  exists pt status out,
    history_point lead_car_read = Ok pt
    /\ In status long_motion_buffer
    /\ transformed_pt lead_car_read = Ok (Some out)
    /\ fst (fst out)
       == dot4 (fst (fst (fst (motion status)))) (fst pt, snd pt, 0, 1)
    /\ snd (fst out)
       == dot4 (snd (fst (fst (motion status)))) (fst pt, snd pt, 0, 1)
    /\ snd out == dot4 (snd (fst (motion status))) (fst pt, snd pt, 0, 1).
Proof.
  apply (CollectDrops_transforms sample_constants identity_engine
           long_motion_buffer [lead_car; lead_car] lead_car_read).
  - reflexivity.
  - vm_compute. split; reflexivity.
  - vm_compute. discriminate.
  - intros id h H. vm_compute in H. discriminate.
  - vm_compute. discriminate.
  - repeat constructor.
  - vm_compute. left. reflexivity.
Defined.

(** ** Frames without lane lines *)

Lemma exact_sqrt_zero (q : Q) : q == 0 -> exact_sqrt q == 0.
Proof.
  unfold Qeq, exact_sqrt. cbn [Qnum Qden]. intros H.
  assert (E : Qnum q = 0%Z) by lia.
  rewrite E. reflexivity.
Qed.

(** X19: a frame without a usable lane line has no CIPV.  In the ground
    mode, when [GetEgoLane] finds neither boundary valid, the lane
    [ElongateEgoLane] synthesizes is a point repeated 24 times on each
    side, no segment of which has a length; the lane test then accepts no
    object, and a defined call of [DetermineCipv] leaves the object list
    as it was and records the index [-1]. *)
Theorem DetermineCipv_without_lane_lines (K : Constants) (M : Libm)
    (self self' : Cipv) (lane_objects : list LaneLine)
    (options : CipvOptions) (objects objects' : list Object) (b flag : bool)
    (lanes : EgoLanes) :
  (forall q, q == 0 -> sqrt M q == 0) ->
  0 <= B_FLT_EPSILON K ->
  b_image_based_cipv_ self = false ->
  GetEgoLane K lane_objects no_ego_lanes = Ok (flag, lanes) ->
  b_left_valid lanes = false ->
  b_right_valid lanes = false ->
  DetermineCipv K M self lane_objects options objects
  = Ok (b, self', objects') ->
  objects' = objects /\ old_cipv_index self' = (-1)%Z.
Proof.
  intros Hsqrt Heps Himg Hget Hl Hr Hrun.
  apply DetermineCipv_Ok in Hrun
    as (image & ground & sel & tid & Hlanes & Hloop & _ & -> & Hcase).
  unfold frame_ego_lanes in Hlanes. rewrite Hget in Hlanes.
  cbn [mbind outcome_bind] in Hlanes. rewrite Hl, Hr in Hlanes.
  apply bind_Ok in Hlanes as ([t gnd] & Hel & Hlanes).
  injection Hlanes as <- <-.
  assert (Hsel : sel = (-1)%Z).
  { destruct (DetermineCipv_loop_spec K M self (egolane_image lanes) gnd
                objects _ _ _
                (loop_range_nonneg
                   (Z.to_nat (to_int32 (Z.of_nat (length objects)))))
                Hloop) as ([Hs|(_ & o & _ & Hq)] & _).
    - exact Hs.
    - exfalso. unfold IsObjectInTheLane in Hq. rewrite Himg in Hq.
      exact (IsObjectInTheLaneGround_no_lane_lines K M Hsqrt Heps self o
               lane_objects _ _ _ _ _ _ Himg Hel Hq). }
  subst sel. cbn [old_cipv_index set_old_cipv_index].
  split; [|reflexivity].
  destruct Hcase as [[_ ->]|[Hpos _]]; [reflexivity|lia].
Qed.

Lemma DetermineCipv_without_lane_lines_witness :
  stub_frame.2 = two_cars /\ old_cipv_index stub_frame.1.2 = (-1)%Z.
Proof.
  apply (DetermineCipv_without_lane_lines sample_constants axis_libm
           identity_engine stub_frame.1.2 [stub_line EGO_LEFT] cruise
           two_cars stub_frame.2 stub_frame.1.1 true
           {| egolane_image := no_lane; egolane_ground := no_lane;
              b_left_valid := false; b_right_valid := false |}).
  - exact exact_sqrt_zero.
  - vm_compute. discriminate.
  - reflexivity.
  - vm_compute. reflexivity.
  - reflexivity.
  - reflexivity.
  - vm_compute. reflexivity.
Defined.

(** ** When the lane test and the selection are defined *)

(** The reads of a lane line at the nearest segment are inside the line,
    whatever the point and the line. *)
Lemma nearest_segment_side_defined (K : Constants) (M : Libm)
    (pt : Point2Df) (line : list Point2Df)
    (side : Point2Df -> Point2Df -> bool) :
  exists clear,
    (let '(closest_index, _) := closest_segment K M pt line in
     if (0 <=? closest_index)%Z then
       a ← at_index line closest_index;
       b ← at_index line (closest_index + 1);
       Ok (side a b)
     else Ok false) = Ok clear.
Proof.
  destruct (closest_segment K M pt line) as [ci sd] eqn:E.
  apply closest_segment_spec in E
    as [_ [[-> _]|(k & a & b & -> & Hk & Hk' & _)]].
  - cbn. eauto.
  - destruct (0 <=? Z.of_nat k)%Z eqn:E0; [|apply Z.leb_gt in E0; lia].
    rewrite (at_index_lookup _ _ _ Hk).
    replace (Z.of_nat k + 1)%Z with (Z.of_nat (S k)) by lia.
    rewrite (at_index_lookup _ _ _ Hk'). cbn [mbind outcome_bind]. eauto.
Qed.

Lemma IsObjectInTheLaneGround_Ok (K : Constants) (M : Libm) (self : Cipv)
    (object : Object) (lane : EgoLane) :
  degenerate_size object = true
  \/ (exists p, footprint_corners M self object = Ok p
                /\ Forall (fun pt => fst pt <= MAX_FLOAT K) p) ->
  exists in_lane,
    IsObjectInTheLaneGround K M self object lane = Ok in_lane.
Proof.
  intros Hobj. unfold IsObjectInTheLaneGround.
  assert (Hedge : exists valid edge,
             FindClosestEdgeOfObjectGround K M self object lane unset_edge
             = Ok (valid, edge)).
  { destruct (degenerate_size object) eqn:Hdeg.
    - rewrite (FindClosestEdgeOfObjectGround_degenerate _ _ _ _ _ _ Hdeg).
      eauto.
    - destruct Hobj as [|(p & Hp & Hfin)]; [discriminate|].
      destruct (FindClosestEdgeOfObjectGround_corners K M self object lane
                  unset_edge p Hdeg Hp Hfin)
        as (ci & si & pc & ps & Hrun & _).
      eauto. }
  destruct Hedge as (valid & edge & ->). cbn [mbind outcome_bind].
  destruct valid; cbn [negb]; [|eauto].
  destruct (_ <=? 1)%Z; [eauto|].
  destruct (nearest_segment_side_defined K M (end_point edge)
              (left_line lane)
              (fun a b => negb (IsPointLeftOfLine (end_point edge) a b)))
    as [bl Hl].
  destruct (closest_segment K M (end_point edge) (left_line lane))
    as [cl sl].
  rewrite Hl. cbn [mbind outcome_bind].
  destruct (_ <=? 1)%Z; [eauto|].
  destruct (nearest_segment_side_defined K M (start_point edge)
              (right_line lane)
              (fun a b => IsPointLeftOfLine (start_point edge) a b))
    as [br Hr].
  destruct (closest_segment K M (start_point edge) (right_line lane))
    as [cr sr].
  rewrite Hr. cbn [mbind outcome_bind].
  destruct (AreDistancesSane K 0 0 0 0); eauto.
Qed.

(** X20: the lane test never reads a lane boundary out of range.  For an
    object whose footprint corners are computed and have an [x] of at most
    [MAX_FLOAT], [IsObjectInTheLaneGround] has a defined result on every
    lane, boundaries that are empty, of one point or of segments without
    length included. *)
Theorem IsObjectInTheLaneGround_defined (K : Constants) (M : Libm)
    (self : Cipv) (object : Object) (lane : EgoLane)
    (p : list Point2Df) :
  footprint_corners M self object = Ok p ->
  Forall (fun pt => fst pt <= MAX_FLOAT K) p ->
  exists in_lane,
    IsObjectInTheLaneGround K M self object lane = Ok in_lane.
Proof.
  intros Hp Hfin. apply IsObjectInTheLaneGround_Ok. right. eauto.
Qed.

Lemma IsObjectInTheLaneGround_defined_witness :
  exists in_lane,
    IsObjectInTheLaneGround sample_constants axis_libm identity_engine
      lead_car left_only_lane = Ok in_lane.
Proof.
  apply (IsObjectInTheLaneGround_defined sample_constants axis_libm
           identity_engine lead_car left_only_lane lead_car_corners).
  - vm_compute. reflexivity.
  - repeat constructor; vm_compute; discriminate.
Defined.

(** X21: when the selection is defined.  In the ground mode, on lane
    lines that have a ground point for each image point, with a minimum
    line length of at least one, on fewer than [2^31] objects whose
    footprints are computed within [MAX_FLOAT], and with a previous index
    below the size of the list, [DetermineCipv] has a defined result and
    returns [true], and the list keeps its length. *)
Theorem DetermineCipv_ground_defined (K : Constants) (M : Libm)
    (self : Cipv) (lane_objects : list LaneLine) (options : CipvOptions)
    (objects : list Object) :
  b_image_based_cipv_ self = false ->
  aligned_lane_lines lane_objects ->
  (1 <= MIN_LANE_LINE_LENGTH_FOR_CIPV_DETERMINATION K)%Z ->
  (Z.of_nat (length objects) < 2 ^ 31)%Z ->
  Forall (fun o => exists p, footprint_corners M self o = Ok p
                             /\ Forall (fun pt => fst pt <= MAX_FLOAT K) p)
    objects ->
  (old_cipv_index self < Z.of_nat (length objects))%Z ->
  exists self' objects',
    DetermineCipv K M self lane_objects options objects
    = Ok (true, self', objects')
    /\ length objects' = length objects.
Proof.
  intros Himg Hal Hmin Hlen Hobjs Hold.
  destruct (GetEgoLane_loop_sound K lane_objects no_ego_lanes Hal
              (no_ego_lanes_sound K)) as (lanes & Hloop & Hsound & _).
  destruct (ElongateEgoLane_defined K self lane_objects lanes
              (yaw_rate options) (velocity options) Hmin Hsound)
    as (ground & Hel & _).
  assert (Hlanes : frame_ego_lanes K self lane_objects options
                   = Ok (egolane_image lanes, ground)).
  { unfold frame_ego_lanes, GetEgoLane. rewrite Hloop.
    cbn [mbind outcome_bind]. rewrite Hel. reflexivity. }
  destruct (DetermineCipv_defined K M self lane_objects options objects
              (egolane_image lanes) ground Hlen Hlanes) as (self' & objects'
                                                            & Hrun).
  - intros o Ho. unfold IsObjectInTheLane. rewrite Himg.
    apply IsObjectInTheLaneGround_Ok. right.
    apply list_elem_of_In in Ho.
    exact (proj1 (List.Forall_forall _ _) Hobjs o Ho).
  - exact Hold.
  - exists self', objects'. split; [exact Hrun|].
    apply DetermineCipv_Ok in Hrun
      as (_ & _ & sel & _ & _ & _ & _ & _ & Hcase).
    destruct Hcase as [[_ ->]|(_ & cleared & Hcl & Hset)]; [reflexivity|].
    apply assign_b_cipv_Ok in Hset as (_ & o & _ & ->).
    rewrite length_insert.
    destruct Hcl as [(_ & _ & Hcl)|[_ ->]]; [|reflexivity].
    apply assign_b_cipv_Ok in Hcl as (_ & o' & _ & ->).
    now rewrite length_insert.
Qed.

Lemma DetermineCipv_ground_defined_witness :
  exists self' objects',
    DetermineCipv sample_constants axis_libm identity_engine
      [stub_line EGO_RIGHT] cruise two_cars = Ok (true, self', objects')
    /\ length objects' = length two_cars.
Proof.
  apply (DetermineCipv_ground_defined sample_constants axis_libm
           identity_engine [stub_line EGO_RIGHT] cruise two_cars).
  - reflexivity.
  - repeat constructor.
  - vm_compute. discriminate.
  - vm_compute. reflexivity.
  - repeat constructor.
    + exists lead_car_corners. split; [vm_compute; reflexivity|].
      repeat constructor; vm_compute; discriminate.
    + eexists. split; [vm_compute; reflexivity|].
      repeat constructor; vm_compute; discriminate.
  - vm_compute. reflexivity.
Defined.

(** ** The options of a frame *)

(** On a lane whose boundaries are each one repeated point the lane test
    does not depend on the two points. *)
Lemma IsObjectInTheLaneGround_repeated_points (K : Constants) (M : Libm)
    (self : Cipv) (object : Object) (pl pr pl' pr' : Point2Df) (n : nat) :
  (forall q, q == 0 -> sqrt M q == 0) ->
  0 <= B_FLT_EPSILON K ->
  IsObjectInTheLaneGround K M self object
    {| left_line := repeat pl n; right_line := repeat pr n |}
  = IsObjectInTheLaneGround K M self object
      {| left_line := repeat pl' n; right_line := repeat pr' n |}.
Proof.
  intros Hsqrt Heps. unfold IsObjectInTheLaneGround.
  change (FindClosestEdgeOfObjectGround K M self object
            {| left_line := repeat pl n; right_line := repeat pr n |}
            unset_edge)
    with (FindClosestEdgeOfObjectGround K M self object
            {| left_line := repeat pl' n; right_line := repeat pr' n |}
            unset_edge).
  destruct (FindClosestEdgeOfObjectGround _ _ _ _ _ _) as [[valid edge]|];
    [|reflexivity].
  cbn [mbind outcome_bind left_line right_line].
  unfold closest_segment.
  rewrite !(closest_segment_loop_repeat K M Hsqrt Heps).
  rewrite !repeat_length. reflexivity.
Qed.

Lemma DetermineCipv_loop_ext (K : Constants) (M : Libm) (self : Cipv)
    (image ground ground' : EgoLane) (objects : list Object)
    (indices : list Z) (acc : Z * Z) :
  (forall o, IsObjectInTheLane K M self o image ground
             = IsObjectInTheLane K M self o image ground') ->
  DetermineCipv_loop K M self image ground objects indices acc
  = DetermineCipv_loop K M self image ground' objects indices acc.
Proof.
  intros Hext. revert acc.
  induction indices as [|i indices IH]; intros acc; [reflexivity|].
  cbn [DetermineCipv_loop].
  assert (Hstep : DetermineCipv_step K M self image ground objects acc i
                  = DetermineCipv_step K M self image ground' objects acc i).
  { unfold DetermineCipv_step. destruct acc as [ci tid].
    destruct (at_index objects i) as [obj|]; [|reflexivity].
    cbn [mbind outcome_bind]. now rewrite Hext. }
  rewrite Hstep.
  destruct (DetermineCipv_step K M self image ground' objects acc i);
    [|reflexivity].
  cbn [mbind outcome_bind]. apply IH.
Qed.

(** X22: the options of a frame have no effect.  [DetermineCipv] gives the
    same result, selection and flags included, whatever yaw rate and
    velocity it is given: the yaw rate is passed on and never read, and the
    velocity only moves the one point of which the lane synthesized
    without any lane line is made. *)
Theorem DetermineCipv_options_inert (K : Constants) (M : Libm)
    (self : Cipv) (lane_objects : list LaneLine)
    (options options' : CipvOptions) (objects : list Object) :
  (forall q, q == 0 -> sqrt M q == 0) ->
  0 <= B_FLT_EPSILON K ->
  DetermineCipv K M self lane_objects options objects
  = DetermineCipv K M self lane_objects options' objects.
Proof.
  intros Hsqrt Heps. unfold DetermineCipv.
  destruct (GetEgoLane K lane_objects no_ego_lanes) as [[t lanes]|];
    [|reflexivity].
  cbn [mbind outcome_bind].
  destruct (b_left_valid lanes), (b_right_valid lanes);
    unfold ElongateEgoLane; cbn [andb negb]; try reflexivity.
  destruct (b_image_based_cipv_ self) eqn:Himg.
  - unfold MakeVirtualEgoLaneFromYawRate. rewrite Himg. reflexivity.
  - pose proof (MakeVirtualEgoLaneFromYawRate_points self
                  (yaw_rate options) (velocity options)
                  (EGO_CAR_HALF_VIRTUAL_LANE K) Himg) as Hpts.
    pose proof (MakeVirtualEgoLaneFromYawRate_points self
                  (yaw_rate options') (velocity options')
                  (EGO_CAR_HALF_VIRTUAL_LANE K) Himg) as Hpts'.
    destruct (MakeVirtualEgoLaneFromYawRate self (yaw_rate options) _ _)
      as [b [l r]].
    destruct (MakeVirtualEgoLaneFromYawRate self (yaw_rate options') _ _)
      as [b' [l' r']].
    cbn [snd] in Hpts, Hpts'.
    apply pair_equal_spec in Hpts as [-> ->].
    apply pair_equal_spec in Hpts' as [-> ->].
    cbn [mbind outcome_bind].
    rewrite (DetermineCipv_loop_ext K M self (egolane_image lanes) _
               {| left_line :=
                    repeat (time_unit_ self * velocity options',
                            0 + EGO_CAR_HALF_VIRTUAL_LANE K) 24;
                  right_line :=
                    repeat (time_unit_ self * velocity options',
                            0 - EGO_CAR_HALF_VIRTUAL_LANE K) 24 |});
      [reflexivity|].
    intros o. unfold IsObjectInTheLane. rewrite Himg.
    now apply IsObjectInTheLaneGround_repeated_points.
Qed.

Lemma DetermineCipv_options_inert_witness :
  DetermineCipv sample_constants axis_libm identity_engine [] cruise
    two_cars
  = DetermineCipv sample_constants axis_libm identity_engine [] swerve
      two_cars.
Proof.
  apply (DetermineCipv_options_inert sample_constants axis_libm
           identity_engine [] cruise swerve two_cars).
  - exact exact_sqrt_zero.
  - vm_compute. discriminate.
Defined.

(** ** The near edge in image coordinates *)

(** X24: for an object that passes the size test and is headed more than
    [FOURTY_FIVE_DEGREE] to the left, [FindClosestEdgeOfObjectImage]
    returns [true] with an edge that has no extent: the start and the end
    are both the rear left corner. *)
Theorem FindClosestEdgeOfObjectImage_left_collapsed (M : Libm)
    (FOURTY_FIVE_DEGREE : Q) (object : Object) (lane : EgoLane)
    (edge0 : LineSegment2Df) :
  degenerate_size object = false ->
  FOURTY_FIVE_DEGREE < heading M object ->
  exists edge,
    FindClosestEdgeOfObjectImage M FOURTY_FIVE_DEGREE object lane edge0
    = (true, edge)
    /\ start_point edge = end_point edge
    /\ edge_length_sqr edge == 0.
Proof.
  unfold degenerate_size, FindClosestEdgeOfObjectImage.
  destruct (size object) as [[size_x size_y] size_z].
  intros -> Hhead.
  assert (Hfar : Qleb (fabs (heading M object)) FOURTY_FIVE_DEGREE = false).
  { apply Qleb_gt. unfold fabs.
    pose proof (Qle_Qabs (heading M object)). lra. }
  rewrite Hfar. apply Qltb_lt in Hhead. rewrite Hhead.
  eexists. split; [reflexivity|]. cbn [start_point end_point].
  split; [reflexivity|]. unfold edge_length_sqr. cbn [start_point end_point].
  ring.
Qed.

Lemma FindClosestEdgeOfObjectImage_left_collapsed_witness :
  exists edge,
    FindClosestEdgeOfObjectImage side_libm forty_five_degree crossing_car
      no_lane stale_edge = (true, edge)
    /\ start_point edge = end_point edge
    /\ edge_length_sqr edge == 0.
Proof.
  apply (FindClosestEdgeOfObjectImage_left_collapsed side_libm
           forty_five_degree crossing_car no_lane stale_edge).
  - reflexivity.
  - vm_compute. reflexivity.
Defined.

(** X25: [FindClosestEdgeOfObjectImage] never returns the front edge.
    For an object that passes the size test the result is [true] and the
    end of the edge is a rear corner of the box, at the offset
    [- size_x / 2] along the heading, whatever the heading is. *)
Theorem FindClosestEdgeOfObjectImage_rear_corner (M : Libm)
    (FOURTY_FIVE_DEGREE : Q) (object : Object) (lane : EgoLane)
    (edge0 : LineSegment2Df) :
  degenerate_size object = false ->
  exists edge,
    FindClosestEdgeOfObjectImage M FOURTY_FIVE_DEGREE object lane edge0
    = (true, edge)
    /\ (end_point edge
        = image_corner M object (0 - fst (fst (size object)) / 2)
            (snd (fst (size object)) / 2)
        \/ end_point edge
           = image_corner M object (0 - fst (fst (size object)) / 2)
               (0 - snd (fst (size object)) / 2)).
Proof.
  unfold degenerate_size, FindClosestEdgeOfObjectImage.
  destruct (size object) as [[size_x size_y] size_z].
  intros ->. cbn [fst snd].
  destruct (Qleb (fabs (heading M object)) FOURTY_FIVE_DEGREE) eqn:Hback;
    [eexists; split; [reflexivity|]; cbn [end_point]; auto|].
  destruct (Qltb FOURTY_FIVE_DEGREE (heading M object)) eqn:Hleft;
    [eexists; split; [reflexivity|]; cbn [end_point]; auto|].
  destruct (Qltb (heading M object) (- FOURTY_FIVE_DEGREE)) eqn:Hright;
    [eexists; split; [reflexivity|]; cbn [end_point]; auto|].
  exfalso. apply Qleb_gt in Hback. apply Qltb_ge in Hleft, Hright.
  unfold fabs in Hback.
  assert (Habs : Qabs (heading M object) <= FOURTY_FIVE_DEGREE)
    by (apply Qabs_Qle_condition; split; lra).
  lra.
Qed.

Lemma FindClosestEdgeOfObjectImage_rear_corner_witness :
  exists edge,
    FindClosestEdgeOfObjectImage side_libm forty_five_degree crossing_car
      no_lane stale_edge = (true, edge)
    /\ (end_point edge
        = image_corner side_libm crossing_car
            (0 - fst (fst (size crossing_car)) / 2)
            (snd (fst (size crossing_car)) / 2)
        \/ end_point edge
           = image_corner side_libm crossing_car
               (0 - fst (fst (size crossing_car)) / 2)
               (0 - snd (fst (size crossing_car)) / 2)).
Proof.
  apply (FindClosestEdgeOfObjectImage_rear_corner side_libm
           forty_five_degree crossing_car no_lane stale_edge).
  reflexivity.
Defined.

(** X26: for an object that passes the size test and is headed within
    [FOURTY_FIVE_DEGREE] of straight on, the edge is the rear one: when
    the square root of the direction's squared norm is exact and not zero,
    the edge has the length [size_y]. *)
Theorem FindClosestEdgeOfObjectImage_rear_edge (M : Libm)
    (FOURTY_FIVE_DEGREE : Q) (object : Object) (lane : EgoLane)
    (edge0 : LineSegment2Df) (len : Q) :
  degenerate_size object = false ->
  Qabs (heading M object) <= FOURTY_FIVE_DEGREE ->
  len = sqrt M (fst (fst (direction object)) * fst (fst (direction object))
                + snd (fst (direction object))
                  * snd (fst (direction object))) ->
  len * len == fst (fst (direction object)) * fst (fst (direction object))
               + snd (fst (direction object))
                 * snd (fst (direction object)) ->
  ~ len == 0 ->
  exists edge,
    FindClosestEdgeOfObjectImage M FOURTY_FIVE_DEGREE object lane edge0
    = (true, edge)
    /\ edge_length_sqr edge
       == snd (fst (size object)) * snd (fst (size object)).
Proof.
  unfold degenerate_size, FindClosestEdgeOfObjectImage, image_corner.
  destruct (size object) as [[size_x size_y] size_z].
  intros -> Hhead.
  apply Qleb_le in Hhead. unfold fabs. rewrite Hhead. clear Hhead.
  destruct (local_center (camera_supplement object)) as [[cx cy] cz].
  destruct (direction object) as [[dx dy] dz]. cbn [fst snd].
  intros <- Hsq Hne. eexists. split; [reflexivity|].
  unfold edge_length_sqr. cbn [start_point end_point fst snd].
  assert (E : forall s c : Q,
             (0 - size_x / 2) * c + size_y / 2 * s + cx
             - ((0 - size_x / 2) * c + (0 - size_y / 2) * s + cx)
             == size_y * s
             /\ size_y / 2 * c - (0 - size_x / 2) * s + cy
                - ((0 - size_y / 2) * c - (0 - size_x / 2) * s + cy)
                == size_y * c)
    by (intros s c; split; field).
  destruct (E (- dy / len) (dx / len)) as [-> ->].
  assert (Hunit : - dy / len * (- dy / len) + dx / len * (dx / len) == 1).
  { assert (H : - dy / len * (- dy / len) + dx / len * (dx / len)
                == (dx * dx + dy * dy) / (len * len))
      by (field; exact Hne).
    rewrite H, <- Hsq. field. exact Hne. }
  assert (Hgoal : size_y * (- dy / len) * (size_y * (- dy / len))
                  + size_y * (dx / len) * (size_y * (dx / len))
                  == size_y * size_y
                     * (- dy / len * (- dy / len) + dx / len * (dx / len)))
    by ring.
  rewrite Hgoal, Hunit. ring.
Qed.

Lemma FindClosestEdgeOfObjectImage_rear_edge_witness :
  exists edge,
    FindClosestEdgeOfObjectImage axis_libm forty_five_degree lead_car
      no_lane stale_edge = (true, edge)
    /\ edge_length_sqr edge == 2 * 2.
Proof.
  apply (FindClosestEdgeOfObjectImage_rear_edge axis_libm forty_five_degree
           lead_car no_lane stale_edge 1).
  - reflexivity.
  - vm_compute. discriminate.
  - vm_compute. reflexivity.
  - vm_compute. reflexivity.
  - vm_compute. discriminate.
Defined.

(** ** A frame seen twice *)

Lemma same_but_flags_refl (objects : list Object) :
  same_but_flags objects objects.
Proof.
  apply Forall_Forall2_diag, List.Forall_forall. intros o _.
  now destruct o.
Qed.

Lemma same_but_flags_assign (objects objects1 objects2 : list Object)
    (i : Z) (b : bool) :
  same_but_flags objects objects1 ->
  assign_b_cipv objects1 i b = Ok objects2 ->
  same_but_flags objects objects2.
Proof.
  intros Hsame Hset.
  apply assign_b_cipv_Ok in Hset as (_ & o1 & Ho1 & ->).
  destruct (Forall2_lookup_r _ _ _ _ _ Hsame Ho1) as (o & Ho & Hrel).
  rewrite <- (list_insert_id objects (Z.to_nat i) o Ho).
  apply Forall2_insert; [exact Hsame|].
  rewrite Hrel. reflexivity.
Qed.

Lemma at_index_same_but_flags (objects objects' : list Object) (i : Z) :
  same_but_flags objects objects' ->
  match at_index objects i, at_index objects' i with
  | Ok o, Ok o' => o' = set_b_cipv o (b_cipv o')
  | Undefined, Undefined => True
  | _, _ => False
  end.
Proof.
  intros Hsame. unfold at_index.
  rewrite <- (Forall2_length _ _ _ Hsame).
  destruct (_ || _); [exact I|].
  rewrite !nth_error_lookup.
  destruct (objects !! Z.to_nat i) as [o|] eqn:Ho.
  - destruct (Forall2_lookup_l _ _ _ _ _ Hsame Ho) as (o' & -> & Hrel).
    exact Hrel.
  - destruct (objects' !! Z.to_nat i) as [o'|] eqn:Ho'; [|exact I].
    destruct (Forall2_lookup_r _ _ _ _ _ Hsame Ho') as (o & Ho2 & _).
    congruence.
Qed.

(** The selection loop reads neither the flags of the objects nor the
    index of the previous frame. *)
Lemma DetermineCipv_loop_flags (K : Constants) (M : Libm) (self : Cipv)
    (previous : Z) (image ground : EgoLane) (objects objects' : list Object)
    (indices : list Z) (acc : Z * Z) :
  same_but_flags objects objects' ->
  DetermineCipv_loop K M (set_old_cipv_index self previous) image ground
    objects' indices acc
  = DetermineCipv_loop K M self image ground objects indices acc.
Proof.
  intros Hsame. revert acc.
  induction indices as [|i indices IH]; intros acc; [reflexivity|].
  cbn [DetermineCipv_loop].
  assert (Hstep : DetermineCipv_step K M (set_old_cipv_index self previous)
                    image ground objects' acc i
                  = DetermineCipv_step K M self image ground objects acc i).
  { unfold DetermineCipv_step. destruct acc as [ci tid].
    pose proof (at_index_same_but_flags objects objects' i Hsame) as Hi.
    destruct (at_index objects i) as [o|], (at_index objects' i) as [o'|];
      try contradiction; [|reflexivity].
    cbn [mbind outcome_bind]. rewrite Hi.
    change (IsObjectInTheLane K M (set_old_cipv_index self previous)
              (set_b_cipv o (b_cipv o')) image ground)
      with (IsObjectInTheLane K M self o image ground).
    destruct (IsObjectInTheLane K M self o image ground) as [[|]|];
      try reflexivity.
    cbn [mbind outcome_bind]. destruct (ci <? 0)%Z; [reflexivity|].
    pose proof (at_index_same_but_flags objects objects' ci Hsame) as Hc.
    destruct (at_index objects ci) as [c|], (at_index objects' ci) as [c'|];
      try contradiction; [|reflexivity].
    cbn [mbind outcome_bind]. rewrite Hc. reflexivity. }
  rewrite Hstep.
  destruct (DetermineCipv_step K M self image ground objects acc i);
    [|reflexivity].
  cbn [mbind outcome_bind]. apply IH.
Qed.

(** X27: a frame seen twice.  When a call of [DetermineCipv] is defined,
    the same call on the engine and the object list it leaves, with the
    same lane lines and options, is defined and changes nothing: the same
    index is recorded and the flags stay as the first call left them. *)
Theorem DetermineCipv_repeated (K : Constants) (M : Libm)
    (self self' : Cipv) (lane_objects : list LaneLine)
    (options : CipvOptions) (objects objects' : list Object) (b : bool) :
  DetermineCipv K M self lane_objects options objects
  = Ok (b, self', objects') ->
  DetermineCipv K M self' lane_objects options objects'
  = Ok (b, self', objects').
Proof.
  intros Hrun.
  apply DetermineCipv_Ok in Hrun
    as (image & ground & sel & tid & Hlanes & Hloop & -> & -> & Hcase).
  unfold frame_ego_lanes in Hlanes.
  apply bind_Ok in Hlanes as ([t lanes] & Hget & Hlanes).
  cbn [mbind outcome_bind] in Hlanes.
  apply bind_Ok in Hlanes as ([t' gnd] & Hel & Hlanes).
  injection Hlanes as <- <-.
  assert (Hsame : same_but_flags objects objects').
  { destruct Hcase as [[_ ->]|(_ & cleared & Hcl & Hset)];
      [apply same_but_flags_refl|].
    apply (same_but_flags_assign objects cleared objects' sel true);
      [|exact Hset].
    destruct Hcl as [(_ & _ & Hcl)|[_ ->]]; [|apply same_but_flags_refl].
    exact (same_but_flags_assign objects objects cleared _ false
             (same_but_flags_refl objects) Hcl). }
  unfold DetermineCipv. rewrite Hget. cbn [mbind outcome_bind].
  assert (Hel' : ElongateEgoLane K (set_old_cipv_index self sel)
                   lane_objects (b_left_valid lanes) (b_right_valid lanes)
                   (yaw_rate options) (velocity options)
                   (egolane_image lanes) (egolane_ground lanes)
                 = Ok (t', gnd)) by exact Hel.
  rewrite Hel'. cbn [mbind outcome_bind].
  rewrite <- (Forall2_length _ _ _ Hsame).
  rewrite (DetermineCipv_loop_flags K M self sel (egolane_image lanes) gnd
             objects objects' _ _ Hsame), Hloop.
  cbn [mbind outcome_bind old_cipv_index set_old_cipv_index].
  destruct Hcase as [[Hneg ->]|(Hpos & cleared & _ & Hset)].
  - destruct (Z.leb_spec 0 sel) as [|_]; [lia|]. reflexivity.
  - destruct (Z.leb_spec 0 sel) as [_|]; [|lia].
    rewrite Z.eqb_refl. cbn [andb negb mbind outcome_bind].
    apply assign_b_cipv_Ok in Hset as (_ & o & Ho & Hobjects').
    assert (Hsel : objects' !! Z.to_nat sel = Some (set_b_cipv o true)).
    { rewrite Hobjects'. apply list_lookup_insert_eq.
      eapply lookup_lt_Some; eauto. }
    unfold assign_b_cipv.
    replace sel with (Z.of_nat (Z.to_nat sel)) at 1 by lia.
    rewrite (at_index_lookup _ _ _ Hsel). cbn [mbind outcome_bind].
    change (set_b_cipv (set_b_cipv o true) true) with (set_b_cipv o true).
    now rewrite (list_insert_id _ _ _ Hsel).
Qed.

Lemma DetermineCipv_repeated_witness :
  DetermineCipv sample_constants axis_libm frame1.1.2 (lanes_around 0)
    cruise frame1.2
  = Ok (frame1.1.1, frame1.1.2, frame1.2)
  /\ b_cipv (default lead_car (frame1.2 !! 0%nat)) = true.
Proof.
  split; [|reflexivity].
  apply (DetermineCipv_repeated sample_constants axis_libm
           identity_engine frame1.1.2 (lanes_around 0) cruise two_cars
           frame1.2 frame1.1.1).
  vm_compute. reflexivity.
Defined.

(** ** The newest point of a history *)

Lemma cb_push_back_newest (K : Constants) (pt : Q * Q)
    (b : circular_buffer) :
  (0 < DROPS_HISTORY_SIZE K)%Z ->
  cb_size b = 0%Z \/ capacity b = DROPS_HISTORY_SIZE K ->
  exists older,
    items (cb_push_back pt
             (if (cb_size b =? 0)%Z
              then cb_set_capacity (DROPS_HISTORY_SIZE K) b else b))
    = older ++ [pt].
Proof.
  intros Hpos Hb.
  assert (Hcap : (0 < capacity
                        (if (cb_size b =? 0)%Z
                         then cb_set_capacity (DROPS_HISTORY_SIZE K) b
                         else b))%Z).
  { destruct (Z.eqb_spec (cb_size b) 0) as [|Hne]; [exact Hpos|].
    destruct Hb as [Hz|Hc]; [contradiction|]. rewrite Hc. exact Hpos. }
  unfold cb_push_back.
  destruct (Z.leb_spec (capacity
                          (if (cb_size b =? 0)%Z
                           then cb_set_capacity (DROPS_HISTORY_SIZE K) b
                           else b)) 0) as [|_]; [lia|].
  destruct (_ <? _)%Z; cbn [items]; eauto.
Qed.

(** A defined run of the second loop leaves the counter of a track of the
    frame as it is. *)
Lemma CollectDrops_evict_loop_seen (K : Constants) (objects : list Object)
    (ids : list Z) (acc acc' : gmap Z circular_buffer * gmap Z Z) (id : Z) :
  id ∈ track_ids objects ->
  CollectDrops_evict_loop K objects ids acc = Ok acc' ->
  acc'.2 !! id = acc.2 !! id.
Proof.
  intros Hid. revert acc.
  induction ids as [|k ids IH]; intros acc H.
  - now injection H as <-.
  - cbn [CollectDrops_evict_loop] in H.
    destruct (CollectDrops_evict K objects acc k) as [acc1|] eqn:Ek;
      [|discriminate].
    cbn [mbind outcome_bind] in H. rewrite (IH acc1 H).
    destruct (decide (k = id)) as [->|Hne].
    + destruct acc as [t s]. unfold CollectDrops_evict in Ek.
      apply existsb_track_id in Hid. rewrite Hid in Ek.
      cbn [negb andb] in Ek. now injection Ek as <-.
    + exact (proj2 (CollectDrops_evict_Ok K objects acc acc1 k Ek) id Hne).
Qed.

(** X28: the newest point of a history.  With a positive
    [DROPS_HISTORY_SIZE], a motion buffer that is not empty and bounded
    histories, after a call of [CollectDrops] that is defined the history
    of every track of the frame ends with the ground centre
    [(center[0], center[1])] of the last object of the frame that has the
    track's id, and the absence counter of the track is zero. *)
Theorem CollectDrops_newest_point (K : Constants) (self engine : Cipv)
    (motion_buffer : list VehicleStatus) (earlier later : list Object)
    (o : Object) (flag : bool) :
  (0 < DROPS_HISTORY_SIZE K)%Z ->
  nonempty_motion_buffer motion_buffer ->
  bounded_histories K (object_trackjectories_ self) ->
  track_id o ∉ track_ids later ->
  fst (CollectDrops K self motion_buffer (earlier ++ o :: later))
  = Ok (flag, engine) ->
  flag = true
  /\ exists h older,
       object_trackjectories_ engine !! track_id o = Some h
       /\ items h = older ++ [(fst (fst (center o)), snd (fst (center o)))]
       /\ object_id_skip_count_ engine !! track_id o = Some 0%Z.
Proof.
  intros Hpos Hne Hb Hlast Hrun. unfold nonempty_motion_buffer in Hne.
  apply CollectDrops_Ok in Hrun
    as [(_ & _ & Hle)|(-> & _ & t & s & reads & s' & Hfold & _ & Hloop & ->)].
  { rewrite to_int32_small in Hle by lia. lia. }
  split; [reflexivity|].
  set (step := CollectDrops_object K motion_buffer
                 (to_int32 (Z.of_nat (length motion_buffer)))) in *.
  rewrite fold_left_app in Hfold. cbn [fold_left] in Hfold.
  set (acc0 := fold_left step earlier
                 (object_trackjectories_ self, object_id_skip_count_ self,
                  [])) in *.
  assert (Hb0 : bounded_histories K acc0.1.1)
    by (apply CollectDrops_objects_bounded; assumption).
  destruct (CollectDrops_objects_absent K motion_buffer
              (to_int32 (Z.of_nat (length motion_buffer))) (track_id o)
              later (step acc0 o) Hlast) as [Ht Hs].
  fold step in Ht, Hs. rewrite Hfold in Ht, Hs. cbn [fst snd] in Ht, Hs.
  assert (Hin : track_id o ∈ track_ids (earlier ++ o :: later)).
  { unfold track_ids. rewrite map_app. cbn [map].
    apply elem_of_app. right. apply list_elem_of_here. }
  pose proof (CollectDrops_evict_loop_seen K (earlier ++ o :: later)
                (tracked_ids t) (t, s) (t, s') (track_id o) Hin Hloop)
    as Hs'.
  cbn [snd] in Hs'.
  cbn [object_trackjectories_ object_id_skip_count_ set_histories].
  rewrite Hs', Ht, Hs.
  destruct acc0 as [[t0 s0] r0]. unfold step, CollectDrops_object.
  cbn [fst snd] in *. rewrite !lookup_insert_eq.
  destruct (cb_push_back_newest K
              (fst (fst (center o)), snd (fst (center o)))
              (default cb_empty (t0 !! track_id o)) Hpos) as [older Hold].
  { destruct (t0 !! track_id o) as [h0|] eqn:E; cbn.
    - right. exact (proj1 (Hb0 _ _ E)).
    - left. reflexivity. }
  eauto.
Qed.

Lemma CollectDrops_newest_point_witness :
  exists h older,
    object_trackjectories_ three_cars_tracked !! 7%Z = Some h
    /\ items h = older ++ [(12, 0)]
    /\ object_id_skip_count_ three_cars_tracked !! 7%Z = Some 0%Z.
Proof.
  apply (CollectDrops_newest_point sample_constants identity_engine
           three_cars_tracked [still] [lead_car] [side_car]
           (car_at 7 12 0 12 false) true).
  - reflexivity.
  - vm_compute. split; reflexivity.
  - intros id h H. vm_compute in H. discriminate.
  - intros H. change (track_ids [side_car]) with [8%Z] in H.
    apply elem_of_cons in H as [H|H]; [discriminate|].
    now apply elem_of_nil in H.
  - vm_compute. reflexivity.
Defined.

(** ** Lane lines with missing ground points *)

Lemma append_lane_points_short (img : list Point2Df) (car : list Vector3d)
    (line_image line_ground : LaneLineSimple) :
  (length car < length img)%nat ->
  append_lane_points img car line_image line_ground = Undefined.
Proof.
  revert car line_image line_ground.
  induction img as [|p img IH]; intros car li lg Hlen; cbn [length] in Hlen;
    [lia|].
  destruct car as [|[[x y] z] car]; [reflexivity|].
  cbn [append_lane_points]. apply IH. cbn [length] in Hlen. lia.
Qed.

Lemma GetEgoLane_loop_misaligned (K : Constants)
    (lane_objects : list LaneLine) (acc : EgoLanes) :
  Exists (misaligned K) lane_objects ->
  GetEgoLane_loop K lane_objects acc = Undefined.
Proof.
  intros Hex. revert acc.
  induction Hex as [lane rest (Hside & Hlong & Hshort)|lane rest _ IH];
    intros acc; cbn [GetEgoLane_loop].
  - assert (Hstep : GetEgoLane_step K acc lane = Undefined).
    { unfold GetEgoLane_step. unfold long_enough in Hlong.
      apply negb_true_iff in Hlong. rewrite Hlong.
      unfold is_ego_left, is_ego_right in Hside.
      destruct (pos_type lane); try discriminate;
        now rewrite append_lane_points_short. }
    now rewrite Hstep.
  - destruct (GetEgoLane_step K acc lane); [|reflexivity].
    cbn [mbind outcome_bind]. apply IH.
Qed.

(** X29: a lane line with too few ground points.  [GetEgoLane] reads the
    ground points of a line at the indices of its image points.  When the
    list holds an ego-left or ego-right line that is long enough to be
    copied and has fewer ground points than image points, the read runs
    past the ground points: [GetEgoLane] has no defined result, and
    neither has [DetermineCipv]. *)
Theorem GetEgoLane_missing_ground_points (K : Constants) (M : Libm)
    (self : Cipv) (lane_objects : list LaneLine) (options : CipvOptions)
    (objects : list Object) :
  Exists (misaligned K) lane_objects ->
  GetEgoLane K lane_objects no_ego_lanes = Undefined
  /\ DetermineCipv K M self lane_objects options objects = Undefined.
Proof.
  intros Hex.
  assert (Hget : GetEgoLane K lane_objects no_ego_lanes = Undefined).
  { unfold GetEgoLane. now rewrite GetEgoLane_loop_misaligned. }
  split; [exact Hget|]. unfold DetermineCipv. now rewrite Hget.
Qed.

Lemma GetEgoLane_missing_ground_points_witness :
  GetEgoLane sample_constants [straight_line EGO_LEFT 2; torn_line]
    no_ego_lanes = Undefined
  /\ DetermineCipv sample_constants axis_libm identity_engine
       [straight_line EGO_LEFT 2; torn_line] cruise two_cars = Undefined.
Proof.
  apply (GetEgoLane_missing_ground_points sample_constants axis_libm
           identity_engine [straight_line EGO_LEFT 2; torn_line] cruise
           two_cars).
  apply Exists_cons_tl, Exists_cons_hd.
  split; [reflexivity|]. split; [reflexivity|]. cbn. lia.
Defined.

(** ** The lane test on a straight lane *)

(** Against a segment that runs forward at the ordinate [y], a point is
    left exactly when its ordinate is above [y]. *)
Lemma IsPointLeftOfLine_level (p a b : Point2Df) (y : Q) :
  snd a == y -> snd b == y -> fst a < fst b ->
  IsPointLeftOfLine p a b = Qltb y (snd p).
Proof.
  intros Ha Hb Hx. unfold IsPointLeftOfLine.
  assert (E : (fst b - fst a) * (snd p - snd a)
              - (snd b - snd a) * (fst p - fst a)
              == (fst b - fst a) * (snd p - y))
    by (rewrite Ha, Hb; ring).
  destruct (Qltb y (snd p)) eqn:Hy.
  - apply Qltb_lt in Hy. apply Qltb_lt. rewrite E.
    rewrite <- (Qmult_0_r (fst b - fst a)). apply Qmult_lt_l; lra.
  - apply Qltb_ge in Hy. apply Qltb_ge. rewrite E.
    rewrite <- (Qmult_0_r (fst b - fst a)). apply Qmult_le_l; lra.
Qed.

(** The side test of [IsObjectInTheLaneGround] against a straight
    boundary on which a nearest segment is found. *)
Lemma nearest_segment_side_level (K : Constants) (M : Libm) (pt : Point2Df)
    (line : list Point2Df) (y : Q) (side : bool -> bool) :
  straight_boundary line y ->
  (0 <= fst (closest_segment K M pt line))%Z ->
  (1 < Z.of_nat (length line))%Z
  /\ (let '(closest_index, _) := closest_segment K M pt line in
      if (0 <=? closest_index)%Z then
        a ← at_index line closest_index;
        b ← at_index line (closest_index + 1);
        Ok (side (IsPointLeftOfLine pt a b))
      else Ok false) = Ok (side (Qltb y (snd pt))).
Proof.
  intros Hline Hfound.
  destruct (closest_segment K M pt line) as [ci sd] eqn:E.
  cbn [fst] in Hfound.
  apply closest_segment_spec in E
    as [_ [[-> _]|(k & a & b & -> & Hk & Hk' & _)]]; [lia|].
  split.
  - apply lookup_lt_Some in Hk'. lia.
  - destruct (0 <=? Z.of_nat k)%Z eqn:E0; [|apply Z.leb_gt in E0; lia].
    rewrite (at_index_lookup _ _ _ Hk).
    replace (Z.of_nat k + 1)%Z with (Z.of_nat (S k)) by lia.
    rewrite (at_index_lookup _ _ _ Hk'). cbn [mbind outcome_bind].
    destruct (Hline k a b Hk Hk') as (Ha & Hb & Hx).
    now rewrite (IsPointLeftOfLine_level pt a b y Ha Hb Hx).
Qed.

(** X30: the lane test on a straight lane.  For an object whose near
    face is found in front of the ego vehicle, and boundaries that run
    forward at the ordinates [l] (left) and [r] (right) and on each of
    which a nearest segment is found, [IsObjectInTheLaneGround] accepts the
    object exactly when the end of the face of smaller [y] is at or below
    [l] and the end of larger [y] is above [r]: a face that reaches into
    the lane is accepted, one that touches the left boundary from outside
    is accepted and one that touches the right boundary from outside is
    not. *)
Theorem IsObjectInTheLaneGround_straight_lane (K : Constants) (M : Libm)
    (self : Cipv) (object : Object) (lane : EgoLane)
    (edge : LineSegment2Df) (l r : Q) :
  0 <= MAX_DIST_OBJECT_TO_LANE_METER K ->
  0 <= MAX_VEHICLE_WIDTH_METER K ->
  FindClosestEdgeOfObjectGround K M self object lane unset_edge
  = Ok (true, edge) ->
  straight_boundary (left_line lane) l ->
  straight_boundary (right_line lane) r ->
  (0 <= fst (closest_segment K M (end_point edge) (left_line lane)))%Z ->
  (0 <= fst (closest_segment K M (start_point edge) (right_line lane)))%Z ->
  IsObjectInTheLaneGround K M self object lane
  = Ok (Qleb (snd (end_point edge)) l && Qltb r (snd (start_point edge))).
Proof.
  intros Hd Hw Hedge Hleft Hright Hfl Hfr. unfold IsObjectInTheLaneGround.
  rewrite Hedge. cbn [mbind outcome_bind negb].
  destruct (nearest_segment_side_level K M (end_point edge)
              (left_line lane) l negb Hleft Hfl) as [Hll Hl].
  destruct (nearest_segment_side_level K M (start_point edge)
              (right_line lane) r (fun b => b) Hright Hfr) as [Hlr Hr].
  destruct (Z.leb_spec (Z.of_nat (length (left_line lane))) 1) as [|_];
    [lia|].
  destruct (closest_segment K M (end_point edge) (left_line lane))
    as [cl sl].
  rewrite Hl. cbn [mbind outcome_bind].
  destruct (Z.leb_spec (Z.of_nat (length (right_line lane))) 1) as [|_];
    [lia|].
  destruct (closest_segment K M (start_point edge) (right_line lane))
    as [cr sr].
  rewrite Hr. cbn [mbind outcome_bind].
  rewrite (AreDistancesSane_zero K Hd Hw).
  do 2 f_equal.
  destruct (Qltb l (snd (end_point edge))) eqn:E1;
    destruct (Qleb (snd (end_point edge)) l) eqn:E2; try reflexivity.
  - apply Qltb_lt in E1. apply Qleb_le in E2. lra.
  - apply Qltb_ge in E1. apply Qleb_gt in E2. lra.
Qed.

Lemma IsObjectInTheLaneGround_straight_lane_witness :
  IsObjectInTheLaneGround sample_constants axis_libm identity_engine
    lead_car wide_lane
  = Ok (Qleb (snd (end_point lead_car_edge)) 100
        && Qltb (-100 # 1) (snd (start_point lead_car_edge))).
Proof.
  apply (IsObjectInTheLaneGround_straight_lane sample_constants axis_libm
           identity_engine lead_car wide_lane lead_car_edge 100
           (-100 # 1)).
  - vm_compute. discriminate.
  - vm_compute. discriminate.
  - vm_compute. reflexivity.
  - intros [|[|k]] a b Ha Hb; try discriminate.
    injection Ha as <-. injection Hb as <-.
    repeat apply conj; vm_compute; reflexivity.
  - intros [|[|k]] a b Ha Hb; try discriminate.
    injection Ha as <-. injection Hb as <-.
    repeat apply conj; vm_compute; reflexivity.
  - vm_compute. discriminate.
  - vm_compute. discriminate.
Defined.
